(** * freud: a shallow embedding of selected analysis kernels

    The development follows the repository layout:

    - [Float32]          IEEE-754 binary32 values, as the C++ [float] type
    - [VectorMath]       [vec3]
    - [Py]               Python method bodies: state and exceptions
    - [Common]           freud/common.pyx, the [Compute] lifecycle guard
                         and [convert_array]
    - [Debye]            StaticStructureFactorDebye.cc
    - [LinkCell]         cpp/locality/LinkCell.h
    - [GaussianDensity]  cpp/density/GaussianDensity.cc
    - [KSpace]           freud/kspace.pyx

    C++ [float] computations are carried out on [spec_float] with the
    binary32 parameters; the NumPy code of kspace.pyx is embedded over
    exact arithmetic, rational for the pixel grids and real where [exp],
    [cos], [sin] and pi come in. *)

From Stdlib Require Import ZArith List Ascii String Bool Lia DecimalString.
From Stdlib Require Import QArith Qabs Qround Lqa Reals Qreals Lra RNsatz.
From Stdlib Require Import Floats.SpecFloat.
Import ListNotations.

Local Open Scope Z_scope.

(* ===================================================================== *)
(** ** binary32 *)
(* ===================================================================== *)

Module Float32.

Definition prec : Z := 24.
Definition emax : Z := 128.

Definition f32 : Type := spec_float.

Definition valid (x : f32) : bool := valid_binary prec emax x.

Definition is_nan (x : f32) : bool :=
  match x with S754_nan => true | _ => false end.

Definition fzero : f32 := S754_zero false.
Definition finfinity : f32 := S754_infinity false.
(** [float(0.5)], that is 2^23 * 2^-24. *)
Definition fhalf : f32 := S754_finite false 8388608 (-24).
Definition fone : f32 := S754_finite false 8388608 (-23).
Definition ftwo : f32 := S754_finite false 8388608 (-22).

Definition fmul : f32 -> f32 -> f32 := SFmul prec emax.
Definition fdiv : f32 -> f32 -> f32 := SFdiv prec emax.
Definition fadd : f32 -> f32 -> f32 := SFadd prec emax.
Definition fsub : f32 -> f32 -> f32 := SFsub prec emax.

(** The C++ comparison operators on [float]; every comparison with a NaN
    operand is false. *)
Definition flt (x y : f32) : bool := SFltb x y.
Definition fle (x y : f32) : bool := SFleb x y.
Definition feq (x y : f32) : bool := SFeqb x y.

(** [float(n)] for an integer [n] (round to nearest, ties to even). *)
Definition of_Z (n : Z) : f32 := binary_normalize prec emax n 0 false.

(** [std::min(a, b)] is [(b < a) ? b : a]. *)
Definition std_min (a b : f32) : f32 := if flt b a then b else a.

(** [FLT_MAX]. *)
Definition fmax_float : f32 := S754_finite false 16777215 104.

(** [std::nextafter(x, float(0))]: the neighbour of [x] in the direction
    of zero.  The magnitude steps down by one unit in the last place, a
    power of two borrows from the binade below, the smallest subnormal
    steps to a zero of the same sign, and a zero compares equal to the
    target, which is then returned. *)
Definition nextafter_zero (x : f32) : f32 :=
  match x with
  | S754_nan => S754_nan
  | S754_zero _ => S754_zero false
  | S754_infinity s => S754_finite s 16777215 104
  | S754_finite s m e =>
      if (Pos.eqb m 8388608 && (emin prec emax <? e))%bool
      then S754_finite s 16777215 (e - 1)
      else match m with
           | xH => S754_zero s
           | _ => S754_finite s (Pos.pred m) e
           end
  end.

(** A positive normal number that is at least 2^-125: canonical, with 24
    significant bits, above the lowest binade. *)
Definition normal_pos (x : f32) : bool :=
  match x with
  | S754_finite false m e =>
      bounded prec emax m e && (8388608 <=? Zpos m) && (-149 <? e)
  | _ => false
  end.

(** A positive finite number in its canonical representation. *)
Definition pos_finite (x : f32) : bool :=
  match x with
  | S754_finite false m e => bounded prec emax m e
  | _ => false
  end.

(** The smallest positive number, 2^-149. *)
Definition min_subnormal : f32 := S754_finite false 1 (-149).

(** [x / 2] on the representation: one exponent lower. *)
Definition exact_half (x : f32) : f32 :=
  match x with
  | S754_finite s m e => S754_finite s m (e - 1)
  | _ => x
  end.

(** ** Facts on binary32 *)

Lemma digits2_pos_log2 (m : positive) :
  Zpos (digits2_pos m) = Z.log2 (Zpos m) + 1.
Proof.
  assert (Hs : forall p, digits2_pos p = Pos.size p)
    by (induction p; simpl; congruence).
  rewrite Hs. destruct m; simpl; lia.
Qed.

Lemma digits2_pos_le (m : positive) (d : Z) :
  0 <= d -> (Zpos (digits2_pos m) <= d <-> Zpos m < 2 ^ d).
Proof.
  intros Hd. rewrite digits2_pos_log2.
  rewrite (Z.log2_lt_pow2 (Zpos m) d) by lia. lia.
Qed.

Lemma digits2_pos_ge (m : positive) (d : Z) :
  0 < d -> (d <= Zpos (digits2_pos m) <-> 2 ^ (d - 1) <= Zpos m).
Proof.
  intros Hd. rewrite digits2_pos_log2.
  rewrite (Z.log2_le_pow2 (Zpos m) (d - 1)) by lia. lia.
Qed.

(** The canonical binary32 representations: 24 significant bits above the
    subnormal exponent, at most 24 at it. *)
Lemma bounded_spec (m : positive) (e : Z) :
  bounded prec emax m e = true <->
  e <= 104 /\
  ((8388608 <= Zpos m < 16777216 /\ -149 <= e)
   \/ (Zpos m < 16777216 /\ e = -149)).
Proof.
  unfold bounded, canonical_mantissa, fexp, emin, prec, emax.
  rewrite andb_true_iff, Z.eqb_eq, Z.leb_le.
  pose proof (digits2_pos_le m 24 ltac:(lia)) as Hle.
  pose proof (digits2_pos_ge m 24 ltac:(lia)) as Hge.
  pose proof (digits2_pos_le m 23 ltac:(lia)) as Hle'.
  change (2 ^ 24) with 16777216 in *.
  change (2 ^ (24 - 1)) with 8388608 in *.
  change (2 ^ 23) with 8388608 in *.
  lia.
Qed.

(** *** Stepping toward zero *)

Lemma SFcompare_finite (s1 s2 : bool) (m1 m2 : positive) (e1 e2 : Z) :
  SFcompare (S754_finite s1 m1 e1) (S754_finite s2 m2 e2) =
  Some match s1, s2 with
       | true, false => Lt
       | false, true => Gt
       | false, false =>
           match Z.compare e1 e2 with
           | Lt => Lt
           | Gt => Gt
           | Eq => Z.compare (Zpos m1) (Zpos m2)
           end
       | true, true =>
           match Z.compare e1 e2 with
           | Lt => Gt
           | Gt => Lt
           | Eq => CompOpp (Z.compare (Zpos m1) (Zpos m2))
           end
       end.
Proof. reflexivity. Qed.

Ltac cmp_step :=
  match goal with
  | H : context [Z.compare ?a ?b] |- _ => destruct (Z.compare_spec a b)
  | |- context [Z.compare ?a ?b] => destruct (Z.compare_spec a b)
  end.

Ltac cmp_cases :=
  repeat (cmp_step; cbn [CompOpp] in *; try discriminate; try reflexivity).

(** Linear arithmetic, where the goal may be an impossible boolean
    equation left over from a case split. *)
Ltac arith :=
  match goal with
  | |- @eq bool _ _ => exfalso; lia
  | |- @eq (option _) _ _ => exfalso; lia
  | |- _ => lia
  end.

Ltac unfold_cmp :=
  unfold flt, fle, SFltb, SFleb in *;
  cbn [nextafter_zero] in *;
  rewrite ?SFcompare_finite in *;
  cbn [SFcompare] in *.

(** The three ways a finite number steps toward zero. *)
Lemma nextafter_zero_finite (s : bool) (m : positive) (e : Z) :
  (Zpos m = 8388608 /\ -149 < e /\
   nextafter_zero (S754_finite s m e) = S754_finite s 16777215 (e - 1))
  \/ (Zpos m = 1 /\ nextafter_zero (S754_finite s m e) = S754_zero s)
  \/ ((Zpos m <> 8388608 \/ e <= -149) /\ 1 < Zpos m /\
      exists m', Zpos m' = Zpos m - 1 /\
      nextafter_zero (S754_finite s m e) = S754_finite s m' e).
Proof.
  unfold nextafter_zero.
  change (emin prec emax) with (-149).
  destruct (Pos.eqb_spec m 8388608) as [-> | Hm];
    destruct (Z.ltb_spec (-149) e) as [He | He]; cbn [andb].
  - left; auto.
  - right; right. split; [lia |]. split; [lia |].
    eexists; split; [| reflexivity]. reflexivity.
  - destruct (Pos.eq_dec m 1) as [-> | H1]; [right; left; auto |].
    right; right. split; [left; congruence |]. split; [lia |].
    exists (Pos.pred m). split; [lia |]. destruct m; try reflexivity. congruence.
  - destruct (Pos.eq_dec m 1) as [-> | H1]; [right; left; auto |].
    right; right. split; [left; congruence |]. split; [lia |].
    exists (Pos.pred m). split; [lia |]. destruct m; try reflexivity. congruence.
Qed.

Lemma nextafter_zero_valid (h : f32) :
  valid h = true -> valid (nextafter_zero h) = true.
Proof.
  destruct h as [s | s | | s m e]; try reflexivity.
  unfold valid at 1; cbn [valid_binary]. intros Hb.
  apply bounded_spec in Hb.
  destruct (nextafter_zero_finite s m e)
    as [(Hm & He & ->) | [(Hm & ->) | (Hc & Hm & m' & Hm' & ->)]];
    try reflexivity; unfold valid; cbn [valid_binary];
    apply bounded_spec; lia.
Qed.

(** [nextafter_zero h] is the largest binary32 number strictly below a
    positive [h]. *)
Ltac below_cases y :=
  let sy := fresh "sy" in
  let Hy := fresh "Hy" in
  destruct y as [sy | sy | | sy ? ?]; try discriminate; try reflexivity;
  try solve [destruct sy; try discriminate; reflexivity];
  unfold valid; cbn [valid_binary]; intros Hy;
  apply bounded_spec in Hy;
  unfold_cmp;
  destruct sy; [reflexivity |];
  cmp_cases; try reflexivity; try discriminate; arith.

Lemma nextafter_zero_largest_below (h : f32) :
  valid h = true -> flt fzero h = true ->
  flt (nextafter_zero h) h = true /\
  forall y : f32, valid y = true -> flt y h = true ->
                  fle y (nextafter_zero h) = true.
Proof.
  destruct h as [s | s | | s m e]; try discriminate.
  - destruct s; try discriminate. intros _ _. split; [reflexivity |].
    intros y. below_cases y.
  - destruct s; try discriminate.
    unfold valid at 1; cbn [valid_binary]. intros Hb _.
    apply bounded_spec in Hb.
    destruct (nextafter_zero_finite false m e)
      as [(Hm & He & ->) | [(Hm & ->) | (Hc & Hm & m' & Hm' & ->)]];
      (split;
       [ unfold_cmp;
         cmp_cases; try reflexivity; arith
       | intros y; below_cases y ]).
Qed.

(** *** The order of the comparison operators *)

Lemma fle_refl (x : f32) : is_nan x = false -> fle x x = true.
Proof.
  destruct x as [s | s | | s m e]; try discriminate; intros _;
    unfold_cmp; try destruct s; try reflexivity;
    rewrite !Z.compare_refl; reflexivity.
Qed.

Lemma flt_fle (x y : f32) : flt x y = true -> fle x y = true.
Proof.
  unfold flt, fle, SFltb, SFleb.
  destruct (SFcompare x y) as [[| |] |]; congruence.
Qed.

Lemma fle_total (x y : f32) :
  is_nan x = false -> is_nan y = false -> flt y x = false -> fle x y = true.
Proof.
  destruct x as [s | s | | s m e]; try discriminate;
    destruct y as [s' | s' | | s' m' e']; try discriminate; intros _ _;
    unfold_cmp;
    try destruct s; try destruct s'; try reflexivity; try discriminate;
    cmp_cases; try reflexivity; try discriminate; arith.
Qed.

Lemma fle_trans (x y z : f32) :
  fle x y = true -> fle y z = true -> fle x z = true.
Proof.
  destruct x as [s | s | | s m e]; try discriminate;
    destruct y as [s' | s' | | s' m' e']; try discriminate;
    destruct z as [s'' | s'' | | s'' m'' e'']; try discriminate;
    unfold_cmp;
    try destruct s; try destruct s'; try destruct s'';
    try reflexivity; try discriminate;
    cmp_cases; try reflexivity; try discriminate; arith.
Qed.

Lemma std_min_not_nan (a b : f32) :
  is_nan a = false -> is_nan b = false -> is_nan (std_min a b) = false.
Proof. unfold std_min; destruct (flt b a); auto. Qed.

Lemma std_min_le_l (a b : f32) :
  is_nan a = false -> is_nan b = false -> fle (std_min a b) a = true.
Proof.
  intros Ha Hb. unfold std_min. destruct (flt b a) eqn:E.
  - now apply flt_fle.
  - now apply fle_refl.
Qed.

Lemma std_min_le_r (a b : f32) :
  is_nan a = false -> is_nan b = false -> fle (std_min a b) b = true.
Proof.
  intros Ha Hb. unfold std_min. destruct (flt b a) eqn:E.
  - now apply fle_refl.
  - now apply fle_total.
Qed.

(** On positive numbers stepping toward zero is the IEEE predecessor, on
    negative ones the successor. *)
Example nextafter_zero_agrees_with_SFpred :
  map nextafter_zero
      [fone; fhalf; fmax_float; finfinity;
       S754_finite false 1 (-149); S754_finite false 8388608 (-149);
       S754_finite false 8388608 (-148); S754_finite false 12345678 3]
  = map (SFpred prec emax)
      [fone; fhalf; fmax_float; finfinity;
       S754_finite false 1 (-149); S754_finite false 8388608 (-149);
       S754_finite false 8388608 (-148); S754_finite false 12345678 3].
Proof. vm_compute. reflexivity. Qed.

Example nextafter_zero_agrees_with_SFsucc :
  map nextafter_zero
      [S754_finite true 8388608 (-23); S754_infinity true;
       S754_finite true 1 (-149); S754_finite true 8388608 (-148)]
  = map (SFsucc prec emax)
      [S754_finite true 8388608 (-23); S754_infinity true;
       S754_finite true 1 (-149); S754_finite true 8388608 (-148)].
Proof. vm_compute. reflexivity. Qed.

(** *** Halving *)

Lemma digits2_pos_normal (m : positive) :
  8388608 <= Zpos m < 16777216 -> Zpos (digits2_pos m) = 24.
Proof.
  intros Hm.
  pose proof (digits2_pos_le m 24 ltac:(lia)) as Hle.
  pose proof (digits2_pos_ge m 24 ltac:(lia)) as Hge.
  change (2 ^ 24) with 16777216 in *.
  change (2 ^ (24 - 1)) with 8388608 in *.
  lia.
Qed.

(** Multiplying a normal number above the lowest binade by [float(0.5)]
    only lowers the exponent: the product is exact. *)
Lemma fmul_half_normal (m : positive) (e : Z) :
  bounded prec emax m e = true -> 8388608 <= Zpos m -> -149 < e ->
  fmul fhalf (S754_finite false m e) = S754_finite false m (e - 1).
Proof.
  intros Hb Hm He. apply bounded_spec in Hb.
  assert (Hd : Zpos (digits2_pos m) = 24) by (apply digits2_pos_normal; lia).
  unfold fmul, fhalf, SFmul. cbn [xorb].
  unfold binary_round_aux.
  assert (E1 : shr_fexp prec emax (Zpos (8388608 * m)) (-24 + e) loc_Exact
               = ({| shr_m := Zpos m; shr_r := false; shr_s := false |},
                  e - 1)).
  { unfold shr_fexp. cbn [Pos.mul]. unfold Zdigits2. cbn [digits2_pos].
    rewrite !Pos2Z.inj_succ, Hd. unfold fexp, emin, prec, emax.
    rewrite Z.max_l by lia.
    match goal with
    | |- shr _ _ ?n = _ => replace n with 23 by lia
    end.
    unfold shr. cbn [iter_pos shr_1 shr_record_of_loc orb].
    f_equal. lia. }
  rewrite E1. cbn [shr_m loc_of_shr_record round_nearest_even].
  assert (E2 : shr_fexp prec emax (Zpos m) (e - 1) loc_Exact
               = ({| shr_m := Zpos m; shr_r := false; shr_s := false |},
                  e - 1)).
  { unfold shr_fexp, Zdigits2. rewrite Hd. unfold fexp, emin, prec, emax.
    rewrite Z.max_l by lia.
    match goal with
    | |- shr _ _ ?n = _ => replace n with 0 by lia
    end.
    reflexivity. }
  rewrite E2. cbn [shr_m].
  unfold emax, prec.
  destruct (Z.leb_spec (e - 1) (128 - 24)); [reflexivity | lia].
Qed.

(** Half of a number of the lowest exponent, rounded to the nearest
    multiple of 2^-149, the even one of two. *)
Definition half_lowest (m : positive) : f32 :=
  let q := Z.div2 (Zpos m) in
  let r := if Z.odd (Zpos m) && Z.odd q then q + 1 else q in
  match r with
  | Zpos r' => S754_finite false r' (-149)
  | _ => S754_zero false
  end.

Lemma fmul_half_lowest (m : positive) :
  Zpos m < 16777216 ->
  fmul fhalf (S754_finite false m (-149)) = half_lowest m
  /\ valid (half_lowest m) = true.
Proof.
  intros Hm.
  assert (Hd : Zpos (digits2_pos m) <= 24)
    by (apply digits2_pos_le; [lia | exact Hm]).
  assert (Hv : forall r : positive,
             Zpos r < 16777216 -> bounded prec emax r (-149) = true)
    by (intros r Hr; apply bounded_spec; lia).
  assert (E2 : forall r : positive,
             Zpos r < 16777216 ->
             shr_fexp prec emax (Zpos r) (-149) loc_Exact
             = ({| shr_m := Zpos r; shr_r := false; shr_s := false |},
                -149)).
  { intros r Hr.
    assert (Hdr : Zpos (digits2_pos r) <= 24)
      by (apply digits2_pos_le; [lia | exact Hr]).
    unfold shr_fexp, Zdigits2, fexp, emin, prec, emax.
    rewrite Z.max_r by lia. reflexivity. }
  assert (E1 : shr_fexp prec emax (Zpos (8388608 * m)) (-24 + -149)
                        loc_Exact
               = (iter_pos shr_1 24
                    {| shr_m := Zpos (8388608 * m); shr_r := false;
                       shr_s := false |}, -149)).
  { unfold shr_fexp. cbn [Pos.mul]. unfold Zdigits2. cbn [digits2_pos].
    rewrite !Pos2Z.inj_succ. unfold fexp, emin, prec, emax.
    rewrite Z.max_r by lia. reflexivity. }
  unfold fmul, fhalf, SFmul. cbn [xorb]. unfold binary_round_aux.
  rewrite E1. clear E1.
  destruct m as [p | p |]; cbn [Pos.mul iter_pos shr_1 orb shr_m
                                loc_of_shr_record round_nearest_even].
  - (* odd *)
    unfold half_lowest. cbn [Z.div2 Z.odd Pos.div2 andb].
    destruct p as [p' | p' |]; cbn [IntDef.Z.even].
    + change (Zpos p'~1 + 1) with (Zpos (p'~1 + 1)).
      rewrite E2 by lia. cbn [shr_m]. split; [reflexivity |].
      apply Hv. lia.
    + rewrite E2 by lia. cbn [shr_m]. split; [reflexivity |].
      apply Hv. lia.
    + split; reflexivity.
  - (* even *)
    unfold half_lowest. cbn [Z.div2 Z.odd Pos.div2 andb].
    rewrite E2 by lia. cbn [shr_m]. split; [reflexivity |].
    apply Hv. lia.
  - (* the smallest subnormal *)
    split; reflexivity.
Qed.

(** *** Operations that cannot produce a NaN *)

Lemma shr_1_nonneg (mrs : shr_record) :
  0 <= shr_m mrs -> 0 <= shr_m (shr_1 mrs).
Proof.
  destruct mrs as [m r s]; cbn [shr_m].
  destruct m as [| p | p]; [cbn; lia | | lia].
  intros _. destruct p; cbn; lia.
Qed.

Lemma iter_shr_1_nonneg (n : positive) (mrs : shr_record) :
  0 <= shr_m mrs -> 0 <= shr_m (iter_pos shr_1 n mrs).
Proof.
  revert mrs. induction n as [n IH | n IH |]; intros mrs H; cbn [iter_pos].
  - apply IH, IH, shr_1_nonneg, H.
  - apply IH, IH, H.
  - apply shr_1_nonneg, H.
Qed.

Lemma shr_fexp_nonneg (m e : Z) (l : location) :
  0 <= m -> 0 <= shr_m (fst (shr_fexp prec emax m e l)).
Proof.
  intros Hm. unfold shr_fexp, shr.
  assert (H0 : 0 <= shr_m (shr_record_of_loc m l))
    by (destruct l as [| []]; exact Hm).
  destruct (fexp prec emax (Zdigits2 m + e) - e); cbn [fst]; auto.
  now apply iter_shr_1_nonneg.
Qed.

Lemma round_nearest_even_nonneg (m : Z) (l : location) :
  0 <= m -> 0 <= round_nearest_even m l.
Proof.
  intros Hm. destruct l as [| []]; cbn [round_nearest_even]; try lia.
  destruct (Z.even m); lia.
Qed.

Lemma binary_round_aux_not_nan (sx : bool) (mx ex : Z) (lx : location) :
  0 <= mx -> is_nan (binary_round_aux prec emax sx mx ex lx) = false.
Proof.
  intros Hm. unfold binary_round_aux.
  pose proof (shr_fexp_nonneg mx ex lx Hm) as H1.
  destruct (shr_fexp prec emax mx ex lx) as [mrs' e']; cbn [fst] in H1.
  pose proof (shr_fexp_nonneg _ e' loc_Exact
                (round_nearest_even_nonneg _ (loc_of_shr_record mrs') H1))
    as H2.
  destruct (shr_fexp prec emax _ e' loc_Exact) as [mrs'' e''];
    cbn [fst] in H2.
  destruct (shr_m mrs'') as [| p | p]; try reflexivity; [| lia].
  destruct (e'' <=? emax - prec); reflexivity.
Qed.

Lemma fmul_half_not_nan (x : f32) :
  is_nan x = false -> is_nan (fmul fhalf x) = false.
Proof.
  destruct x as [s | s | | s m e]; try discriminate; intros _;
    try reflexivity.
  unfold fmul, fhalf, SFmul. now apply binary_round_aux_not_nan.
Qed.

Lemma nextafter_zero_not_nan (x : f32) :
  is_nan x = false -> is_nan (nextafter_zero x) = false.
Proof.
  destruct x as [s | s | | s m e]; try discriminate; intros _;
    try reflexivity.
  destruct (nextafter_zero_finite s m e)
    as [(_ & _ & ->) | [(_ & ->) | (_ & _ & m' & _ & ->)]]; reflexivity.
Qed.

(** A finite nonzero numerator divided by anything but a NaN. *)
Lemma fdiv_finite_not_nan (s : bool) (m : positive) (e : Z) (y : f32) :
  is_nan y = false -> is_nan (fdiv (S754_finite s m e) y) = false.
Proof.
  destruct y as [sy | sy | | sy my ey]; try discriminate; intros _;
    try reflexivity.
  unfold fdiv, SFdiv, SFdiv_core_binary.
  match goal with
  | |- context [Z.div_eucl ?a ?b] =>
      pose proof (Z_div_mod a b ltac:(lia)) as Hdiv;
      assert (Ha : 0 <= a);
      [| destruct (Z.div_eucl a b) as [q r] ]
  end.
  { match goal with
    | |- 0 <= match ?s with _ => _ end =>
        destruct s eqn:Es; try lia
    end.
    rewrite Z.shiftl_mul_pow2 by lia. apply Z.mul_nonneg_nonneg; lia. }
  apply binary_round_aux_not_nan. nia.
Qed.

Lemma std_min_cases (a b : f32) : std_min a b = a \/ std_min a b = b.
Proof. unfold std_min; destruct (flt b a); auto. Qed.

(** *** Positive normal numbers *)

Lemma normal_pos_inv (x : f32) :
  normal_pos x = true ->
  exists m e, x = S754_finite false m e /\ bounded prec emax m e = true
              /\ 8388608 <= Zpos m /\ -149 < e.
Proof.
  destruct x as [s | s | | [] m e]; try discriminate.
  cbn [normal_pos]. rewrite !andb_true_iff, Z.leb_le, Z.ltb_lt.
  intros [[Hb Hm] He]. now exists m, e.
Qed.

Lemma normal_pos_not_nan (x : f32) : normal_pos x = true -> is_nan x = false.
Proof. intros (m & e & -> & _)%normal_pos_inv. reflexivity. Qed.

Lemma normal_pos_half (x : f32) :
  normal_pos x = true ->
  fmul fhalf x = exact_half x /\ valid (exact_half x) = true
  /\ flt fzero (exact_half x) = true.
Proof.
  intros (m & e & -> & Hb & Hm & He)%normal_pos_inv.
  split; [now apply fmul_half_normal |]. split; [| reflexivity].
  unfold valid; cbn [exact_half valid_binary].
  apply bounded_spec in Hb. apply bounded_spec. lia.
Qed.

Lemma pos_finite_not_nan (x : f32) : pos_finite x = true -> is_nan x = false.
Proof. destruct x as [s | s | | [] m e]; try discriminate; reflexivity. Qed.

Lemma normal_pos_finite (x : f32) : normal_pos x = true -> pos_finite x = true.
Proof.
  intros (m & e & -> & Hb & _)%normal_pos_inv. exact Hb.
Qed.

Lemma half_lowest_cases (m : positive) :
  (m = 1%positive /\ half_lowest m = S754_zero false)
  \/ (m <> 1%positive /\ exists r, half_lowest m = S754_finite false r (-149)).
Proof.
  unfold half_lowest.
  destruct m as [p | p |]; cbn [Z.div2 Z.odd Pos.div2 andb].
  - right. split; [discriminate |].
    destruct p as [p' | p' |]; cbn; eauto.
  - right. split; [discriminate |]. eauto.
  - left. split; reflexivity.
Qed.

(** Half of a positive finite number is a number again: zero for the
    smallest subnormal, positive otherwise. *)
Lemma pos_finite_half (x : f32) :
  pos_finite x = true ->
  valid (fmul fhalf x) = true
  /\ ((x = min_subnormal /\ fmul fhalf x = fzero)
      \/ (x <> min_subnormal /\ flt fzero (fmul fhalf x) = true)).
Proof.
  destruct x as [s | s | | [] m e]; try discriminate.
  cbn [pos_finite]. intros Hb. pose proof Hb as Hb'.
  apply bounded_spec in Hb'.
  destruct (Z.eq_dec e (-149)) as [-> | He].
  - destruct (fmul_half_lowest m ltac:(lia)) as [-> Hv].
    split; [exact Hv |].
    destruct (half_lowest_cases m) as [[-> ->] | (Hm & r & ->)].
    + left. split; reflexivity.
    + right. split; [| reflexivity]. unfold min_subnormal. congruence.
  - assert (Hn : normal_pos (S754_finite false m e) = true).
    { cbn [normal_pos]. rewrite Hb. cbn [andb].
      apply andb_true_iff. rewrite Z.leb_le, Z.ltb_lt. lia. }
    destruct (normal_pos_half _ Hn) as (-> & Hv & Hp).
    split; [exact Hv |]. right. split; [| exact Hp].
    unfold min_subnormal. congruence.
Qed.

Lemma fle_infinity_inv (x : f32) : fle finfinity x = true -> x = finfinity.
Proof.
  destruct x as [s | [] | | [] m e]; try discriminate; reflexivity.
Qed.

(** [std::min] hands back its first argument unless the second compares
    below it; a NaN in second place never does. *)
Lemma flt_not_nan_l (x y : f32) : flt x y = true -> is_nan x = false.
Proof. destruct x; [reflexivity | reflexivity | discriminate | reflexivity]. Qed.

Lemma std_min_keeps_not_nan (a b : f32) :
  is_nan a = false -> is_nan (std_min a b) = false.
Proof.
  intros Ha. unfold std_min. destruct (flt b a) eqn:E; [| exact Ha].
  now apply flt_not_nan_l with a.
Qed.

Lemma std_min_le_first (a b : f32) :
  is_nan a = false -> fle (std_min a b) a = true.
Proof.
  intros Ha. unfold std_min. destruct (flt b a) eqn:E.
  - now apply flt_fle.
  - now apply fle_refl.
Qed.

End Float32.

(* ===================================================================== *)
(** ** VectorMath *)
(* ===================================================================== *)

Module VectorMath.

(** [vec3<T>] (and the older [float3]). *)
Record vec3 (A : Type) : Type := mkVec3 { vx : A; vy : A; vz : A }.
Arguments mkVec3 {A} vx vy vz.
Arguments vx {A} v.
Arguments vy {A} v.
Arguments vz {A} v.

End VectorMath.

(* ===================================================================== *)
(** ** Python method bodies *)
(* ===================================================================== *)

Module Py.

(** The Python exceptions that occur below, with their messages. *)
Inductive exn : Type :=
| AttributeError (msg : string)
| ValueError (msg : string)
| KeyError (msg : string)
| IndexError (msg : string)
| TypeError (msg : string).

Inductive outcome (A : Type) : Type :=
| Return (a : A)
| Raise (e : exn).
Arguments Return {A} a.
Arguments Raise {A} e.

(** A method body: it runs on the object and leaves it as it is at the
    moment the body returns or raises. *)
Definition M (St A : Type) : Type := St -> outcome A * St.

Definition ret {St A : Type} (a : A) : M St A := fun st => (Return a, st).

Definition raise {St A : Type} (e : exn) : M St A := fun st => (Raise e, st).

Definition bind {St A B : Type} (c : M St A) (k : A -> M St B) : M St B :=
  fun st =>
    match c st with
    | (Return a, st') => k a st'
    | (Raise e, st') => (Raise e, st')
    end.

Definition get {St : Type} : M St St := fun st => (Return st, st).

Definition put {St : Type} (st : St) : M St unit := fun _ => (Return tt, st).

(** [for x in xs: body(x)]. *)
Fixpoint for_each {St A : Type} (xs : list A) (body : A -> M St unit)
  : M St unit :=
  match xs with
  | [] => ret tt
  | x :: xs' => bind (body x) (fun _ => for_each xs' body)
  end.

Module Notations.
Notation "x <- c ;; k" := (bind c (fun x => k))
  (at level 61, c at next level, right associativity).
Notation "c ;;; k" := (bind c (fun _ => k))
  (at level 61, right associativity).
End Notations.

End Py.

(* ===================================================================== *)
(** ** freud.common: the [Compute] lifecycle guard *)
(* ===================================================================== *)

Module Common.
Import Py Py.Notations.

Section Compute.

(** The attributes a subclass adds. *)
Variable Attrs : Type.

Record Compute : Type := mkCompute {
  _called_compute : bool;
  attrs : Attrs
}.

Definition get_called_compute : M Compute bool :=
  fun self => (Return (_called_compute self), self).

Definition set_called_compute (b : bool) : M Compute unit :=
  fun self => (Return tt, mkCompute b (attrs self)).

(** [__cinit__]. *)
Definition cinit (a : Attrs) : Compute := mkCompute false a.

Definition not_computed : string :=
  "Property not computed. Call compute first.".

Section Decorators.

Variables Args Retval : Type.

(** [Compute._compute(func)]. *)
Definition _compute (func : Args -> M Compute Retval)
  : Args -> M Compute Retval :=
  fun args =>
    retval <- func args ;;
    set_called_compute true ;;;
    ret retval.

(** [Compute._computed_property(prop)]. *)
Definition _computed_property (prop : M Compute Retval) : M Compute Retval :=
  called <- get_called_compute ;;
  if negb called then raise (AttributeError not_computed) else prop.

(** [Compute._computed_method(meth)]. *)
Definition _computed_method (meth : Args -> M Compute Retval)
  : Args -> M Compute Retval :=
  fun args =>
    called <- get_called_compute ;;
    if negb called then raise (AttributeError not_computed) else meth args.

(** [Compute._reset(func)]; the wrapper returns [None]. *)
Definition _reset (func : Args -> M Compute Retval)
  : Args -> M Compute unit :=
  fun args =>
    set_called_compute false ;;;
    func args ;;;
    ret tt.

End Decorators.

(** A body that does not assign [_called_compute] itself. *)
Definition leaves_flag {A : Type} (c : M Compute A) : Prop :=
  forall self, _called_compute (snd (c self)) = _called_compute self.

(** An access that fails with the state error and changes nothing. *)
Definition fails_not_computed {A : Type} (c : M Compute A) (self : Compute)
  : Prop :=
  c self = (Raise (AttributeError not_computed), self).

(** *** The guard *)

Lemma computed_property_false {A : Type} (prop : M Compute A)
  (self : Compute) :
  _called_compute self = false ->
  fails_not_computed (_computed_property A prop) self.
Proof.
  intros H. unfold fails_not_computed, _computed_property, bind,
    get_called_compute. rewrite H. reflexivity.
Qed.

Lemma computed_property_true {A : Type} (prop : M Compute A)
  (self : Compute) :
  _called_compute self = true -> _computed_property A prop self = prop self.
Proof.
  intros H. unfold _computed_property, bind, get_called_compute.
  rewrite H. reflexivity.
Qed.

Lemma compute_returns {Args Retval : Type}
  (func : Args -> M Compute Retval) (args : Args) (self self' : Compute)
  (r : Retval) :
  _compute Args Retval func args self = (Return r, self') <->
  exists mid, func args self = (Return r, mid)
              /\ self' = mkCompute true (attrs mid).
Proof.
  unfold _compute, bind, set_called_compute, ret.
  destruct (func args self) as [[r0 | e] mid]; split.
  - intros [= <- <-]. exists mid. auto.
  - intros (mid' & [= <- <-] & ->). reflexivity.
  - discriminate.
  - intros (mid' & [=] & _).
Qed.

Lemma compute_raises {Args Retval : Type}
  (func : Args -> M Compute Retval) (args : Args) (self self' : Compute)
  (e : exn) :
  _compute Args Retval func args self = (Raise e, self') <->
  func args self = (Raise e, self').
Proof.
  unfold _compute, bind, set_called_compute, ret.
  destruct (func args self) as [[r0 | e0] mid]; split;
    try discriminate; auto.
Qed.

Lemma reset_clears {Args Retval : Type}
  (func : Args -> M Compute Retval) (args : Args) (self : Compute) :
  leaves_flag (func args) ->
  _called_compute (snd (_reset Args Retval func args self)) = false.
Proof.
  intros Hf. unfold _reset, bind, set_called_compute, ret.
  pose proof (Hf (mkCompute false (attrs self))) as H.
  destruct (func args (mkCompute false (attrs self))) as [[r | e] st'];
    exact H.
Qed.

(** C1. Reading a computed-only property fails with "Property not
    computed. Call compute first." whenever [_called_compute] is false:
    right after construction; a compute-decorated method that returns has
    run the wrapped function first and set the flag afterwards, so the
    read then goes through to the property; a compute-decorated method
    that raises sets nothing; and after a reset-decorated method (whose
    body does not assign the flag itself) the flag is false and the read
    fails again. *)
Theorem computed_property_guard
  (Args Retval Value : Type)
  (compute_body reset_body : Args -> M Compute Retval)
  (prop : M Compute Value) :
  (forall args, leaves_flag (reset_body args)) ->
  (forall self, _called_compute self = false ->
     fails_not_computed (_computed_property Value prop) self)
  /\ (forall a, fails_not_computed (_computed_property Value prop) (cinit a))
  /\ (forall args self r self',
        _compute Args Retval compute_body args self = (Return r, self') ->
        (exists mid, compute_body args self = (Return r, mid)
                     /\ self' = mkCompute true (attrs mid))
        /\ _called_compute self' = true
        /\ _computed_property Value prop self' = prop self')
  /\ (forall args self e self',
        _compute Args Retval compute_body args self = (Raise e, self') ->
        compute_body args self = (Raise e, self'))
  /\ (forall args self res self',
        _reset Args Retval reset_body args self = (res, self') ->
        _called_compute self' = false
        /\ fails_not_computed (_computed_property Value prop) self').
Proof.
  intros Hreset.
  split; [intros self; apply computed_property_false |].
  split; [intros a; now apply computed_property_false |].
  split; [| split].
  - intros args self r self' H.
    pose proof (proj1 (compute_returns _ _ _ _ _) H) as (mid & Hm & ->).
    split; [now exists mid |]. split; [reflexivity |].
    now apply computed_property_true.
  - intros args self e self' H. now apply compute_raises.
  - intros args self res self' H.
    assert (Hf : _called_compute self' = false).
    { pose proof (reset_clears reset_body args self (Hreset args)) as Hc.
      rewrite H in Hc. exact Hc. }
    split; [exact Hf | now apply computed_property_false].
Qed.

(** *** Methods behind the guard *)

Lemma computed_method_false {Args A : Type} (meth : Args -> M Compute A)
  (args : Args) (self : Compute) :
  _called_compute self = false ->
  fails_not_computed (_computed_method Args A meth args) self.
Proof.
  intros H. unfold fails_not_computed, _computed_method, bind,
    get_called_compute. rewrite H. reflexivity.
Qed.

Lemma computed_method_true {Args A : Type} (meth : Args -> M Compute A)
  (args : Args) (self : Compute) :
  _called_compute self = true ->
  _computed_method Args A meth args self = meth args self.
Proof.
  intros H. unfold _computed_method, bind, get_called_compute.
  rewrite H. reflexivity.
Qed.

(** X1. A compute-decorated call that raises sets nothing.  If the
    wrapped function does not assign the flag itself, the object is as
    accessible after the failed call as it was before: a method behind
    [_computed_method] of an object computed earlier still goes through,
    on whatever the failed call left in the object, and that of an object
    never computed still fails with "Property not computed. Call compute
    first.". *)
Theorem failed_compute_keeps_guard
  (Args Retval MArgs Value : Type)
  (compute_body : Args -> M Compute Retval)
  (meth : MArgs -> M Compute Value)
  (args : Args) (margs : MArgs) (self self' : Compute) (e : exn) :
  leaves_flag (compute_body args) ->
  _compute Args Retval compute_body args self = (Raise e, self') ->
  _called_compute self' = _called_compute self
  /\ (_called_compute self = true ->
      _computed_method MArgs Value meth margs self' = meth margs self')
  /\ (_called_compute self = false ->
      fails_not_computed (_computed_method MArgs Value meth margs) self').
Proof.
  intros Hf H. apply (proj1 (compute_raises _ _ _ _ _)) in H.
  assert (Hflag : _called_compute self' = _called_compute self).
  { pose proof (Hf self) as Hs. rewrite H in Hs. exact Hs. }
  split; [exact Hflag |]. split; intros Hc.
  - apply computed_method_true. congruence.
  - apply computed_method_false. congruence.
Qed.

(** X2. A method behind [_computed_method] follows the same lifecycle as
    a computed property: it fails with the state error on a new object,
    goes through to the wrapped method, with its arguments, after a
    compute-decorated call that returned, and fails again after a
    reset-decorated call. *)
Theorem computed_method_lifecycle
  (Args Retval MArgs Value : Type)
  (compute_body reset_body : Args -> M Compute Retval)
  (meth : MArgs -> M Compute Value) (margs : MArgs) :
  (forall args, leaves_flag (reset_body args)) ->
  (forall a,
     fails_not_computed (_computed_method MArgs Value meth margs) (cinit a))
  /\ (forall args self r self',
        _compute Args Retval compute_body args self = (Return r, self') ->
        _computed_method MArgs Value meth margs self' = meth margs self')
  /\ (forall args self res self',
        _reset Args Retval reset_body args self = (res, self') ->
        fails_not_computed (_computed_method MArgs Value meth margs) self').
Proof.
  intros Hreset.
  split; [intros a; now apply computed_method_false |]. split.
  - intros args self r self' H.
    apply (proj1 (compute_returns _ _ _ _ _)) in H as (mid & _ & ->).
    now apply computed_method_true.
  - intros args self res self' H. apply computed_method_false.
    pose proof (reset_clears reset_body args self (Hreset args)) as Hc.
    rewrite H in Hc. exact Hc.
Qed.

End Compute.

Arguments _called_compute {Attrs} c.
Arguments attrs {Attrs} c.
Arguments fails_not_computed {Attrs A} c self.
Arguments leaves_flag {Attrs A} c.

(** *** A compute class with one attribute *)

(** [compute(n)] stores [n] and returns [None]; the property reads it;
    [reset()] stores 0. *)
Definition store (n : Z) : M (Compute Z) unit :=
  fun self => (Return tt, mkCompute Z (_called_compute self) n).

Definition stored : M (Compute Z) Z :=
  fun self => (Return (attrs self), self).

Definition clear (_ : Z) : M (Compute Z) unit := store 0.

Lemma computed_property_guard_witness :
  let o0 := cinit Z 0 in
  let o1 := snd (_compute Z Z unit store 5 o0) in
  let o2 := snd (_reset Z Z unit clear 0 o1) in
  fails_not_computed (_computed_property Z Z stored) o0
  /\ _computed_property Z Z stored o1 = (Return 5, o1)
  /\ fails_not_computed (_computed_property Z Z stored) o2.
Proof.
  destruct (computed_property_guard Z Z unit Z store clear stored)
    as (_ & Hnew & Hcomp & _ & Hreset).
  - intros args self. reflexivity.
  - cbv zeta. split; [apply Hnew |]. split.
    + destruct (Hcomp 5 (cinit Z 0) tt (snd (_compute Z Z unit store 5
                                              (cinit Z 0))) eq_refl)
        as (_ & _ & ->). reflexivity.
    + exact (proj2 (Hreset 0 (snd (_compute Z Z unit store 5 (cinit Z 0)))
                      (Return tt) _ eq_refl)).
Defined.

(** A compute body that stores its argument and then fails, and a method
    that adds its argument to the stored number. *)
Definition store_and_fail (n : Z) : M (Compute Z) unit :=
  fun self => (Raise (ValueError "no neighbors"),
               mkCompute Z (_called_compute self) n).

Definition stored_plus (k : Z) : M (Compute Z) Z :=
  fun self => (Return (attrs self + k), self).

Lemma failed_compute_keeps_guard_witness :
  let o1 := snd (_compute Z Z unit store 5 (cinit Z 0)) in
  let o2 := snd (_compute Z Z unit store_and_fail 7 o1) in
  _called_compute o2 = true
  /\ _computed_method Z Z Z stored_plus 1 o2 = (Return 8, o2).
Proof.
  cbv zeta.
  destruct (failed_compute_keeps_guard Z Z unit Z Z store_and_fail
              stored_plus 7 1
              (snd (_compute Z Z unit store 5 (cinit Z 0)))
              (snd (_compute Z Z unit store_and_fail 7
                      (snd (_compute Z Z unit store 5 (cinit Z 0)))))
              (ValueError "no neighbors"))
    as (Hflag & Htrue & _).
  - intros self. reflexivity.
  - reflexivity.
  - split; [exact Hflag |].
    etransitivity; [apply Htrue; reflexivity | reflexivity].
Defined.

Lemma computed_method_lifecycle_witness :
  let o0 := cinit Z 0 in
  let o1 := snd (_compute Z Z unit store 5 o0) in
  let o2 := snd (_reset Z Z unit clear 0 o1) in
  fails_not_computed (_computed_method Z Z Z stored_plus 1) o0
  /\ _computed_method Z Z Z stored_plus 1 o1 = (Return 6, o1)
  /\ fails_not_computed (_computed_method Z Z Z stored_plus 1) o2.
Proof.
  destruct (computed_method_lifecycle Z Z unit Z Z store clear stored_plus 1)
    as (Hnew & Hcomp & Hreset).
  - intros args self. reflexivity.
  - cbv zeta. split; [apply Hnew |]. split.
    + etransitivity; [| reflexivity].
      exact (Hcomp 5 (cinit Z 0) tt
               (snd (_compute Z Z unit store 5 (cinit Z 0))) eq_refl).
    + exact (Hreset 0 (snd (_compute Z Z unit store 5 (cinit Z 0)))
               (Return tt) _ eq_refl).
Defined.

(** *** convert_array *)

Section ConvertArray.
Local Open Scope string_scope.

(** The objects [convert_array] is called on, the element types of NumPy
    and the elements of an array.  [np.asarray] and the conversion of the
    elements that [np.require(array, dtype=dtype, requirements=['C'])]
    makes ([None] for the element type leaves them as they are) are
    NumPy's: either can raise, [np.require] for one a [TypeError] on an
    element that is [None] and a [ValueError] on one that is a string
    where the element type is a floating-point one. *)
Variable Obj : Type.
Variable dtype : Type.
Variable Data : Type.

Record ndarray : Type := mkNdarray {
  arr_shape : list Z;
  arr_data : Data
}.

Variable np_asarray : Obj -> outcome ndarray.
Variable cast : option dtype -> Data -> outcome Data.

(** [np.require] keeps the shape and converts the elements. *)
Definition np_require (dt : option dtype) (a : ndarray) : outcome ndarray :=
  match cast dt (arr_data a) with
  | Return d => Return (mkNdarray (arr_shape a) d)
  | Raise e => Raise e
  end.

(** [str(n)] for an [int]. *)
Definition str_int (n : Z) : string := NilZero.string_of_int (Z.to_int n).

(** [sep.join(l)]. *)
Fixpoint join (sep : string) (l : list string) : string :=
  match l with
  | [] => ""
  | [s] => s
  | s :: l' => s ++ sep ++ join sep l'
  end.

(** [str(t)] for a tuple of [int]s. *)
Definition str_tuple (t : list Z) : string :=
  match t with
  | [] => "()"
  | [n] => "(" ++ str_int n ++ ",)"
  | _ => "(" ++ join ", " (map str_int t) ++ ")"
  end.

Definition shape_str (shape : list (option Z)) : string :=
  "(" ++ join ", " (map (fun i => match i with
                                  | Some n => str_int n
                                  | None => "..."
                                  end) shape) ++ ")".

(** The loop over [enumerate(shape)], from the index [i] on. *)
Fixpoint check_dims (return_arr : ndarray) (shape : list (option Z))
  (i : nat) (todo : list (option Z)) : outcome unit :=
  match todo with
  | [] => Return tt
  | None :: todo' => check_dims return_arr shape (S i) todo'
  | Some s :: todo' =>
      match nth_error (arr_shape return_arr) i with
      | None => Raise (IndexError "tuple index out of range")
      | Some d =>
          if negb (d =? s)%Z
          then Raise (ValueError ("array.shape= "
                                  ++ str_tuple (arr_shape return_arr)
                                  ++ "; expected shape = "
                                  ++ shape_str shape))
          else check_dims return_arr shape (S i) todo'
      end
  end.

Definition convert_array (array : Obj) (shape : option (list (option Z)))
  (dt : option dtype) : outcome ndarray :=
  match np_asarray array with
  | Raise e => Raise e
  | Return array =>
      match np_require dt array with
      | Raise e => Raise e
      | Return return_arr =>
          match shape with
          | None => Return return_arr
          | Some sh =>
              let ndim := Z.of_nat (List.length (arr_shape array)) in
              if negb (ndim =? Z.of_nat (List.length sh))%Z
              then Raise (ValueError
                            ("array.ndim = "
                             ++ str_int (Z.of_nat (List.length
                                                     (arr_shape return_arr)))
                             ++ "; expected ndim = "
                             ++ str_int (Z.of_nat (List.length sh))))
              else
                match check_dims return_arr sh 0 sh with
                | Return _ => Return return_arr
                | Raise e => Raise e
                end
          end
      end
  end.

(** The two conversions, one after the other. *)
Definition conversion (array : Obj) (dt : option dtype) : outcome ndarray :=
  match np_asarray array with
  | Raise e => Raise e
  | Return a => np_require dt a
  end.

(** An expected extent that the extent [d] meets: [None] or [d] itself. *)
Definition dim_ok (d : Z) (s : option Z) : Prop := s = None \/ s = Some d.

(** The shape asked for fits the array: none is asked for, or it has one
    entry for every dimension, and each is [None] or the extent. *)
Definition fits (a : ndarray) (shape : option (list (option Z))) : Prop :=
  match shape with
  | None => True
  | Some sh => Forall2 dim_ok (arr_shape a) sh
  end.

Lemma check_dims_spec (ra : ndarray) (shape : list (option Z))
  (todo : list (option Z)) (i : nat) (dims : list Z) :
  skipn i (arr_shape ra) = dims ->
  List.length dims = List.length todo ->
  (check_dims ra shape i todo = Return tt /\ Forall2 dim_ok dims todo)
  \/ ((exists msg, check_dims ra shape i todo = Raise (ValueError msg))
      /\ ~ Forall2 dim_ok dims todo).
Proof.
  revert i dims. induction todo as [| s todo IH]; intros i dims Hskip Hlen.
  - destruct dims; [| discriminate]. left. split; [reflexivity | constructor].
  - destruct dims as [| d dims]; [discriminate |].
    assert (Hnth : nth_error (arr_shape ra) i = Some d).
    { rewrite <- (Nat.add_0_r i), <- nth_error_skipn, Hskip. reflexivity. }
    assert (Hskip' : skipn (S i) (arr_shape ra) = dims).
    { change (S i) with (1 + i)%nat. rewrite <- skipn_skipn, Hskip.
      reflexivity. }
    injection Hlen as Hlen.
    destruct (IH (S i) dims Hskip' Hlen) as [[E F] | [[msg E] F]].
    + destruct s as [s |]; cbn [check_dims]; [rewrite Hnth |].
      * destruct (Z.eqb_spec d s) as [-> | Hne]; cbn [negb].
        -- left. split; [exact E |]. constructor; [now right | exact F].
        -- right. split; [eexists; reflexivity |].
           intros H. inversion H as [| ? ? ? ? [Hd | Hd] _]; subst;
             [discriminate | congruence].
      * left. split; [exact E |]. constructor; [now left | exact F].
    + right. split.
      * destruct s as [s |]; cbn [check_dims]; [rewrite Hnth |].
        -- destruct (negb (d =? s)%Z); eexists; [reflexivity | exact E].
        -- exists msg. exact E.
      * intros H. inversion H; subst. now apply F.
Qed.

Lemma np_require_shape (dt : option dtype) (a ra : ndarray) :
  np_require dt a = Return ra -> arr_shape ra = arr_shape a.
Proof.
  unfold np_require. destruct (cast dt (arr_data a)); [| discriminate].
  intros [= <-]. reflexivity.
Qed.

(** X3. [convert_array] first has NumPy convert its argument, with
    [np.asarray] and then [np.require]; an exception either of them
    raises, a [TypeError] or a [ValueError] for elements that cannot be
    converted among them, is what [convert_array] raises, whatever the
    shape asked for.  Where the conversion returns, [convert_array]
    returns exactly when no shape is asked for, or the array has as many
    dimensions as the shape has entries and every entry is [None] or the
    extent of the array along that dimension; what it returns is the
    array [np.require] made, of the shape [np.asarray] found.  In every
    other case it raises [ValueError]. *)
Theorem convert_array_checks (array : Obj)
  (shape : option (list (option Z))) (dt : option dtype) :
  (forall e, conversion array dt = Raise e ->
             convert_array array shape dt = Raise e)
  /\ (forall a ra,
        np_asarray array = Return a -> np_require dt a = Return ra ->
        conversion array dt = Return ra
        /\ arr_shape ra = arr_shape a
        /\ (forall r, convert_array array shape dt = Return r <->
                      fits a shape /\ r = ra)
        /\ (~ fits a shape -> exists msg,
              convert_array array shape dt = Raise (ValueError msg))).
Proof.
  unfold conversion, convert_array. split.
  - intros e. destruct (np_asarray array) as [a | e0]; [| easy].
    intros ->. reflexivity.
  - intros a ra -> Hra. pose proof (np_require_shape dt a ra Hra) as Hsh.
    rewrite Hra. split; [reflexivity |]. split; [exact Hsh |].
    unfold fits. destruct shape as [sh |].
    2: { split.
         - intros r. split; [intros [= <-]; auto | intros [_ ->]; reflexivity].
         - intros H. now elim H. }
    destruct (Z.eqb_spec (Z.of_nat (List.length (arr_shape a)))
                         (Z.of_nat (List.length sh))) as [Hlen | Hlen];
      cbn [negb].
    + apply Nat2Z.inj in Hlen.
      destruct (check_dims_spec ra sh sh 0 (arr_shape a)) as
        [[E F] | [[msg E] F]]; [now rewrite Hsh | exact Hlen | |];
        rewrite E.
      * split.
        -- intros r. split; [intros [= <-]; auto
                            | intros [_ ->]; reflexivity].
        -- intros H. now elim H.
      * split.
        -- intros r. split; [discriminate | intros [H _]; now elim F].
        -- intros _. now exists msg.
    + assert (F : ~ Forall2 dim_ok (arr_shape a) sh).
      { intros H. apply Forall2_length in H. apply Hlen. now rewrite H. }
      split.
      * intros r. split; [discriminate | intros [H _]; now elim F].
      * intros _. eexists. reflexivity.
Qed.

End ConvertArray.

(** Arrays whose elements are numbers or [None], and a conversion to a
    floating-point element type that raises on [None]. *)
Definition asarray_id (a : ndarray (list (option Z)))
  : outcome (ndarray (list (option Z))) := Return a.

Definition cast_numbers (dt : option unit) (d : list (option Z))
  : outcome (list (option Z)) :=
  match dt with
  | None => Return d
  | Some _ =>
      if forallb (fun x => match x with Some _ => true | None => false end) d
      then Return d
      else Raise (TypeError "float() argument must be a number")
  end.

(** The two messages, for an array of shape (5, 3) checked against
    [(None, 4)] and against [(3,)], and for one of shape (5) against
    [(3,)]; and an array holding [None] checked against its own shape, on
    which the conversion raises before the shape is looked at. *)
Example convert_array_messages :
  let convert := convert_array _ unit _ asarray_id cast_numbers in
  convert (mkNdarray _ [5; 3] []) (Some [None; Some 4]) (Some tt)
  = Raise (ValueError "array.shape= (5, 3); expected shape = (..., 4)")
  /\ convert (mkNdarray _ [5; 3] []) (Some [Some 3]) (Some tt)
     = Raise (ValueError "array.ndim = 2; expected ndim = 1")
  /\ convert (mkNdarray _ [5] []) (Some [Some 3]) (Some tt)
     = Raise (ValueError "array.shape= (5,); expected shape = (3)")
  /\ convert (mkNdarray _ [1] [None]) (Some [Some 1]) (Some tt)
     = Raise (TypeError "float() argument must be a number")
  /\ convert (mkNdarray _ [1] [None]) (Some [Some 1]) None
     = Return (mkNdarray _ [1] [None]).
Proof. repeat split. Qed.

Lemma convert_array_checks_witness :
  let a := mkNdarray (list (option Z)) [2] [Some 1; Some 2] in
  convert_array _ unit _ asarray_id cast_numbers a (Some [Some 2]) (Some tt)
  = Return a
  /\ convert_array _ unit _ asarray_id cast_numbers
                   (mkNdarray _ [1] [None]) (Some [Some 1]) (Some tt)
     = Raise (TypeError "float() argument must be a number").
Proof.
  cbv zeta. split.
  - destruct (convert_array_checks _ unit _ asarray_id cast_numbers
                (mkNdarray _ [2] [Some 1; Some 2]) (Some [Some 2]) (Some tt))
      as (_ & H).
    destruct (H (mkNdarray _ [2] [Some 1; Some 2])
                (mkNdarray _ [2] [Some 1; Some 2]) eq_refl eq_refl)
      as (_ & _ & Hret & _).
    apply Hret. split; [| reflexivity].
    cbn. constructor; [now right | constructor].
  - apply (convert_array_checks _ unit _ asarray_id cast_numbers
             (mkNdarray _ [1] [None]) (Some [Some 1]) (Some tt)).
    reflexivity.
Defined.

End Common.

(* ===================================================================== *)
(** ** StaticStructureFactorDebye *)
(* ===================================================================== *)

Module Debye.
Import Float32 VectorMath.

Inductive exn : Type :=
| invalid_argument (what : string).

Inductive result (A : Type) : Type :=
| Ok (a : A)
| Throw (e : exn).
Arguments Ok {A} a.
Arguments Throw {A} e.

(** [util::RegularAxis(bins, k_min, k_max)]; only its parameters are kept. *)
Record RegularAxis : Type := mkAxis {
  axis_bins : Z;
  axis_min : f32;
  axis_max : f32
}.

(** [box::Box], as far as [accumulate] reads it: [getL()] and [is2D()]. *)
Record Box : Type := mkBox {
  getL : vec3 f32;
  is2D : bool
}.

(** Modelled from the spec: [freud::constants::TWO_PI] of utils.h, 2 pi
    as a [float]: the binary32 number nearest to it,
    13176795 * 2^-21 = 6.2831855. *)
Definition TWO_PI : f32 := S754_finite false 13176795 (-21).

Section WithHistogram.

(** The accumulated contents of a histogram: [S_kHistogram], its
    thread-local copies and the managed array of S(k), which Histogram.h
    and ManagedArray.h declare. *)
Variable Hist : Type.
Variable hist_create : RegularAxis -> Hist.

(** Default member initialisers of the class declaration. *)
Variable frame_counter0 : Z.
Variable reduce0 : bool.

Record StaticStructureFactorDebye : Type := mkDebye {
  m_axis : RegularAxis;
  m_local_histograms : Hist;
  m_min_valid_k : f32;
  m_frame_counter : Z;
  m_reduce : bool
}.

Definition msg_bins : string :=
  "StaticStructureFactorDebye requires a nonzero number of bins.".
Definition msg_k_max : string :=
  "StaticStructureFactorDebye requires k_max to be positive.".
Definition msg_k_min : string :=
  "StaticStructureFactorDebye requires k_min to be non-negative.".
Definition msg_k_order : string :=
  "StaticStructureFactorDebye requires that k_max must be greater than k_min.".

(** The constructor; [bins] is an [unsigned int]. *)
Definition new_debye (bins : Z) (k_max k_min : f32)
  : result StaticStructureFactorDebye :=
  if bins =? 0 then Throw (invalid_argument msg_bins)
  else if fle k_max fzero then Throw (invalid_argument msg_k_max)
  else if flt k_min fzero then Throw (invalid_argument msg_k_min)
  else if fle k_max k_min then Throw (invalid_argument msg_k_order)
  else
    let axes := mkAxis bins k_min k_max in
    Ok {| m_axis := axes;
          m_local_histograms := hist_create axes;
          m_min_valid_k := finfinity;
          m_frame_counter := frame_counter0;
          m_reduce := reduce0 |}.

(** The neighbor query handed to [accumulate]: its box and its points. *)
Record NeighborQuery : Type := mkNQ {
  getBox : Box;
  getPoints : list (vec3 f32)
}.

(** The loop over the k bins of [accumulate]: all pairwise distances
    ([box.computeAllDistances]), then for every bin centre the sum of
    [util::sinc(k * distance)] divided by [n_total], added to the
    thread-local histograms; Box.h, Histogram.h and utils.h define the
    parts. *)
Variable accumulate_bins :
  NeighborQuery -> list (vec3 f32) -> Z -> RegularAxis -> Hist -> Hist.

Definition min_box_length (box : Box) : f32 :=
  let box_L := getL box in
  if is2D box then std_min (vx box_L) (vy box_L)
  else std_min (vx box_L) (std_min (vy box_L) (vz box_L)).

Definition r_max_of (box : Box) : f32 :=
  nextafter_zero (fmul fhalf (min_box_length box)).

(** The arguments of one call to [accumulate]. *)
Record Frame : Type := mkFrame {
  neighbor_query : NeighborQuery;
  query_points : list (vec3 f32);
  n_total : Z
}.

Definition accumulate (self : StaticStructureFactorDebye) (f : Frame)
  : StaticStructureFactorDebye :=
  let box := getBox (neighbor_query f) in
  let r_max := r_max_of box in
  {| m_axis := m_axis self;
     m_local_histograms :=
       accumulate_bins (neighbor_query f) (query_points f) (n_total f)
                       (m_axis self) (m_local_histograms self);
     m_min_valid_k := std_min (m_min_valid_k self) (fdiv TWO_PI r_max);
     m_frame_counter := (m_frame_counter self + 1) mod 2 ^ 32;
     m_reduce := true |}.

(** Successive calls, one per frame. *)
Definition accumulate_all (self : StaticStructureFactorDebye)
  (frames : list Frame) : StaticStructureFactorDebye :=
  fold_left accumulate frames self.

(** The value [2 pi / r_max] of one frame. *)
Definition frame_k (f : Frame) : f32 :=
  fdiv TWO_PI (r_max_of (getBox (neighbor_query f))).

(** Side lengths the box invariant admits: positive finite numbers. *)
Definition box_lengths_ok (box : Box) : bool :=
  pos_finite (vx (getL box)) && pos_finite (vy (getL box))
  && pos_finite (vz (getL box)).

(** [L] is the smallest side the box has: of the two in-plane lengths in
    2D, of all three in 3D. *)
Definition smallest_side (box : Box) (L : f32) : Prop :=
  let box_L := getL box in
  if is2D box
  then (L = vx box_L \/ L = vy box_L)
       /\ fle L (vx box_L) = true /\ fle L (vy box_L) = true
  else (L = vx box_L \/ L = vy box_L \/ L = vz box_L)
       /\ fle L (vx box_L) = true /\ fle L (vy box_L) = true
       /\ fle L (vz box_L) = true.

(** The running minimum that [std::min] keeps, from [start]. *)
Definition running_min (start : f32) (ks : list f32) : f32 :=
  fold_left std_min ks start.

(** The four conditions the constructor rejects, as the C++ comparisons
    decide them. *)
Definition rejected (bins : Z) (k_max k_min : f32) : Prop :=
  bins = 0 \/ fle k_max fzero = true \/ flt k_min fzero = true
  \/ fle k_max k_min = true.

Definition throws {A : Type} (r : result A) : Prop :=
  exists what, r = Throw (invalid_argument what).

Definition constructed {A : Type} (r : result A) : Prop :=
  exists o, r = Ok o.

Lemma new_debye_cases (bins : Z) (k_max k_min : f32) :
  (bins = 0 /\ new_debye bins k_max k_min = Throw (invalid_argument msg_bins))
  \/ (bins <> 0 /\ fle k_max fzero = true
      /\ new_debye bins k_max k_min = Throw (invalid_argument msg_k_max))
  \/ (bins <> 0 /\ fle k_max fzero = false /\ flt k_min fzero = true
      /\ new_debye bins k_max k_min = Throw (invalid_argument msg_k_min))
  \/ (bins <> 0 /\ fle k_max fzero = false /\ flt k_min fzero = false
      /\ fle k_max k_min = true
      /\ new_debye bins k_max k_min = Throw (invalid_argument msg_k_order))
  \/ (bins <> 0 /\ fle k_max fzero = false /\ flt k_min fzero = false
      /\ fle k_max k_min = false
      /\ constructed (new_debye bins k_max k_min)).
Proof.
  unfold new_debye, constructed.
  destruct (Z.eqb_spec bins 0) as [Hb | Hb]; [now left |].
  destruct (fle k_max fzero) eqn:H1; [right; left; auto |].
  destruct (flt k_min fzero) eqn:H2; [right; right; left; auto |].
  destruct (fle k_max k_min) eqn:H3; [right; right; right; left; auto |].
  right; right; right; right. repeat split; auto. eexists; reflexivity.
Qed.

(** C2. The constructor throws [std::invalid_argument] exactly when
    [bins = 0], or [k_max <= 0], or [k_min < 0], or [k_max <= k_min];
    the message is the one of the first violated condition in that order,
    each of the four conditions alone is enough to fail, and a failing call
    yields no object. *)
Theorem new_debye_validation (bins : Z) (k_max k_min : f32) :
  let r := new_debye bins k_max k_min in
  (throws r <-> rejected bins k_max k_min)
  /\ (constructed r <-> ~ rejected bins k_max k_min)
  /\ (throws r <-> ~ constructed r)
  /\ (r = Throw (invalid_argument msg_bins) <-> bins = 0)
  /\ (r = Throw (invalid_argument msg_k_max) <->
      bins <> 0 /\ fle k_max fzero = true)
  /\ (r = Throw (invalid_argument msg_k_min) <->
      bins <> 0 /\ fle k_max fzero = false /\ flt k_min fzero = true)
  /\ (r = Throw (invalid_argument msg_k_order) <->
      bins <> 0 /\ fle k_max fzero = false /\ flt k_min fzero = false
      /\ fle k_max k_min = true).
Proof.
  cbv zeta. unfold throws, rejected.
  destruct (new_debye_cases bins k_max k_min)
    as [(Hb & E) | [(Hb & H1 & E) | [(Hb & H1 & H2 & E)
       | [(Hb & H1 & H2 & H3 & E) | (Hb & H1 & H2 & H3 & (o & E))]]]];
    rewrite E; unfold constructed;
    repeat split; intros;
    repeat match goal with
    | H : exists _, _ |- _ => destruct H
    | H : _ /\ _ |- _ => destruct H
    | H : _ \/ _ |- _ => destruct H
    | H : ~ _ |- False => apply H
    | H : Throw _ = Throw _ |- _ => inversion H; clear H
    | H : Ok _ = Throw _ |- _ => discriminate H
    | H : Throw _ = Ok _ |- _ => discriminate H
    | |- ~ _ => intro
    end;
    try congruence; try discriminate; eauto 6;
    try solve [exfalso; intuition (eauto; congruence)].
Qed.

(** *** [accumulate] *)

Lemma min_box_length_smallest (box : Box) :
  box_lengths_ok box = true ->
  smallest_side box (min_box_length box)
  /\ pos_finite (min_box_length box) = true.
Proof.
  unfold box_lengths_ok, smallest_side, min_box_length.
  rewrite !andb_true_iff. intros [[Hx Hy] Hz].
  pose proof (pos_finite_not_nan _ Hx) as Nx.
  pose proof (pos_finite_not_nan _ Hy) as Ny.
  pose proof (pos_finite_not_nan _ Hz) as Nz.
  cbv zeta. destruct (is2D box).
  - split.
    + split; [apply std_min_cases |].
      split; [now apply std_min_le_l | now apply std_min_le_r].
    + destruct (std_min_cases (vx (getL box)) (vy (getL box))) as [-> | ->];
        assumption.
  - pose proof (std_min_not_nan _ _ Ny Nz) as Nyz.
    split.
    + split.
      * destruct (std_min_cases (vx (getL box))
                    (std_min (vy (getL box)) (vz (getL box)))) as [-> | ->];
          [now left |].
        destruct (std_min_cases (vy (getL box)) (vz (getL box)))
          as [-> | ->]; auto.
      * split; [now apply std_min_le_l |].
        split; (eapply fle_trans; [now apply std_min_le_r |]);
          [now apply std_min_le_l | now apply std_min_le_r].
    + destruct (std_min_cases (vx (getL box))
                  (std_min (vy (getL box)) (vz (getL box)))) as [-> | ->];
        [assumption |].
      destruct (std_min_cases (vy (getL box)) (vz (getL box)))
        as [-> | ->]; assumption.
Qed.

Lemma frame_k_not_nan (f : Frame) :
  box_lengths_ok (getBox (neighbor_query f)) = true ->
  is_nan (frame_k f) = false.
Proof.
  intros Hok. unfold frame_k, r_max_of, TWO_PI.
  apply fdiv_finite_not_nan, nextafter_zero_not_nan, fmul_half_not_nan.
  apply pos_finite_not_nan. now apply min_box_length_smallest.
Qed.

Lemma accumulate_all_min_valid_k (frames : list Frame)
  (self : StaticStructureFactorDebye) :
  m_min_valid_k (accumulate_all self frames)
  = running_min (m_min_valid_k self) (map frame_k frames).
Proof.
  unfold accumulate_all, running_min. revert self.
  induction frames as [| f frames IH]; intros self; [reflexivity |].
  cbn [fold_left map]. rewrite IH. reflexivity.
Qed.

Lemma running_min_not_nan (ks : list f32) (start : f32) :
  is_nan start = false -> (forall k, In k ks -> is_nan k = false) ->
  is_nan (running_min start ks) = false.
Proof.
  unfold running_min. revert start.
  induction ks as [| k ks IH]; intros start Hs Hks; [exact Hs |].
  cbn [fold_left]. apply IH.
  - apply std_min_not_nan; [exact Hs | apply Hks; now left].
  - intros k' Hk'. apply Hks. now right.
Qed.

Lemma running_min_le_start (ks : list f32) (start : f32) :
  is_nan start = false -> (forall k, In k ks -> is_nan k = false) ->
  fle (running_min start ks) start = true.
Proof.
  unfold running_min. revert start.
  induction ks as [| k ks IH]; intros start Hs Hks.
  - now apply fle_refl.
  - cbn [fold_left].
    assert (Hk : is_nan k = false) by (apply Hks; now left).
    eapply fle_trans.
    + apply IH; [now apply std_min_not_nan |].
      intros k' Hk'. apply Hks. now right.
    + now apply std_min_le_l.
Qed.

Lemma running_min_lower_bound (ks : list f32) (start : f32) :
  is_nan start = false -> (forall k, In k ks -> is_nan k = false) ->
  forall k, In k ks -> fle (running_min start ks) k = true.
Proof.
  revert start.
  induction ks as [| k0 ks IH]; intros start Hs Hks k Hin; [destruct Hin |].
  assert (Hk0 : is_nan k0 = false) by (apply Hks; now left).
  assert (Hks' : forall k', In k' ks -> is_nan k' = false)
    by (intros k' Hk'; apply Hks; now right).
  change (running_min start (k0 :: ks))
    with (running_min (std_min start k0) ks).
  destruct Hin as [<- | Hin].
  - eapply fle_trans.
    + apply running_min_le_start; [now apply std_min_not_nan | exact Hks'].
    + now apply std_min_le_r.
  - apply IH; [now apply std_min_not_nan | exact Hks' | exact Hin].
Qed.

Lemma running_min_attained (ks : list f32) (start : f32) :
  running_min start ks = start \/ In (running_min start ks) ks.
Proof.
  revert start. induction ks as [| k ks IH]; intros start; [now left |].
  change (running_min start (k :: ks))
    with (running_min (std_min start k) ks).
  destruct (IH (std_min start k)) as [E | Hin].
  - rewrite E. destruct (std_min_cases start k) as [-> | ->];
      [now left | right; now left].
  - right; now right.
Qed.

(** C3, as amended.  On a freshly constructed object and frames whose box
    sides are positive finite numbers, every call to [accumulate] takes
    for [r_max] the largest binary32 number strictly below
    [0.5f * L], for [L] the smallest side (the smaller in-plane side in
    2D, the smallest of the three in 3D); the product is exactly [L / 2]
    for a normal [L] from 2^-125 on, and rounds to zero, which [r_max]
    then is, for the one side 2^-149.  The tracked value is the minimum
    over the frames of [TWO_PI / r_max]: the running [std::min] from
    infinity, below every frame's value and attained by one of them. *)
Theorem accumulate_tracks_min_valid_k
  (bins : Z) (k_max k_min : f32) (self : StaticStructureFactorDebye)
  (frames : list Frame) :
  new_debye bins k_max k_min = Ok self ->
  (forall f, In f frames ->
             box_lengths_ok (getBox (neighbor_query f)) = true) ->
  (forall f, In f frames ->
     let box := getBox (neighbor_query f) in
     let L := min_box_length box in
     smallest_side box L
     /\ (normal_pos L = true -> fmul fhalf L = exact_half L)
     /\ valid (r_max_of box) = true
     /\ (L = min_subnormal -> r_max_of box = fzero)
     /\ (L <> min_subnormal ->
         flt (r_max_of box) (fmul fhalf L) = true
         /\ (forall y, valid y = true -> flt y (fmul fhalf L) = true ->
                       fle y (r_max_of box) = true)))
  /\ m_min_valid_k (accumulate_all self frames)
     = running_min finfinity (map frame_k frames)
  /\ (forall f, In f frames ->
        fle (m_min_valid_k (accumulate_all self frames)) (frame_k f) = true)
  /\ (frames <> [] ->
      exists f, In f frames
                /\ m_min_valid_k (accumulate_all self frames) = frame_k f).
Proof.
  intros Hnew Hok.
  assert (Hinf : m_min_valid_k self = finfinity).
  { unfold new_debye in Hnew.
    destruct (bins =? 0); [discriminate |].
    destruct (fle k_max fzero); [discriminate |].
    destruct (flt k_min fzero); [discriminate |].
    destruct (fle k_max k_min); [discriminate |].
    injection Hnew as <-. reflexivity. }
  assert (Hks : forall k, In k (map frame_k frames) -> is_nan k = false).
  { intros k (f & <- & Hf)%in_map_iff. now apply frame_k_not_nan, Hok. }
  rewrite accumulate_all_min_valid_k, Hinf.
  split; [| split; [reflexivity | split]].
  - intros f Hf box L.
    destruct (min_box_length_smallest box (Hok f Hf)) as [Hs Hn].
    fold L in Hn.
    destruct (pos_finite_half L Hn) as (Hv & Hcases).
    split; [exact Hs |].
    split; [intros HL; now apply normal_pos_half |].
    unfold r_max_of. fold L.
    split; [now apply nextafter_zero_valid |].
    destruct Hcases as [[E0 Eh] | [Hne Hp]].
    + split; [intros _; now rewrite Eh | intros Hne; now elim Hne].
    + split; [intros E0; now elim Hne |].
      intros _. now apply nextafter_zero_largest_below.
  - intros f Hf. apply running_min_lower_bound; [reflexivity | exact Hks |].
    now apply in_map.
  - intros Hne.
    destruct (running_min_attained (map frame_k frames) finfinity)
      as [E | Hin].
    + destruct frames as [| f frames']; [congruence |].
      exists f. split; [now left |]. rewrite E. symmetry.
      apply fle_infinity_inv. rewrite <- E.
      apply running_min_lower_bound; [reflexivity | exact Hks | now left].
    + apply in_map_iff in Hin as (f & E & Hf). exists f. now split.
Qed.

(** *** What [accumulate] keeps, whatever the boxes are *)

Lemma running_min_keeps_not_nan (ks : list f32) (start : f32) :
  is_nan start = false -> is_nan (running_min start ks) = false.
Proof.
  unfold running_min. revert start.
  induction ks as [| k ks IH]; intros start Hs; [exact Hs |].
  cbn [fold_left]. apply IH. now apply std_min_keeps_not_nan.
Qed.

Lemma running_min_below_start (ks : list f32) (start : f32) :
  is_nan start = false -> fle (running_min start ks) start = true.
Proof.
  unfold running_min. revert start.
  induction ks as [| k ks IH]; intros start Hs.
  - now apply fle_refl.
  - cbn [fold_left]. eapply fle_trans.
    + apply IH. now apply std_min_keeps_not_nan.
    + now apply std_min_le_first.
Qed.

Lemma accumulate_all_app (self : StaticStructureFactorDebye)
  (frames more : list Frame) :
  accumulate_all self (frames ++ more)
  = accumulate_all (accumulate_all self frames) more.
Proof. unfold accumulate_all. apply fold_left_app. Qed.

(** X4. Whatever boxes the frames bring (sides that are zero, negative,
    infinite or NaN included), [m_min_valid_k] is never a NaN once it is
    not one, as after construction, and further calls to [accumulate]
    never raise it. *)
Theorem min_valid_k_never_nan_never_grows
  (self : StaticStructureFactorDebye) (frames more : list Frame) :
  is_nan (m_min_valid_k self) = false ->
  is_nan (m_min_valid_k (accumulate_all self frames)) = false
  /\ fle (m_min_valid_k (accumulate_all self (frames ++ more)))
         (m_min_valid_k (accumulate_all self frames)) = true.
Proof.
  intros Hs.
  assert (H1 : is_nan (m_min_valid_k (accumulate_all self frames)) = false).
  { rewrite accumulate_all_min_valid_k. now apply running_min_keeps_not_nan. }
  split; [exact H1 |].
  rewrite accumulate_all_app, (accumulate_all_min_valid_k more).
  now apply running_min_below_start.
Qed.

(** X5. [accumulate] counts its calls in [m_frame_counter], an
    [unsigned int] that wraps at 2^32, marks the object for reduction and
    leaves the axis of the histogram as constructed. *)
Theorem accumulate_all_counts_frames
  (self : StaticStructureFactorDebye) (frames : list Frame) :
  0 <= m_frame_counter self < 2 ^ 32 ->
  m_frame_counter (accumulate_all self frames)
  = (m_frame_counter self + Z.of_nat (List.length frames)) mod 2 ^ 32
  /\ m_axis (accumulate_all self frames) = m_axis self
  /\ (frames <> [] -> m_reduce (accumulate_all self frames) = true).
Proof.
  intros Hc.
  assert (Hgen : forall fs s,
            m_frame_counter (accumulate_all s fs) mod 2 ^ 32
            = (m_frame_counter s + Z.of_nat (List.length fs)) mod 2 ^ 32
            /\ m_axis (accumulate_all s fs) = m_axis s
            /\ (fs <> [] ->
                m_reduce (accumulate_all s fs) = true
                /\ m_frame_counter (accumulate_all s fs) mod 2 ^ 32
                   = m_frame_counter (accumulate_all s fs))).
  { induction fs as [| f fs IH]; intros s.
    - cbn [accumulate_all fold_left List.length Z.of_nat].
      rewrite Z.add_0_r.
      split; [reflexivity | split; [reflexivity | intros Hne; now elim Hne]].
    - change (accumulate_all s (f :: fs))
        with (accumulate_all (accumulate s f) fs).
      destruct (IH (accumulate s f)) as (Hn & Ha & Hr).
      cbn [accumulate m_frame_counter m_axis] in Hn, Ha.
      rewrite Zplus_mod_idemp_l in Hn.
      split; [| split; [exact Ha |]].
      + rewrite Hn. f_equal. cbn [List.length]. lia.
      + intros _. destruct fs as [| f' fs'].
        * cbn [accumulate_all fold_left accumulate m_reduce m_frame_counter].
          split; [reflexivity |]. apply Z.mod_mod. lia.
        * apply Hr. discriminate. }
  destruct (Hgen frames self) as (Hn & Ha & Hr).
  split; [| split; [exact Ha | intros Hne; now apply Hr]].
  destruct frames as [| f fs].
  - cbn [accumulate_all fold_left List.length Z.of_nat].
    rewrite Z.add_0_r, Z.mod_small; [reflexivity | exact Hc].
  - rewrite <- Hn. symmetry. apply Hr. discriminate.
Qed.

End WithHistogram.

(** *** A cubic box of side 2 *)

Definition box2 : Box := mkBox (mkVec3 ftwo ftwo ftwo) false.

Definition frame2 : Frame :=
  mkFrame (mkNQ box2 [mkVec3 fzero fzero fzero])
          [mkVec3 fzero fzero fzero] 1.

(** A flat box of sides 4 and 1 (the depth is not looked at). *)
Definition box41 : Box :=
  mkBox (mkVec3 (S754_finite false 8388608 (-21)) fone fhalf) true.

Definition frame41 : Frame :=
  mkFrame (mkNQ box41 [mkVec3 fzero fzero fzero])
          [mkVec3 fzero fzero fzero] 1.

(** An instance without histogram contents. *)
Definition debye0 : StaticStructureFactorDebye unit :=
  mkDebye unit (mkAxis 10 fzero ftwo) tt finfinity 0 true.

(** [0.5 * (4 pi / L)], with [4 pi] as [2 * TWO_PI]. *)
Definition half_of_four_pi_over (L : f32) : f32 :=
  fmul fhalf (fdiv (fmul ftwo TWO_PI) L).

Lemma accumulate_tracks_min_valid_k_witness :
  let frames := [frame2; frame41] in
  let final :=
    accumulate_all unit (fun _ _ _ _ h => h) debye0 frames in
  m_min_valid_k unit final = running_min finfinity (map frame_k frames)
  /\ m_min_valid_k unit final = S754_finite false 13176796 (-21).
Proof.
  cbv zeta.
  destruct (accumulate_tracks_min_valid_k unit (fun _ => tt) 0 true
              (fun _ _ _ _ h => h) 10 ftwo fzero debye0 [frame2; frame41]
              eq_refl)
    as (_ & Hmin & _).
  - intros f [<- | [<- | []]]; reflexivity.
  - split; [exact Hmin |]. vm_compute. reflexivity.
Defined.

(** A cubic box of the smallest side there is. *)
Definition box_tiny : Box :=
  mkBox (mkVec3 min_subnormal min_subnormal min_subnormal) false.

(** After one frame in a cubic box of side [L = 2] the tracked value is
    [TWO_PI / r_max = 6.2831860], one unit in the last place above
    [4 pi / L]; half of [4 pi / L] is 3.1415927.  For the side 2^-149 the
    product [0.5f * L] is zero and so is [r_max], which is then not below
    it. *)
Lemma min_valid_k_is_not_half_of_four_pi_over_L :
  let final := accumulate_all unit (fun _ _ _ _ h => h) debye0 [frame2] in
  smallest_side box2 ftwo
  /\ m_min_valid_k unit final = frame_k frame2
  /\ half_of_four_pi_over ftwo = S754_finite false 13176795 (-22)
  /\ m_min_valid_k unit final <> half_of_four_pi_over ftwo
  /\ flt (half_of_four_pi_over ftwo) (m_min_valid_k unit final) = true
  /\ r_max_of box_tiny = fzero
  /\ flt (r_max_of box_tiny) (fmul fhalf (min_box_length box_tiny)) = false.
Proof.
  cbv zeta. repeat split; try (vm_compute; reflexivity).
  - vm_compute. now left.
  - vm_compute. discriminate.
Qed.

(** A box with a side that is not a number, and one with a negative
    side. *)
Definition box_nan : Box := mkBox (mkVec3 S754_nan ftwo ftwo) false.

Definition box_negative : Box :=
  mkBox (mkVec3 (S754_finite true 8388608 (-22)) ftwo ftwo) false.

Definition frame_of (box : Box) : Frame :=
  mkFrame (mkNQ box [mkVec3 fzero fzero fzero]) [mkVec3 fzero fzero fzero] 1.

Lemma min_valid_k_never_nan_never_grows_witness :
  let run := accumulate_all unit (fun _ _ _ _ h => h) debye0 in
  is_nan (m_min_valid_k unit (run [frame_of box_nan; frame2])) = false
  /\ fle (m_min_valid_k unit
            (run ([frame_of box_nan; frame2] ++ [frame_of box_negative])))
         (m_min_valid_k unit (run [frame_of box_nan; frame2])) = true.
Proof.
  cbv zeta.
  apply (min_valid_k_never_nan_never_grows unit (fun _ _ _ _ h => h) debye0
           [frame_of box_nan; frame2] [frame_of box_negative]).
  reflexivity.
Defined.

Lemma accumulate_all_counts_frames_witness :
  let final :=
    accumulate_all unit (fun _ _ _ _ h => h)
      (mkDebye unit (mkAxis 10 fzero ftwo) tt finfinity 4294967295 false)
      [frame2; frame41] in
  m_frame_counter unit final = 1
  /\ m_reduce unit final = true.
Proof.
  cbv zeta.
  destruct (accumulate_all_counts_frames unit (fun _ _ _ _ h => h)
              (mkDebye unit (mkAxis 10 fzero ftwo) tt finfinity 4294967295
                       false)
              [frame2; frame41])
    as (Hn & _ & Hr).
  - cbn [m_frame_counter]. lia.
  - split; [rewrite Hn; reflexivity | apply Hr; discriminate].
Defined.

End Debye.

(* ===================================================================== *)
(** ** LinkCell *)
(* ===================================================================== *)

Module LinkCell.
Import Float32 VectorMath.

(** Signifies the end of the linked list. *)
Definition LINK_CELL_TERMINATOR : Z := 0xffffffff.

Definition UINT_MAX : Z := 4294967295.

(** *** IteratorLinkCell *)

(** The cell list is a [boost::shared_array<unsigned int>]; a read outside
    of it has no defined behaviour, which [None] stands for. *)
Definition read (cell_list : list Z) (idx : Z) : option Z :=
  if idx <? 0 then None else nth_error cell_list (Z.to_nat idx).

Record IteratorLinkCell : Type := mkIter {
  m_cell_list : list Z;
  m_Np : Z;
  m_Nc : Z;
  m_cur_idx : Z
}.

(** The constructor ([unsigned int] arithmetic; the [assert]s guard
    [cell < Nc], [Np > 0] and [Nc > 0]). *)
Definition new_iterator (cell_list : list Z) (Np Nc cell : Z)
  : IteratorLinkCell :=
  mkIter cell_list Np Nc ((Np + cell) mod 2 ^ 32).

Definition set_cur_idx (it : IteratorLinkCell) (idx : Z) : IteratorLinkCell :=
  mkIter (m_cell_list it) (m_Np it) (m_Nc it) idx.

Definition atEnd (it : IteratorLinkCell) : bool :=
  m_cur_idx it =? LINK_CELL_TERMINATOR.

(** [next()]: the iterator after the step and the index returned. *)
Definition next (it : IteratorLinkCell) : option (IteratorLinkCell * Z) :=
  match read (m_cell_list it) (m_cur_idx it) with
  | Some idx => Some (set_cur_idx it idx, idx)
  | None => None
  end.

(** What a call made from Python comes back with. *)
Inductive py_outcome : Type :=
| Returned (it : IteratorLinkCell) (idx : Z)
| StopIteration (it : IteratorLinkCell).

(** [nextPy()]. *)
Definition nextPy (it : IteratorLinkCell) : option py_outcome :=
  match read (m_cell_list it) (m_cur_idx it) with
  | Some idx =>
      let it' := set_cur_idx it idx in
      if atEnd it' then Some (StopIteration it') else Some (Returned it' idx)
  | None => None
  end.

(** *** Facts on the iterator *)

Lemma atEnd_iff (it : IteratorLinkCell) :
  atEnd it = true <-> m_cur_idx it = 4294967295.
Proof. unfold atEnd, LINK_CELL_TERMINATOR. apply Z.eqb_eq. Qed.

(** [next()] returns whatever the list holds at the current index, the
    terminator like any other entry. *)
Lemma next_spec (it it' : IteratorLinkCell) (idx : Z) :
  next it = Some (it', idx) <->
  read (m_cell_list it) (m_cur_idx it) = Some idx
  /\ it' = set_cur_idx it idx.
Proof.
  unfold next. destruct (read (m_cell_list it) (m_cur_idx it)) as [v |].
  - split.
    + intros [= <- <-]. auto.
    + intros [[= ->] ->]. reflexivity.
  - split; [discriminate | intros [[=] _]].
Qed.

Lemma nextPy_spec (it : IteratorLinkCell) (o : py_outcome) :
  nextPy it = Some o <->
  exists idx, read (m_cell_list it) (m_cur_idx it) = Some idx
              /\ o = if idx =? LINK_CELL_TERMINATOR
                     then StopIteration (set_cur_idx it idx)
                     else Returned (set_cur_idx it idx) idx.
Proof.
  unfold nextPy, atEnd.
  destruct (read (m_cell_list it) (m_cur_idx it)) as [v |].
  - cbn [set_cur_idx m_cur_idx]. split.
    + intros H. exists v. split; [reflexivity |].
      destruct (v =? LINK_CELL_TERMINATOR); congruence.
    + intros (idx & [= <-] & ->).
      destruct (v =? LINK_CELL_TERMINATOR); reflexivity.
  - split; [discriminate | intros (idx & [=] & _)].
Qed.

(** A read past the end of the list is not caught by [next()]. *)
Lemma next_out_of_bounds (it : IteratorLinkCell) :
  Z.of_nat (List.length (m_cell_list it)) <= m_cur_idx it -> next it = None.
Proof.
  intros H. unfold next, read.
  destruct (Z.ltb_spec (m_cur_idx it) 0); [reflexivity |].
  destruct (nth_error (m_cell_list it) (Z.to_nat (m_cur_idx it))) eqn:E;
    [| reflexivity].
  assert (Hlt : (Z.to_nat (m_cur_idx it) < List.length (m_cell_list it))%nat)
    by (apply nth_error_Some; congruence).
  lia.
Qed.

(** C5. [atEnd()] holds exactly when the current index is 0xFFFFFFFF.
    [nextPy()] raises StopIteration exactly when the entry it steps to is
    that terminator, and returns the entry otherwise.  [next()] makes the
    same step and returns the entry in either case, leaving the iterator
    at its end when the entry is the terminator; it reads the list at the
    current index without looking at the bounds, so that a step from the
    end, past a list shorter than 0xFFFFFFFF entries, is not defined. *)
Theorem iterator_end_protocol (it : IteratorLinkCell) :
  (atEnd it = true <-> m_cur_idx it = 4294967295)
  /\ (forall it',
        nextPy it = Some (StopIteration it') <->
        read (m_cell_list it) (m_cur_idx it) = Some 4294967295
        /\ it' = set_cur_idx it 4294967295)
  /\ (forall it' idx,
        nextPy it = Some (Returned it' idx) <->
        read (m_cell_list it) (m_cur_idx it) = Some idx
        /\ idx <> 4294967295 /\ it' = set_cur_idx it idx)
  /\ (forall it' idx,
        next it = Some (it', idx) <->
        read (m_cell_list it) (m_cur_idx it) = Some idx
        /\ it' = set_cur_idx it idx)
  /\ (forall it' idx,
        next it = Some (it', idx) ->
        (atEnd it' = true <-> nextPy it = Some (StopIteration it')))
  /\ (atEnd it = true ->
      Z.of_nat (List.length (m_cell_list it)) <= 4294967295 ->
      next it = None /\ nextPy it = None).
Proof.
  split; [apply atEnd_iff |].
  split; [| split; [| split; [| split]]].
  - intros it'. rewrite nextPy_spec. split.
    + intros (idx & Hr & Ho).
      destruct (Z.eqb_spec idx LINK_CELL_TERMINATOR) as [-> | Hne];
        [| discriminate].
      injection Ho as ->. auto.
    + intros [Hr ->]. exists 4294967295. split; [exact Hr | reflexivity].
  - intros it' idx. rewrite nextPy_spec. split.
    + intros (idx' & Hr & Ho).
      destruct (Z.eqb_spec idx' LINK_CELL_TERMINATOR) as [-> | Hne];
        [discriminate |].
      injection Ho as -> ->. auto.
    + intros (Hr & Hne & ->). exists idx. split; [exact Hr |].
      destruct (Z.eqb_spec idx LINK_CELL_TERMINATOR) as [-> | _];
        [now elim Hne | reflexivity].
  - intros it' idx. apply next_spec.
  - intros it' idx (Hr & ->)%next_spec.
    rewrite atEnd_iff. cbn [set_cur_idx m_cur_idx].
    rewrite nextPy_spec. split.
    + intros ->. exists 4294967295. split; [exact Hr | reflexivity].
    + intros (idx' & Hr' & Ho). rewrite Hr in Hr'. injection Hr' as <-.
      destruct (Z.eqb_spec idx LINK_CELL_TERMINATOR) as [-> | _];
        [reflexivity | discriminate].
  - intros Hend%atEnd_iff Hlen.
    assert (Hn : next it = None) by (apply next_out_of_bounds; lia).
    split; [exact Hn |].
    unfold next in Hn. unfold nextPy.
    destruct (read (m_cell_list it) (m_cur_idx it)); [discriminate |].
    reflexivity.
Qed.

(** A list for two particles in three cells: cell 0 holds particle 1 then
    particle 0, the other cells are empty. *)
Example walk_cell_0 :
  let it0 := new_iterator [4294967295; 0; 1; 4294967295; 4294967295] 2 3 0 in
  exists it1 it2 it3,
    next it0 = Some (it1, 1) /\ atEnd it1 = false
    /\ next it1 = Some (it2, 0) /\ atEnd it2 = false
    /\ next it2 = Some (it3, 4294967295) /\ atEnd it3 = true
    /\ nextPy it2 = Some (StopIteration it3)
    /\ next it3 = None.
Proof.
  cbv zeta. do 3 eexists. repeat split; reflexivity.
Qed.

(** *** LinkCell *)

Record uint3 : Type := mkUint3 { x : Z; y : Z; z : Z }.

(** [Index3D], of Index1D.h: the numbers of cells along the axes. *)
Record Index3D : Type := mkIndex3D { getW : Z; getH : Z; getD : Z }.

Section WithBox.

(** [trajectory::Box] and its [makeunit], which maps a point to box
    fractions; both are declared in trajectory.h. *)
Variable Box : Type.
Variable makeunit : Box -> vec3 f32 -> vec3 f32.

Record LinkCell : Type := mkLinkCell {
  m_box : Box;
  m_cell_index : Index3D
}.

(** [floorf(v)]: the integral number it returns, as the integer it holds;
    an infinity or a NaN is returned unchanged and holds none. *)
Definition floorf (v : f32) : option Z :=
  match v with
  | S754_zero _ => Some 0
  | S754_finite s m e => Some (Z.shiftl (cond_Zopp s (Zpos m)) e)
  | _ => None
  end.

(** The conversion of an integral [float] to [unsigned int]: defined when
    the number fits. *)
Definition to_unsigned (v : option Z) : option Z :=
  match v with
  | Some n => if (0 <=? n) && (n <=? UINT_MAX) then Some n else None
  | None => None
  end.

(** [c %= n] on [unsigned int]; a zero divisor has no defined behaviour. *)
Definition umod (c n : Z) : option Z :=
  if n =? 0 then None else Some (c mod n).

(** One axis of [getCellCoord]:
    [c = floorf(alpha * float(n)); c %= n;]. *)
Definition cell_coord_axis (alpha : f32) (n : Z) : option Z :=
  match to_unsigned (floorf (fmul alpha (of_Z n))) with
  | Some c => umod c n
  | None => None
  end.

Definition getCellCoord (lc : LinkCell) (p : vec3 f32) : option uint3 :=
  let alpha := makeunit (m_box lc) p in
  match cell_coord_axis (vx alpha) (getW (m_cell_index lc)) with
  | Some cx =>
      match cell_coord_axis (vy alpha) (getH (m_cell_index lc)) with
      | Some cy =>
          match cell_coord_axis (vz alpha)
                                (getD (m_cell_index lc)) with
          | Some cz => Some (mkUint3 cx cy cz)
          | None => None
          end
      | None => None
      end
  | None => None
  end.

(** The floor of the product [alpha * float(n)], when it is a number. *)
Definition floor_of_product (alpha : f32) (n : Z) : option Z :=
  floorf (fmul alpha (of_Z n)).

(** *** Facts on [getCellCoord] *)

Lemma cell_coord_axis_spec (alpha : f32) (n c : Z) :
  cell_coord_axis alpha n = Some c <->
  n <> 0 /\
  exists v, floor_of_product alpha n = Some v
            /\ 0 <= v <= UINT_MAX /\ c = v mod n.
Proof.
  unfold cell_coord_axis, floor_of_product, to_unsigned, umod.
  destruct (floorf (fmul alpha (of_Z n))) as [v |].
  - destruct (Z.leb_spec 0 v), (Z.leb_spec v UINT_MAX); cbn [andb];
      destruct (Z.eqb_spec n 0); split;
      try discriminate;
      try (intros [Hn (v' & [= <-] & Hr & Hc)]; lia).
    + intros [= <-]. split; [assumption |]. exists v. repeat split; lia.
    + intros [Hn (v' & [= <-] & Hr & ->)]. reflexivity.
  - split; [discriminate |]. intros [_ (v & [=] & _)].
Qed.

Lemma cell_coord_axis_range (alpha : f32) (n c : Z) :
  0 < n -> cell_coord_axis alpha n = Some c -> 0 <= c < n.
Proof.
  intros Hn (_ & v & _ & _ & ->)%cell_coord_axis_spec.
  now apply Z.mod_pos_bound.
Qed.

(** C4. With at least one cell on every axis, [getCellCoord(p)] is, on
    each axis, the floor of the product of the box fraction
    [alpha = makeunit(p)] and the cell count, taken modulo the cell count:
    whenever the call returns, its coordinates have that form and lie in
    [0, N); and it does return that value whenever the floor of the
    product is an [unsigned int], a product that reaches [N] through
    rounding included. *)
Theorem getCellCoord_floor_mod (lc : LinkCell) (p : vec3 f32) :
  let alpha := makeunit (m_box lc) p in
  let W := getW (m_cell_index lc) in
  let H := getH (m_cell_index lc) in
  let D := getD (m_cell_index lc) in
  0 < W -> 0 < H -> 0 < D ->
  (forall c, getCellCoord lc p = Some c ->
     (exists fx fy fz,
        floor_of_product (vx alpha) W = Some fx
        /\ floor_of_product (vy alpha) H = Some fy
        /\ floor_of_product (vz alpha) D = Some fz
        /\ c = mkUint3 (fx mod W) (fy mod H) (fz mod D))
     /\ 0 <= x c < W /\ 0 <= y c < H /\ 0 <= z c < D)
  /\ (forall fx fy fz,
        floor_of_product (vx alpha) W = Some fx ->
        floor_of_product (vy alpha) H = Some fy ->
        floor_of_product (vz alpha) D = Some fz ->
        0 <= fx <= UINT_MAX -> 0 <= fy <= UINT_MAX -> 0 <= fz <= UINT_MAX ->
        getCellCoord lc p
        = Some (mkUint3 (fx mod W) (fy mod H) (fz mod D))).
Proof.
  intros alpha W H D HW HH HD. unfold getCellCoord.
  fold alpha W H D. split.
  - intros c Hc.
    destruct (cell_coord_axis (vx alpha) W) as [cx |] eqn:Ex;
      [| discriminate].
    destruct (cell_coord_axis (vy alpha) H) as [cy |] eqn:Ey;
      [| discriminate].
    destruct (cell_coord_axis (vz alpha) D) as [cz |] eqn:Ez;
      [| discriminate].
    injection Hc as <-. cbn [x y z].
    pose proof (cell_coord_axis_range _ _ _ HW Ex).
    pose proof (cell_coord_axis_range _ _ _ HH Ey).
    pose proof (cell_coord_axis_range _ _ _ HD Ez).
    apply cell_coord_axis_spec in Ex as (_ & fx & Fx & _ & ->).
    apply cell_coord_axis_spec in Ey as (_ & fy & Fy & _ & ->).
    apply cell_coord_axis_spec in Ez as (_ & fz & Fz & _ & ->).
    split; [| auto]. exists fx, fy, fz. auto.
  - intros fx fy fz Fx Fy Fz Rx Ry Rz.
    assert (Ex : cell_coord_axis (vx alpha) W = Some (fx mod W))
      by (apply cell_coord_axis_spec; split; [lia | eauto]).
    assert (Ey : cell_coord_axis (vy alpha) H = Some (fy mod H))
      by (apply cell_coord_axis_spec; split; [lia | eauto]).
    assert (Ez : cell_coord_axis (vz alpha) D = Some (fz mod D))
      by (apply cell_coord_axis_spec; split; [lia | eauto]).
    rewrite Ex, Ey, Ez. reflexivity.
Qed.

End WithBox.

(** Box fractions 0, 1/2, just below 1 and 1 on an axis of 3 cells. *)
Example cell_coord_axis_3 :
  map (fun alpha => cell_coord_axis alpha 3)
      [fzero; fhalf; S754_finite false 16777215 (-24); fone]
  = [Some 0; Some 1; Some 2; Some 0].
Proof. vm_compute. reflexivity. Qed.

(** A fraction below zero, of a point outside of the box: its floor is
    no [unsigned int]. *)
Example cell_coord_axis_negative :
  cell_coord_axis (S754_finite true 8388608 (-24)) 3 = None.
Proof. vm_compute. reflexivity. Qed.

(** A grid of 3 x 4 x 1 cells, with the box fractions given as they are.
    The fraction 1.0 on the first axis is what rounding can make of a
    point at the upper face of the box. *)
Definition grid341 : LinkCell unit := mkLinkCell unit tt (mkIndex3D 3 4 1).

Lemma getCellCoord_floor_mod_witness :
  getCellCoord unit (fun _ p => p) grid341 (mkVec3 fone fhalf fzero)
  = Some (mkUint3 0 2 0)
  /\ floor_of_product fone 3 = Some 3.
Proof.
  split; [| reflexivity].
  apply (proj2 (getCellCoord_floor_mod unit (fun _ p => p) grid341
                  (mkVec3 fone fhalf fzero)
                  ltac:(reflexivity) ltac:(reflexivity) ltac:(reflexivity))
           3 2 0);
    try reflexivity; vm_compute; split; discriminate.
Defined.

(** *** Walking a cell *)

(** What a loop over a cell comes to: the particles visited, a read
    outside the cell list, or a loop still running after the given number
    of steps. *)
Inductive walk : Type :=
| Visited (particles : list Z)
| OutOfBounds
| Running.

Definition visit (i : Z) (w : walk) : walk :=
  match w with
  | Visited l => Visited (i :: l)
  | _ => w
  end.

(** The loop the class documents,
    [for (unsigned int i = it.next(); !it.atEnd(); i = it.next())],
    with the indices its body sees. *)
Fixpoint loop_next (steps : nat) (it : IteratorLinkCell) : walk :=
  match steps with
  | O => Running
  | S steps' =>
      match next it with
      | None => OutOfBounds
      | Some (it', i) =>
          if atEnd it' then Visited [] else visit i (loop_next steps' it')
      end
  end.

(** The iteration from Python: [nextPy()] until it raises
    StopIteration. *)
Fixpoint loop_nextPy (steps : nat) (it : IteratorLinkCell) : walk :=
  match steps with
  | O => Running
  | S steps' =>
      match nextPy it with
      | None => OutOfBounds
      | Some (StopIteration _) => Visited []
      | Some (Returned it' i) => visit i (loop_nextPy steps' it')
      end
  end.

(** [LinkCell::itercell(cell)] on a cell list for [Np] particles in [Nc]
    cells. *)
Definition itercell (cell_list : list Z) (Np Nc cell : Z) : IteratorLinkCell :=
  new_iterator cell_list Np Nc cell.

(** The particles [ps] are linked from the entry [start] of the cell list:
    every entry holds the next particle, the last one the terminator. *)
Fixpoint linked (cell_list : list Z) (start : Z) (ps : list Z) : Prop :=
  match ps with
  | [] => read cell_list start = Some LINK_CELL_TERMINATOR
  | p :: ps' =>
      read cell_list start = Some p /\ p <> LINK_CELL_TERMINATOR
      /\ linked cell_list p ps'
  end.

Lemma loop_next_nextPy (steps : nat) (it : IteratorLinkCell) :
  loop_next steps it = loop_nextPy steps it.
Proof.
  revert it. induction steps as [| steps IH]; intros it; [reflexivity |].
  cbn [loop_next loop_nextPy]. unfold next, nextPy.
  destruct (read (m_cell_list it) (m_cur_idx it)) as [idx |]; [| reflexivity].
  destruct (atEnd (set_cur_idx it idx)); [reflexivity |].
  now rewrite IH.
Qed.

Lemma loop_next_step (steps : nat) (it : IteratorLinkCell) :
  loop_next (S steps) it
  = match next it with
    | None => OutOfBounds
    | Some (it', i) =>
        if atEnd it' then Visited [] else visit i (loop_next steps it')
    end.
Proof. reflexivity. Qed.

Lemma loop_next_linked (ps : list Z) (it : IteratorLinkCell) (extra : nat) :
  linked (m_cell_list it) (m_cur_idx it) ps ->
  loop_next (S (List.length ps) + extra) it = Visited ps.
Proof.
  revert it. induction ps as [| p ps IH]; intros it H.
  - cbn [linked] in H.
    change (S (List.length (@nil Z)) + extra)%nat with (S extra).
    rewrite loop_next_step. unfold next.
    rewrite H. unfold atEnd. cbn [set_cur_idx m_cur_idx].
    now rewrite Z.eqb_refl.
  - destruct H as (Hr & Hne & Hl).
    change (S (List.length (p :: ps)) + extra)%nat
      with (S (S (List.length ps) + extra)).
    rewrite loop_next_step. unfold next. rewrite Hr.
    unfold atEnd at 1. cbn [set_cur_idx m_cur_idx].
    destruct (Z.eqb_spec p LINK_CELL_TERMINATOR) as [E | _]; [now elim Hne |].
    rewrite (IH (set_cur_idx it p)); [reflexivity | exact Hl].
Qed.

(** X6. The loop documented for C++, on [next()] and [atEnd()], and the
    iteration from Python, on [nextPy()], visit the same particles after
    any number of steps.  For a cell whose particles are linked from its
    head entry [Np + cell], both end after one step more than there are
    particles, having visited exactly these, in their order, and never the
    terminator. *)
Theorem iteration_visits_linked_particles
  (cell_list : list Z) (Np Nc cell : Z) (ps : list Z) (extra : nat) :
  0 <= Np -> 0 <= cell -> Np + cell < 2 ^ 32 ->
  linked cell_list (Np + cell) ps ->
  let it := itercell cell_list Np Nc cell in
  (forall steps, loop_next steps it = loop_nextPy steps it)
  /\ loop_next (S (List.length ps) + extra) it = Visited ps
  /\ loop_nextPy (S (List.length ps) + extra) it = Visited ps
  /\ ~ In LINK_CELL_TERMINATOR ps.
Proof.
  intros HNp Hcell Hsum Hl it.
  assert (Hcur : m_cur_idx it = Np + cell).
  { unfold it, itercell, new_iterator. cbn [m_cur_idx].
    apply Z.mod_small. lia. }
  assert (Hv : loop_next (S (List.length ps) + extra) it = Visited ps).
  { apply loop_next_linked. rewrite Hcur. exact Hl. }
  split; [intros steps; apply loop_next_nextPy |].
  split; [exact Hv |]. split; [now rewrite <- loop_next_nextPy |].
  clear Hv Hcur it. revert Hl. generalize (Np + cell).
  induction ps as [| p ps IH]; intros start Hl; [intros [] |].
  destruct Hl as (_ & Hne & Hl). intros [E | Hin]; [now elim Hne |].
  exact (IH p Hl Hin).
Qed.

Lemma iteration_visits_linked_particles_witness :
  let cell_list := [4294967295; 0; 1; 4294967295; 4294967295] in
  loop_next 5 (itercell cell_list 2 3 0) = Visited [1; 0]
  /\ loop_nextPy 5 (itercell cell_list 2 3 0) = Visited [1; 0].
Proof.
  cbv zeta.
  destruct (iteration_visits_linked_particles
              [4294967295; 0; 1; 4294967295; 4294967295] 2 3 0 [1; 0] 2%nat)
    as (_ & Hn & Hp & _).
  - lia.
  - lia.
  - reflexivity.
  - cbn. repeat split; discriminate.
  - split; [exact Hn | exact Hp].
Defined.

End LinkCell.

(* ===================================================================== *)
(** ** GaussianDensity *)
(* ===================================================================== *)

Module GaussianDensity.
Import Float32 VectorMath.

(** [util::ManagedArray<float>] of three dimensions: its shape and its
    elements in row-major order. *)
Record ManagedArray : Type := mkArray {
  shape : Z * Z * Z;
  data : list f32
}.

Definition size_of (sh : Z * Z * Z) : nat :=
  let '(n0, n1, n2) := sh in Z.to_nat (n0 * n1 * n2).

(** Modelled from the spec: [ManagedArray::prepare(shape)] of
    ManagedArray.h, "an explicit [prepare(shape)] that reallocates and
    zeroes storage". *)
Definition prepare (sh : Z * Z * Z) (a : ManagedArray) : ManagedArray :=
  mkArray sh (repeat fzero (size_of sh)).

(** The position of the element [(i, j, k)]. *)
Definition flat_index (sh : Z * Z * Z) (i j k : Z) : Z :=
  let '(_, n1, n2) := sh in (i * n1 + j) * n2 + k.

Fixpoint add_nth (l : list f32) (n : nat) (v : f32) : list f32 :=
  match l, n with
  | [], _ => []
  | x :: l', O => fadd x v :: l'
  | x :: l', S n' => x :: add_nth l' n' v
  end.

(** [a(i, j, k) += v]. *)
Definition add_at (a : ManagedArray) (i j k : Z) (v : f32) : ManagedArray :=
  let n := flat_index (shape a) i j k in
  if n <? 0 then a
  else mkArray (shape a) (add_nth (data a) (Z.to_nat n) v).

(** Modelled from the spec: [util::ThreadStorage<float>] of
    ThreadStorage.h: one zeroed array of the given shape for every thread,
    and [reduceInto], which adds the arrays of all threads, element by
    element, into the array it is given ("sum, not average"). *)
Definition ThreadStorage : Type := list ManagedArray.

Definition new_storage (sh : Z * Z * Z) (threads : nat) : ThreadStorage :=
  repeat (mkArray sh (repeat fzero (size_of sh))) threads.

Fixpoint add_arrays (l l' : list f32) : list f32 :=
  match l, l' with
  | x :: t, x' :: t' => fadd x x' :: add_arrays t t'
  | _, _ => l
  end.

Definition reduceInto (ts : ThreadStorage) (a : ManagedArray)
  : ManagedArray :=
  fold_left (fun acc loc => mkArray (shape acc)
                                    (add_arrays (data acc) (data loc)))
            ts a.

(** The integers from [lo] to [hi], both included. *)
Definition from_to (lo hi : Z) : list Z :=
  map (fun n => lo + Z.of_nat n) (seq 0 (Z.to_nat (hi - lo + 1))).

(** [int(v)]: the number truncated toward zero; where it is not an [int]
    the conversion yields the smallest one. *)
Definition to_int (v : f32) : Z :=
  match v with
  | S754_zero _ => 0
  | S754_finite s m e =>
      let t := cond_Zopp s (Z.shiftl (Zpos m) e) in
      if (-2147483648 <=? t) && (t <=? 2147483647) then t else -2147483648
  | _ => -2147483648
  end.

(** [int] arithmetic as the compiled code carries it out, in two's
    complement: the result is taken modulo 2^32 into the range of
    [int]. *)
Definition wrap_int (n : Z) : Z := (n + 2 ^ 31) mod 2 ^ 32 - 2 ^ 31.

Definition INT_MAX : Z := 2147483647.

(** The values [k] takes in [for (int k = lo; k <= hi; k++)].  With
    [hi = INT_MAX] the condition never fails and the loop has no end,
    which [None] stands for. *)
Definition int_loop (lo hi : Z) : option (list Z) :=
  if hi =? INT_MAX then None else Some (from_to lo hi).

(** [(i + w) % w] for an [int] [i] and an [unsigned int] [w]: the sum is
    taken as [unsigned int], and the remainder by zero traps, which [None]
    stands for. *)
Definition bin_index (i w : Z) : option Z :=
  if w =? 0 then None else Some (((i + w) mod 2 ^ 32) mod w).

(** A loop whose body may end the program. *)
Fixpoint fold_opt {A B : Type} (f : A -> B -> option A) (l : list B) (a : A)
  : option A :=
  match l with
  | [] => Some a
  | b :: l' =>
      match f a b with
      | Some a' => fold_opt f l' a'
      | None => None
      end
  end.

Fixpoint map_opt {A B : Type} (f : A -> option B) (l : list A)
  : option (list B) :=
  match l with
  | [] => Some []
  | a :: l' =>
      match f a with
      | Some b =>
          match map_opt f l' with
          | Some bs => Some (b :: bs)
          | None => None
          end
      | None => None
      end
  end.

Section WithBox.

(** [box::Box], declared in Box.h. *)
Variable Box : Type.
Variables getLx getLy getLz : Box -> f32.
Variable is2D : Box -> bool.
Variable getPeriodic : Box -> vec3 bool.
Variable wrap : Box -> vec3 f32 -> vec3 f32.

(** [std::exp] on [float]. *)
Variable expf : f32 -> f32.

(** [constants::TWO_PI]. *)
Variable TWO_PI : f32.

Record GaussianDensity : Type := mkDensity {
  m_box : Box;
  m_width : vec3 Z;
  m_r_max : f32;
  m_sigma : f32;
  m_density_array : ManagedArray
}.

(** What [compute] reads of the neighbor query. *)
Record NeighborQuery : Type := mkNQ {
  getBox : Box;
  points : list (vec3 f32)
}.

Definition dot (v : vec3 f32) : f32 :=
  fadd (fadd (fmul (vx v) (vx v)) (fmul (vy v) (vy v))) (fmul (vz v) (vz v)).

(** The offset of the centre of bin [n] from the coordinate [p]:
    [(grid_size * n + grid_size / 2.0f) - p - l / 2.0f]. *)
Definition bin_offset (grid_size : f32) (n : Z) (p l : f32) : f32 :=
  fsub (fsub (fadd (fmul grid_size (of_Z n)) (fdiv grid_size ftwo)) p)
       (fdiv l ftwo).

(** [grid_size_x], [grid_size_y] and [grid_size_z]. *)
Definition grid_sizes (self : GaussianDensity) (box : Box) : vec3 f32 :=
  mkVec3 (fdiv (getLx box) (of_Z (vx (m_width self))))
         (fdiv (getLy box) (of_Z (vy (m_width self))))
         (if is2D box then fzero
          else fdiv (getLz box) (of_Z (vz (m_width self)))).

(** The bounds [bin - bin_cut] and [bin + bin_cut] of the three loops of
    one point, along x, y and z. *)
Definition loop_bounds (self : GaussianDensity) (box : Box)
  (point : vec3 f32) : (Z * Z) * (Z * Z) * (Z * Z) :=
  let lx := getLx box in
  let ly := getLy box in
  let lz := getLz box in
  let gs := grid_sizes self box in
  let bin_cut_x := to_int (fdiv (m_r_max self) (vx gs)) in
  let bin_cut_y := to_int (fdiv (m_r_max self) (vy gs)) in
  let bin_cut_z :=
    if is2D box then 0 else to_int (fdiv (m_r_max self) (vz gs)) in
  let bin_x := to_int (fdiv (fadd (vx point) (fdiv lx ftwo)) (vx gs)) in
  let bin_y := to_int (fdiv (fadd (vy point) (fdiv ly ftwo)) (vy gs)) in
  let bin_z0 := to_int (fdiv (fadd (vz point) (fdiv lz ftwo)) (vz gs)) in
  let bin_z := if is2D box then 0 else bin_z0 in
  ((wrap_int (bin_x - bin_cut_x), wrap_int (bin_x + bin_cut_x)),
   (wrap_int (bin_y - bin_cut_y), wrap_int (bin_y + bin_cut_y)),
   (wrap_int (bin_z - bin_cut_z), wrap_int (bin_z + bin_cut_z))).

(** The body of the loop over the points, for one point and the array of
    the thread at work; [None] where a loop has no end or a remainder
    traps. *)
Definition deposit (self : GaussianDensity) (box : Box) (point : vec3 f32)
  (loc : ManagedArray) : option ManagedArray :=
  let lx := getLx box in
  let ly := getLy box in
  let lz := getLz box in
  let periodic := getPeriodic box in
  let gs := grid_sizes self box in
  let r_max_sq := fmul (m_r_max self) (m_r_max self) in
  let sigmasq := fmul (m_sigma self) (m_sigma self) in
  let A := SFsqrt prec emax (fdiv fone (fmul TWO_PI sigmasq)) in
  let '(bound_x, bound_y, bound_z) := loop_bounds self box point in
  match int_loop (fst bound_z) (snd bound_z) with
  | None => None
  | Some ks =>
    fold_opt (fun loc k =>
      if negb (vz periodic)
         && ((k <? 0) || (wrap_int (vz (m_width self)) <=? k))
      then Some loc
      else
        let dz := bin_offset (vz gs) k (vz point) lz in
        match int_loop (fst bound_y) (snd bound_y) with
        | None => None
        | Some js =>
          fold_opt (fun loc j =>
            if negb (vy periodic)
               && ((j <? 0) || (wrap_int (vy (m_width self)) <=? j))
            then Some loc
            else
              let dy := bin_offset (vy gs) j (vy point) ly in
              match int_loop (fst bound_x) (snd bound_x) with
              | None => None
              | Some xs =>
                fold_opt (fun loc i =>
                  if negb (vx periodic)
                     && ((i <? 0) || (wrap_int (vx (m_width self)) <=? i))
                  then Some loc
                  else
                    let dx := bin_offset (vx gs) i (vx point) lx in
                    let delta := wrap box (mkVec3 dx dy dz) in
                    let r_sq := dot delta in
                    if flt r_sq r_max_sq
                    then
                      let gaussian :=
                        fmul A (expf (fdiv (SFopp r_sq)
                                           (fmul ftwo sigmasq))) in
                      match bin_index i (vx (m_width self)) with
                      | None => None
                      | Some ni =>
                        match bin_index j (vy (m_width self)) with
                        | None => None
                        | Some nj =>
                          match bin_index k (vz (m_width self)) with
                          | None => None
                          | Some nk => Some (add_at loc ni nj nk gaussian)
                          end
                        end
                      end
                    else Some loc)
                  xs loc
              end)
            js loc
        end)
      ks loc
  end.

(** The work of one thread: the points it is handed, in their order, into
    its own array. *)
Definition run_thread (self : GaussianDensity) (nq : NeighborQuery)
  (indices : list nat) (loc : ManagedArray) : option ManagedArray :=
  fold_opt (fun loc idx =>
              match nth_error (points nq) idx with
              | Some point => deposit self (getBox nq) point loc
              | None => Some loc
              end)
           indices loc.

(** [compute]; [schedule] lists, for every thread of
    [util::forLoopWrapper], the indices of the points it works on.  The
    call has a result when every thread has one. *)
Definition compute (self : GaussianDensity) (nq : NeighborQuery)
  (schedule : list (list nat)) : option GaussianDensity :=
  let box := getBox nq in
  let self1 := mkDensity box (m_width self) (m_r_max self) (m_sigma self)
                         (m_density_array self) in
  let width :=
    (vx (m_width self), vy (m_width self),
     if is2D box then 1 else vz (m_width self)) in
  let density := prepare width (m_density_array self1) in
  let local_bin_counts := new_storage width (List.length schedule) in
  match map_opt (fun tl => run_thread self1 nq (fst tl) (snd tl))
                (combine schedule local_bin_counts) with
  | None => None
  | Some filled =>
      Some (mkDensity box (m_width self) (m_r_max self) (m_sigma self)
                      (reduceInto filled density))
  end.

(** *** The density does not depend on earlier calls *)

Lemma prepare_forgets (sh : Z * Z * Z) (a a' : ManagedArray) :
  prepare sh a = prepare sh a'.
Proof. reflexivity. Qed.

Lemma reduceInto_shape (ts : ThreadStorage) (a : ManagedArray) :
  shape (reduceInto ts a) = shape a.
Proof.
  unfold reduceInto. revert a.
  induction ts as [| loc ts IH]; intros a; [reflexivity |].
  cbn [fold_left]. now rewrite IH.
Qed.

(** The width of the grid [compute] fills. *)
Definition grid_width (self : GaussianDensity) (nq : NeighborQuery)
  : Z * Z * Z :=
  (vx (m_width self), vy (m_width self),
   if is2D (getBox nq) then 1 else vz (m_width self)).

(** The zeroed array of that width. *)
Definition zeroed (self : GaussianDensity) (nq : NeighborQuery)
  : ManagedArray :=
  mkArray (grid_width self nq) (repeat fzero (size_of (grid_width self nq))).

(** The arrays of the threads after the loop over the points, each filled
    from zero. *)
Definition thread_arrays (self : GaussianDensity) (nq : NeighborQuery)
  (schedule : list (list nat)) : option ThreadStorage :=
  map_opt (fun indices =>
             run_thread (mkDensity (getBox nq) (m_width self) (m_r_max self)
                                   (m_sigma self) (m_density_array self))
                        nq indices (zeroed self nq))
          schedule.

Lemma fold_opt_ext {A B : Type} (f g : A -> B -> option A) (l : list B)
  (a : A) :
  (forall a b, f a b = g a b) -> fold_opt f l a = fold_opt g l a.
Proof.
  intros H. revert a. induction l as [| b l IH]; intros a; [reflexivity |].
  cbn [fold_opt]. rewrite H. destruct (g a b); [apply IH | reflexivity].
Qed.

Lemma map_opt_ext {A B : Type} (f g : A -> option B) (l : list A) :
  (forall a, f a = g a) -> map_opt f l = map_opt g l.
Proof.
  intros H. induction l as [| a l IH]; [reflexivity |].
  cbn [map_opt]. now rewrite H, IH.
Qed.

Lemma map_opt_map {A B C : Type} (f : B -> option C) (g : A -> B)
  (l : list A) :
  map_opt f (map g l) = map_opt (fun a => f (g a)) l.
Proof.
  induction l as [| a l IH]; [reflexivity |].
  cbn [map map_opt]. now rewrite IH.
Qed.

Lemma deposit_config (self self' : GaussianDensity) (box : Box)
  (point : vec3 f32) (loc : ManagedArray) :
  m_width self' = m_width self -> m_r_max self' = m_r_max self ->
  m_sigma self' = m_sigma self ->
  deposit self' box point loc = deposit self box point loc.
Proof.
  intros Hw Hr Hs. unfold deposit, loop_bounds, grid_sizes.
  now rewrite Hw, Hr, Hs.
Qed.

Lemma run_thread_config (self self' : GaussianDensity) (nq : NeighborQuery)
  (indices : list nat) (loc : ManagedArray) :
  m_width self' = m_width self -> m_r_max self' = m_r_max self ->
  m_sigma self' = m_sigma self ->
  run_thread self' nq indices loc = run_thread self nq indices loc.
Proof.
  intros Hw Hr Hs. unfold run_thread. apply fold_opt_ext. intros a idx.
  destruct (nth_error (points nq) idx); [| reflexivity].
  now apply deposit_config.
Qed.

Lemma combine_new_storage (sh : Z * Z * Z) (schedule : list (list nat)) :
  combine schedule (new_storage sh (List.length schedule))
  = map (fun indices =>
           (indices, mkArray sh (repeat fzero (size_of sh))))
        schedule.
Proof.
  unfold new_storage.
  induction schedule as [| t schedule IH]; [reflexivity |].
  cbn [List.length repeat combine map]. now rewrite IH.
Qed.

(** What [compute] leaves in the density array: the arrays of the
    threads, added into a zeroed array. *)
Lemma compute_density (self : GaussianDensity) (nq : NeighborQuery)
  (schedule : list (list nat)) :
  compute self nq schedule
  = option_map (fun filled =>
                  mkDensity (getBox nq) (m_width self) (m_r_max self)
                            (m_sigma self)
                            (reduceInto filled (zeroed self nq)))
               (thread_arrays self nq schedule).
Proof.
  unfold compute, thread_arrays, zeroed, grid_width.
  rewrite combine_new_storage, map_opt_map. cbn [fst snd].
  destruct (map_opt _ schedule); reflexivity.
Qed.

Lemma compute_config (s s' : GaussianDensity) (nq : NeighborQuery)
  (schedule : list (list nat)) :
  m_width s' = m_width s -> m_r_max s' = m_r_max s ->
  m_sigma s' = m_sigma s ->
  compute s' nq schedule = compute s nq schedule.
Proof.
  intros Hw Hr Hs. unfold compute. rewrite Hw, Hr, Hs.
  rewrite (map_opt_ext _
             (fun tl => run_thread
                          (mkDensity (getBox nq) (m_width s) (m_r_max s)
                                     (m_sigma s) (m_density_array s))
                          nq (fst tl) (snd tl))).
  - reflexivity.
  - intros [indices loc]. cbn [fst snd].
    apply run_thread_config; reflexivity.
Qed.

Lemma compute_keeps_config (s s' : GaussianDensity) (nq : NeighborQuery)
  (schedule : list (list nat)) :
  compute s nq schedule = Some s' ->
  m_box s' = getBox nq /\ m_width s' = m_width s
  /\ m_r_max s' = m_r_max s /\ m_sigma s' = m_sigma s.
Proof.
  rewrite compute_density.
  destruct (thread_arrays s nq schedule); [| discriminate].
  intros [= <-]. repeat split.
Qed.

(** *** When the call has a result *)

(** No width is zero, and none of the three loops of the point runs up to
    [INT_MAX]. *)
Definition widths_nonzero (self : GaussianDensity) : bool :=
  negb (vx (m_width self) =? 0) && negb (vy (m_width self) =? 0)
  && negb (vz (m_width self) =? 0).

Definition loops_end (self : GaussianDensity) (box : Box) (point : vec3 f32)
  : bool :=
  let '(bound_x, bound_y, bound_z) := loop_bounds self box point in
  negb (snd bound_x =? INT_MAX) && negb (snd bound_y =? INT_MAX)
  && negb (snd bound_z =? INT_MAX).

Lemma fold_opt_defined {A B : Type} (f : A -> B -> option A) (l : list B)
  (a : A) :
  (forall a b, exists a', f a b = Some a') ->
  exists a', fold_opt f l a = Some a'.
Proof.
  intros H. revert a. induction l as [| b l IH]; intros a.
  - now exists a.
  - cbn [fold_opt]. destruct (H a b) as [a' ->]. apply IH.
Qed.

Lemma deposit_defined (self : GaussianDensity) (box : Box)
  (point : vec3 f32) (loc : ManagedArray) :
  widths_nonzero self = true -> loops_end self box point = true ->
  exists loc', deposit self box point loc = Some loc'.
Proof.
  unfold widths_nonzero, loops_end, deposit.
  destruct (loop_bounds self box point) as [[bound_x bound_y] bound_z].
  rewrite !andb_true_iff, !negb_true_iff.
  intros [[Hwx Hwy] Hwz] [[Hx Hy] Hz].
  unfold int_loop, bin_index. rewrite Hx, Hy, Hz, Hwx, Hwy, Hwz.
  apply fold_opt_defined. intros a k.
  destruct (negb _ && _); [now exists a |].
  apply fold_opt_defined. intros a1 j.
  destruct (negb _ && _); [now exists a1 |].
  apply fold_opt_defined. intros a2 i.
  destruct (negb _ && _); [now exists a2 |].
  destruct (flt _ _); eexists; reflexivity.
Qed.

Lemma run_thread_defined (self : GaussianDensity) (nq : NeighborQuery)
  (indices : list nat) (loc : ManagedArray) :
  widths_nonzero self = true ->
  (forall point, In point (points nq) ->
                 loops_end self (getBox nq) point = true) ->
  exists loc', run_thread self nq indices loc = Some loc'.
Proof.
  intros Hw Hl. unfold run_thread. apply fold_opt_defined. intros a idx.
  destruct (nth_error (points nq) idx) as [point |] eqn:E;
    [| now exists a].
  apply deposit_defined; [exact Hw |]. apply Hl.
  eapply nth_error_In; exact E.
Qed.

Lemma map_opt_defined {A B : Type} (f : A -> option B) (l : list A) :
  (forall a, exists b, f a = Some b) -> exists bs, map_opt f l = Some bs.
Proof.
  intros H. induction l as [| a l [bs IH]]; [now exists [] |].
  cbn [map_opt]. destruct (H a) as [b ->]. rewrite IH. eexists; reflexivity.
Qed.

Lemma compute_defined (self : GaussianDensity) (nq : NeighborQuery)
  (schedule : list (list nat)) :
  widths_nonzero self = true ->
  (forall point, In point (points nq) ->
                 loops_end self (getBox nq) point = true) ->
  exists self', compute self nq schedule = Some self'.
Proof.
  intros Hw Hl. rewrite compute_density. unfold thread_arrays.
  destruct (map_opt_defined
              (fun indices =>
                 run_thread (mkDensity (getBox nq) (m_width self)
                                       (m_r_max self) (m_sigma self)
                                       (m_density_array self))
                            nq indices (zeroed self nq)) schedule)
    as [bs ->].
  - intros indices. now apply run_thread_defined.
  - eexists; reflexivity.
Qed.


(** *** The constructor *)

(** [box::Box()], the box a new object holds, and the density array as
    the class declaration leaves it before the first [compute]. *)
Variable default_box : Box.
Variable empty_array : ManagedArray.

Definition msg_r_max : string :=
  "GaussianDensity requires r_max to be positive.".

Definition new_density (width : vec3 Z) (r_max sigma : f32)
  : Debye.result GaussianDensity :=
  if fle r_max fzero
  then Debye.Throw (Debye.invalid_argument msg_r_max)
  else Debye.Ok (mkDensity default_box width r_max sigma empty_array).

(** X7. The constructor throws [std::invalid_argument] exactly when
    [r_max <= 0.0f] holds, zero of either sign included; a NaN compares
    false and is accepted, as is every width and every [sigma].  The
    object built holds the three arguments as given. *)
Theorem new_density_validation (width : vec3 Z) (r_max sigma : f32) :
  let r := new_density width r_max sigma in
  (r = Debye.Throw (Debye.invalid_argument msg_r_max) <->
   fle r_max fzero = true)
  /\ (Debye.constructed r <-> fle r_max fzero = false)
  /\ (forall o, r = Debye.Ok o ->
        m_width o = width /\ m_r_max o = r_max /\ m_sigma o = sigma)
  /\ (is_nan r_max = true -> Debye.constructed r)
  /\ (r_max = fzero \/ r_max = S754_zero true ->
      r = Debye.Throw (Debye.invalid_argument msg_r_max)).
Proof.
  cbv zeta. unfold new_density, Debye.constructed.
  destruct (fle r_max fzero) eqn:E.
  - split; [tauto |]. split; [split; [intros [o H] |]; discriminate |].
    split; [discriminate |]. split; [| reflexivity].
    destruct r_max; discriminate.
  - split; [split; discriminate |].
    split; [split; [reflexivity | intros _; eexists; reflexivity] |].
    split; [intros o [= <-]; auto |].
    split; [intros _; eexists; reflexivity |].
    intros [-> | ->]; discriminate.
Qed.

(** *** The size of the density array *)

Lemma add_nth_length (l : list f32) (n : nat) (v : f32) :
  List.length (add_nth l n v) = List.length l.
Proof.
  revert n. induction l as [| x l IH]; intros n; [reflexivity |].
  destruct n; cbn [add_nth List.length]; [reflexivity | now rewrite IH].
Qed.

(** An array of the shape [sh] with all its elements. *)
Definition has_shape (sh : Z * Z * Z) (a : ManagedArray) : Prop :=
  shape a = sh /\ List.length (data a) = size_of sh.

Lemma add_at_has_shape (sh : Z * Z * Z) (a : ManagedArray) (i j k : Z)
  (v : f32) :
  has_shape sh a -> has_shape sh (add_at a i j k v).
Proof.
  intros [Hs Hl]. unfold add_at.
  destruct (flat_index (shape a) i j k <? 0); [now split |].
  split; [exact Hs |]. cbn [data]. now rewrite add_nth_length.
Qed.

Lemma fold_left_keeps {A B : Type} (P : A -> Prop) (f : A -> B -> A)
  (l : list B) (a : A) :
  (forall a b, P a -> P (f a b)) -> P a -> P (fold_left f l a).
Proof.
  intros Hf. revert a. induction l as [| b l IH]; intros a Ha; [exact Ha |].
  cbn [fold_left]. apply IH, Hf, Ha.
Qed.

Lemma fold_opt_keeps {A B : Type} (P : A -> Prop) (f : A -> B -> option A)
  (l : list B) (a a' : A) :
  (forall a b a', P a -> f a b = Some a' -> P a') ->
  P a -> fold_opt f l a = Some a' -> P a'.
Proof.
  intros Hf. revert a. induction l as [| b l IH]; intros a Ha.
  - now intros [= <-].
  - cbn [fold_opt]. destruct (f a b) as [a1 |] eqn:E; [| discriminate].
    apply IH. exact (Hf a b a1 Ha E).
Qed.

Lemma deposit_has_shape (sh : Z * Z * Z) (self : GaussianDensity) (box : Box)
  (point : vec3 f32) (loc loc' : ManagedArray) :
  has_shape sh loc -> deposit self box point loc = Some loc' ->
  has_shape sh loc'.
Proof.
  intros H. unfold deposit.
  destruct (loop_bounds self box point) as [[bound_x bound_y] bound_z].
  destruct (int_loop (fst bound_z) (snd bound_z)) as [ks |];
    [| discriminate].
  apply fold_opt_keeps; [| exact H]. intros a k a' Ha.
  destruct (negb _ && _); [now intros [= <-] |].
  destruct (int_loop (fst bound_y) (snd bound_y)) as [js |];
    [| discriminate].
  apply fold_opt_keeps; [| exact Ha]. intros a1 j a1' Ha1.
  destruct (negb _ && _); [now intros [= <-] |].
  destruct (int_loop (fst bound_x) (snd bound_x)) as [xs |];
    [| discriminate].
  apply fold_opt_keeps; [| exact Ha1]. intros a2 i a2' Ha2.
  destruct (negb _ && _); [now intros [= <-] |].
  destruct (flt _ _); [| now intros [= <-]].
  destruct (bin_index i _); [| discriminate].
  destruct (bin_index j _); [| discriminate].
  destruct (bin_index k _); [| discriminate].
  intros [= <-]. now apply add_at_has_shape.
Qed.

Lemma run_thread_has_shape (sh : Z * Z * Z) (self : GaussianDensity)
  (nq : NeighborQuery) (indices : list nat) (loc loc' : ManagedArray) :
  has_shape sh loc -> run_thread self nq indices loc = Some loc' ->
  has_shape sh loc'.
Proof.
  intros H. unfold run_thread.
  apply fold_opt_keeps; [| exact H]. intros a idx a' Ha.
  destruct (nth_error (points nq) idx); [| now intros [= <-]].
  now apply deposit_has_shape.
Qed.

Lemma add_arrays_length (l l' : list f32) :
  List.length (add_arrays l l') = List.length l.
Proof.
  revert l'. induction l as [| x l IH]; intros l'; [reflexivity |].
  destruct l'; cbn [add_arrays List.length]; [reflexivity | now rewrite IH].
Qed.

Lemma reduceInto_has_shape (sh : Z * Z * Z) (ts : ThreadStorage)
  (a : ManagedArray) :
  has_shape sh a -> has_shape sh (reduceInto ts a).
Proof.
  intros H. unfold reduceInto.
  apply fold_left_keeps; [| exact H]. intros acc loc [Hs Hl].
  split; [exact Hs |]. cbn [data]. now rewrite add_arrays_length.
Qed.

Lemma zeroed_has_shape (self : GaussianDensity) (nq : NeighborQuery) :
  has_shape (grid_width self nq) (zeroed self nq).
Proof. split; [reflexivity | apply repeat_length]. Qed.

(** X8. Where no width is zero and no loop over the bins runs up to
    [INT_MAX], [compute] has a result; and whenever it has one, the
    density array has the width of the object along x and y and, along z,
    that width in 3D and 1 for a 2D box; it holds one element for every
    bin, whatever was deposited and however the points were split among
    the threads, and the widths of the object are as before. *)
Theorem compute_density_size (self : GaussianDensity)
  (nq : NeighborQuery) (schedule : list (list nat)) :
  (widths_nonzero self = true ->
   (forall point, In point (points nq) ->
                  loops_end self (getBox nq) point = true) ->
   exists self', compute self nq schedule = Some self')
  /\ (forall self', compute self nq schedule = Some self' ->
       shape (m_density_array self')
       = (vx (m_width self), vy (m_width self),
          if is2D (getBox nq) then 1 else vz (m_width self))
       /\ Z.of_nat (List.length (data (m_density_array self')))
          = Z.max 0 (vx (m_width self) * vy (m_width self)
                     * (if is2D (getBox nq) then 1 else vz (m_width self)))
       /\ m_width self' = m_width self).
Proof.
  split; [apply compute_defined |]. intros self'.
  rewrite compute_density.
  destruct (thread_arrays self nq schedule) as [filled |]; [| discriminate].
  intros [= <-]. cbn [m_density_array m_width].
  destruct (reduceInto_has_shape (grid_width self nq) filled _
              (zeroed_has_shape self nq)) as [Hs Hl].
  split; [exact Hs |]. split; [| reflexivity].
  rewrite Hl. unfold grid_width, size_of. lia.
Qed.

(** *** A query without points *)

Lemma add_arrays_zero (n : nat) :
  add_arrays (repeat fzero n) (repeat fzero n) = repeat fzero n.
Proof.
  induction n as [| n IH]; [reflexivity |].
  cbn [repeat add_arrays]. now rewrite IH.
Qed.

Lemma run_thread_no_points (self : GaussianDensity) (nq : NeighborQuery)
  (indices : list nat) (loc : ManagedArray) :
  points nq = [] -> run_thread self nq indices loc = Some loc.
Proof.
  intros Hp. unfold run_thread. rewrite Hp.
  induction indices as [| idx indices IH]; [reflexivity |].
  cbn [fold_opt]. destruct idx; exact IH.
Qed.

(** X9. On a query without points [compute] has a result, whatever the
    widths are, and leaves a density array of the width of the call with
    every bin at zero, whatever the object held before and for every
    number of threads. *)
Theorem compute_no_points_zero (self : GaussianDensity) (nq : NeighborQuery)
  (schedule : list (list nat)) :
  points nq = [] ->
  option_map m_density_array (compute self nq schedule)
  = Some (mkArray (grid_width self nq)
                  (repeat fzero (size_of (grid_width self nq)))).
Proof.
  intros Hp. rewrite compute_density. unfold thread_arrays.
  assert (E : map_opt
                (fun indices =>
                   run_thread (mkDensity (getBox nq) (m_width self)
                                         (m_r_max self) (m_sigma self)
                                         (m_density_array self))
                              nq indices (zeroed self nq)) schedule
              = Some (repeat (zeroed self nq) (List.length schedule))).
  { induction schedule as [| indices schedule IH]; [reflexivity |].
    cbn [map_opt List.length repeat].
    rewrite run_thread_no_points by exact Hp. now rewrite IH. }
  rewrite E. cbn [option_map m_density_array]. f_equal.
  change (mkArray (grid_width self nq)
                  (repeat fzero (size_of (grid_width self nq))))
    with (zeroed self nq).
  assert (Hstep : mkArray (shape (zeroed self nq))
                          (add_arrays (data (zeroed self nq))
                                      (data (zeroed self nq)))
                  = zeroed self nq).
  { unfold zeroed. cbn [shape data]. now rewrite add_arrays_zero. }
  generalize (List.length schedule). intros n. unfold reduceInto.
  induction n as [| n IH]; [reflexivity |].
  cbn [repeat fold_left]. rewrite Hstep. exact IH.
Qed.

End WithBox.

(** A flat box of 2 x 2 bins and a query without points: every bin is
    zero after the call, whatever the array held before. *)
Example compute_no_points :
  let self :=
    mkDensity unit tt (mkVec3 2 2 1) fone fone
              (mkArray (1, 1, 1) [fone]) in
  option_map (fun s => data (m_density_array unit s))
    (compute unit (fun _ => ftwo) (fun _ => ftwo) (fun _ => fzero)
             (fun _ => true) (fun _ => mkVec3 true true false)
             (fun _ v => v) (fun v => v) Debye.TWO_PI
             self (mkNQ unit tt []) [[]])
  = Some [fzero; fzero; fzero; fzero].
Proof. vm_compute. reflexivity. Qed.

(** [std::exp] where the examples below call it, at a zero:
    [exp(+-0) = 1]; the stand-in has no other value. *)
Definition exp_at_zero (v : f32) : f32 :=
  match v with
  | S754_zero _ => fone
  | _ => S754_nan
  end.

(** A periodic cubic box of side 2 cut into 2 x 2 x 2 bins, [r_max] 1/2
    and [sigma] 1, and five points on the centre (1/2, 1/2, 1/2) of the
    last bin: each of them deposits [1 / sqrt(2 pi)] into that bin and
    nothing elsewhere. *)
Definition compute_cube (self : GaussianDensity unit)
  (nq : NeighborQuery unit) (schedule : list (list nat))
  : option (GaussianDensity unit) :=
  compute unit (fun _ => ftwo) (fun _ => ftwo) (fun _ => ftwo)
          (fun _ => false) (fun _ => mkVec3 true true true)
          (fun _ v => v) exp_at_zero Debye.TWO_PI self nq schedule.

Definition density_cube : GaussianDensity unit :=
  mkDensity unit tt (mkVec3 2 2 2) fhalf fone (mkArray (0, 0, 0) []).

Definition five_points : NeighborQuery unit :=
  mkNQ unit tt (repeat (mkVec3 fhalf fhalf fhalf) 5).

(** One thread for the five points, or one for the first three and one for
    the other two. *)
Definition one_thread : list (list nat) := [[0; 1; 2; 3; 4]%nat].
Definition two_threads : list (list nat) := [[0; 1; 2]; [3; 4]]%nat.



(** A flat periodic box and a third width of zero: the first deposit
    takes the remainder by that width, and the call has no result. *)
Example compute_zero_width_traps :
  compute unit (fun _ => ftwo) (fun _ => ftwo) (fun _ => fzero)
          (fun _ => true) (fun _ => mkVec3 true true true)
          (fun _ v => v) exp_at_zero Debye.TWO_PI
          (mkDensity unit tt (mkVec3 2 2 0) fhalf fone (mkArray (0, 0, 0) []))
          (mkNQ unit tt [mkVec3 fhalf fhalf fzero]) [[0%nat]]
  = None.
Proof. vm_compute. reflexivity. Qed.

Lemma compute_density_size_witness :
  exists self',
    compute_cube density_cube five_points two_threads = Some self'
    /\ shape (m_density_array unit self') = (2, 2, 2)
    /\ Z.of_nat (List.length (data (m_density_array unit self'))) = 8.
Proof.
  destruct (compute_density_size unit (fun _ => ftwo) (fun _ => ftwo)
              (fun _ => ftwo) (fun _ => false)
              (fun _ => mkVec3 true true true) (fun _ v => v) exp_at_zero
              Debye.TWO_PI density_cube five_points two_threads)
    as (Hdef & Hsize).
  destruct Hdef as [self' E].
  - reflexivity.
  - intros point Hin. apply repeat_spec in Hin. subst point.
    vm_compute. reflexivity.
  - exists self'. split; [exact E |].
    destruct (Hsize self' E) as (Hs & Hl & _).
    split; [exact Hs | exact Hl].
Defined.

Lemma compute_no_points_zero_witness :
  let self :=
    mkDensity unit tt (mkVec3 2 3 4) fone fone (mkArray (1, 1, 1) [fone]) in
  option_map (m_density_array unit)
    (compute unit (fun _ => ftwo) (fun _ => ftwo) (fun _ => ftwo)
             (fun _ => false) (fun _ => mkVec3 true true true)
             (fun _ v => v) (fun v => v) Debye.TWO_PI
             self (mkNQ unit tt []) [[0%nat; 1%nat]; []])
  = Some (mkArray (2, 3, 4) (repeat fzero 24)).
Proof.
  cbv zeta.
  apply (compute_no_points_zero unit (fun _ => ftwo) (fun _ => ftwo)
           (fun _ => ftwo) (fun _ => false) (fun _ => mkVec3 true true true)
           (fun _ v => v) (fun v => v) Debye.TWO_PI
           (mkDensity unit tt (mkVec3 2 3 4) fone fone
                      (mkArray (1, 1, 1) [fone]))
           (mkNQ unit tt []) [[0%nat; 1%nat]; []]).
  reflexivity.
Defined.

End GaussianDensity.

(* ===================================================================== *)
(** ** freud.kspace *)
(* ===================================================================== *)

Module KSpace.

(** *** reciprocalLattice3D *)

Section Reciprocal.
Local Open Scope R_scope.

(** A NumPy array of three numbers. *)
Definition vec : Type := (R * R * R)%type.

Definition np_cross (a b : vec) : vec :=
  let '(a0, a1, a2) := a in
  let '(b0, b1, b2) := b in
  (a1 * b2 - a2 * b1, a2 * b0 - a0 * b2, a0 * b1 - a1 * b0).

Definition np_dot (a b : vec) : R :=
  let '(a0, a1, a2) := a in
  let '(b0, b1, b2) := b in
  a0 * b0 + a1 * b1 + a2 * b2.

(** [k * v] for a scalar [k]. *)
Definition np_scale (k : R) (v : vec) : vec :=
  let '(v0, v1, v2) := v in (k * v0, k * v1, k * v2).

Definition reciprocalLattice3D (a1 a2 a3 : vec) : vec * vec * vec :=
  let a2xa3 := np_cross a2 a3 in
  let g1 := np_scale (2 * PI / np_dot a1 a2xa3) a2xa3 in
  let a3xa1 := np_cross a3 a1 in
  let g2 := np_scale (2 * PI / np_dot a2 a3xa1) a3xa1 in
  let a1xa2 := np_cross a1 a2 in
  let g3 := np_scale (2 * PI / np_dot a3 a1xa2) a1xa2 in
  (g1, g2, g3).

(** The triple product [a1 . (a2 x a3)]. *)
Definition triple (a1 a2 a3 : vec) : R := np_dot a1 (np_cross a2 a3).

Lemma triple_cyclic (a1 a2 a3 : vec) :
  np_dot a2 (np_cross a3 a1) = triple a1 a2 a3
  /\ np_dot a3 (np_cross a1 a2) = triple a1 a2 a3.
Proof.
  destruct a1 as [[x1 y1] z1], a2 as [[x2 y2] z2], a3 as [[x3 y3] z3].
  unfold triple; cbn. split; ring.
Qed.

(** C8. For lattice vectors with a nonzero triple product the vectors
    returned are [2 pi (a2 x a3) / (a1 . (a2 x a3))] and its cyclic
    permutations, and over exact arithmetic [g_i . a_j] is [2 pi] for
    [i = j] and 0 otherwise. *)
Theorem reciprocalLattice3D_dual (a1 a2 a3 : vec) :
  triple a1 a2 a3 <> 0 ->
  let '(g1, g2, g3) := reciprocalLattice3D a1 a2 a3 in
  (g1 = np_scale (2 * PI / triple a1 a2 a3) (np_cross a2 a3)
   /\ g2 = np_scale (2 * PI / triple a1 a2 a3) (np_cross a3 a1)
   /\ g3 = np_scale (2 * PI / triple a1 a2 a3) (np_cross a1 a2))
  /\ (np_dot g1 a1 = 2 * PI /\ np_dot g1 a2 = 0 /\ np_dot g1 a3 = 0)
  /\ (np_dot g2 a1 = 0 /\ np_dot g2 a2 = 2 * PI /\ np_dot g2 a3 = 0)
  /\ (np_dot g3 a1 = 0 /\ np_dot g3 a2 = 0 /\ np_dot g3 a3 = 2 * PI).
Proof.
  intros Ht. unfold reciprocalLattice3D.
  destruct (triple_cyclic a1 a2 a3) as [E2 E3].
  rewrite E2, E3. fold (triple a1 a2 a3).
  split; [repeat split |].
  revert Ht. generalize (2 * PI).
  destruct a1 as [[x1 y1] z1], a2 as [[x2 y2] z2], a3 as [[x3 y3] z3].
  unfold triple; cbn. intros t Ht.
  repeat split; field; exact Ht.
Qed.

(** A sheared cell. *)
Definition cell_a1 : vec := (2, 0, 0).
Definition cell_a2 : vec := (1, 3, 0).
Definition cell_a3 : vec := (0, 1, 1).

Lemma reciprocalLattice3D_dual_witness :
  triple cell_a1 cell_a2 cell_a3 = 6
  /\ let '(g1, g2, g3) := reciprocalLattice3D cell_a1 cell_a2 cell_a3 in
     (np_dot g1 cell_a1 = 2 * PI /\ np_dot g1 cell_a2 = 0
      /\ np_dot g1 cell_a3 = 0)
     /\ (np_dot g2 cell_a1 = 0 /\ np_dot g2 cell_a2 = 2 * PI
         /\ np_dot g2 cell_a3 = 0)
     /\ (np_dot g3 cell_a1 = 0 /\ np_dot g3 cell_a2 = 0
         /\ np_dot g3 cell_a3 = 2 * PI).
Proof.
  assert (Ht : triple cell_a1 cell_a2 cell_a3 = 6)
    by (unfold triple; cbn; ring).
  split; [exact Ht |].
  assert (Hne : triple cell_a1 cell_a2 cell_a3 <> 0) by (rewrite Ht; lra).
  exact (proj2 (reciprocalLattice3D_dual cell_a1 cell_a2 cell_a3 Hne)).
Defined.

End Reciprocal.

(** *** SingleCell3D: the particle-type registry *)

Section Registry.
Import Py Py.Notations.
Local Open Scope Z_scope.

(** The Python values the per-type lists hold: [None], numbers, names,
    form-factor objects (told apart by identity) and NumPy arrays of so
    many rows. *)
Inductive pyval : Type :=
| PyNone
| PyInt (n : Z)
| PyFloat (q : Q)
| PyStr (s : string)
| PyObject (id : nat)
| PyArray (rows : nat).

(** The truth value of [v == i] for an [int] [i]. *)
Definition eq_int (v : pyval) (i : Z) : outcome bool :=
  match v with
  | PyInt n => Return (n =? i)
  | PyFloat q => Return (Qeq_bool q (inject_Z i))
  | PyArray (S _) =>
      Raise (ValueError "The truth value of an array with more than one element is ambiguous. Use a.any() or a.all()")
  | _ => Return false
  end.

(** [l.remove(i)]: drops the first element equal to [i]. *)
Fixpoint list_remove (l : list pyval) (i : Z) : outcome (list pyval) :=
  match l with
  | [] => Raise (ValueError "list.remove(x): x not in list")
  | v :: l' =>
      match eq_int v i with
      | Return true => Return l'
      | Return false =>
          match list_remove l' i with
          | Return r => Return (v :: r)
          | Raise e => Raise e
          end
      | Raise e => Raise e
      end
  end.

(** [repr(s)] for a [str] whose characters lie below U+0100, one to a
    character of the string.  The text is put in single quotes, or in
    double quotes when it holds a single quote and no double quote; the
    quote in use and the backslash are escaped by a backslash; tab,
    newline and carriage return are written [\t], [\n] and [\r]; every
    other character that is not printable (the control characters, the
    no-break space and the soft hyphen) is written [\x] and two
    hexadecimal digits. *)
Definition double_quote : ascii := ascii_of_nat 34.
Definition backslash : ascii := ascii_of_nat 92.

Definition hex_digit (n : nat) : ascii :=
  match nth_error (list_ascii_of_string "0123456789abcdef") n with
  | Some c => c
  | None => "0"%char
  end.

Definition printable (n : nat) : bool :=
  negb ((n <? 32) || (n =? 127) || ((128 <=? n) && (n <=? 160))
        || (n =? 173))%nat.

Definition repr_char (quote c : ascii) : string :=
  let n := nat_of_ascii c in
  if Ascii.eqb c quote || Ascii.eqb c backslash
  then String backslash (String c "")
  else if (n =? 9)%nat then String backslash "t"
  else if (n =? 10)%nat then String backslash "n"
  else if (n =? 13)%nat then String backslash "r"
  else if printable n then String c ""
  else String backslash
         (String "x" (String (hex_digit (n / 16))
                             (String (hex_digit (n mod 16)) ""))).

Fixpoint contains (c : ascii) (s : string) : bool :=
  match s with
  | EmptyString => false
  | String c' s' => Ascii.eqb c c' || contains c s'
  end.

Fixpoint repr_chars (quote : ascii) (s : string) : string :=
  match s with
  | EmptyString => ""
  | String c s' => repr_char quote c ++ repr_chars quote s'
  end.

Definition py_repr (s : string) : string :=
  let quote :=
    if contains "'" s && negb (contains double_quote s)
    then double_quote else "'"%char in
  String quote (repr_chars quote s ++ String quote "").

(** [names.index(name)]. *)
Fixpoint list_index (names : list string) (name : string) : outcome Z :=
  match names with
  | [] => Raise (ValueError (py_repr name ++ " is not in list"))
  | n :: names' =>
      if String.eqb n name then Return 0
      else match list_index names' name with
           | Return k => Return (k + 1)
           | Raise e => Raise e
           end
  end.

Record SingleCell3D : Type := mkCell {
  FT_valid : bool;
  ptype_name : list string;
  ptype_position : list pyval;
  ptype_orientation : list pyval;
  ptype_ff : list pyval;
  ptype_param : list (string * list pyval);
  ptype_param_methods : list pyval;
  active_types : list Z
}.

(** The registry part of [__init__]. *)
Definition init_registry : SingleCell3D :=
  mkCell false [] [] [] [] [] [] [].

Definition set_FT_valid (b : bool) : M SingleCell3D unit :=
  fun c => (Return tt,
            mkCell b (ptype_name c) (ptype_position c) (ptype_orientation c)
                   (ptype_ff c) (ptype_param c) (ptype_param_methods c)
                   (active_types c)).

Definition set_ptype_name (l : list string) : M SingleCell3D unit :=
  fun c => (Return tt,
            mkCell (FT_valid c) l (ptype_position c) (ptype_orientation c)
                   (ptype_ff c) (ptype_param c) (ptype_param_methods c)
                   (active_types c)).

Definition set_ptype_position (l : list pyval) : M SingleCell3D unit :=
  fun c => (Return tt,
            mkCell (FT_valid c) (ptype_name c) l (ptype_orientation c)
                   (ptype_ff c) (ptype_param c) (ptype_param_methods c)
                   (active_types c)).

Definition set_ptype_orientation (l : list pyval) : M SingleCell3D unit :=
  fun c => (Return tt,
            mkCell (FT_valid c) (ptype_name c) (ptype_position c) l
                   (ptype_ff c) (ptype_param c) (ptype_param_methods c)
                   (active_types c)).

Definition set_ptype_ff (l : list pyval) : M SingleCell3D unit :=
  fun c => (Return tt,
            mkCell (FT_valid c) (ptype_name c) (ptype_position c)
                   (ptype_orientation c) l (ptype_param c)
                   (ptype_param_methods c) (active_types c)).

Definition set_ptype_param (d : list (string * list pyval))
  : M SingleCell3D unit :=
  fun c => (Return tt,
            mkCell (FT_valid c) (ptype_name c) (ptype_position c)
                   (ptype_orientation c) (ptype_ff c) d
                   (ptype_param_methods c) (active_types c)).

Definition set_ptype_param_methods (l : list pyval) : M SingleCell3D unit :=
  fun c => (Return tt,
            mkCell (FT_valid c) (ptype_name c) (ptype_position c)
                   (ptype_orientation c) (ptype_ff c) (ptype_param c) l
                   (active_types c)).

Definition set_active_types (a : list Z) : M SingleCell3D unit :=
  fun c => (Return tt,
            mkCell (FT_valid c) (ptype_name c) (ptype_position c)
                   (ptype_orientation c) (ptype_ff c) (ptype_param c)
                   (ptype_param_methods c) a).

(** An outcome computed on the side, brought into the method body. *)
Definition lift {A : Type} (o : outcome A) : M SingleCell3D A :=
  fun c => (o, c).

(** The set of active types, kept as a list without repetition. *)
Definition set_mem (i : Z) (a : list Z) : bool := existsb (Z.eqb i) a.
Definition set_discard (i : Z) (a : list Z) : list Z :=
  filter (fun j => negb (j =? i)) a.
Definition set_add (i : Z) (a : list Z) : list Z :=
  if set_mem i a then a else a ++ [i].

(** [d[key] = l] on a dict that has the key. *)
Fixpoint dict_update (d : list (string * list pyval)) (key : string)
  (l : list pyval) : list (string * list pyval) :=
  match d with
  | [] => []
  | (k, v) :: d' =>
      if String.eqb k key then (k, l) :: d'
      else (k, v) :: dict_update d' key l
  end.

Fixpoint dict_get (d : list (string * list pyval)) (key : string)
  : outcome (list pyval) :=
  match d with
  | [] => Raise (KeyError key)
  | (k, v) :: d' => if String.eqb k key then Return v else dict_get d' key
  end.

Definition add_ptype (name : string) : M SingleCell3D unit :=
  self <- get ;;
  if existsb (String.eqb name) (ptype_name self)
  then raise (ValueError (name ++ " already exists"))
  else
    set_ptype_name (ptype_name self ++ [name]) ;;;
    set_ptype_position (ptype_position self ++ [PyArray 0]) ;;;
    set_ptype_orientation (ptype_orientation self ++ [PyArray 0]) ;;;
    set_ptype_ff (ptype_ff self ++ [PyNone]) ;;;
    for_each (map fst (ptype_param self)) (fun param =>
      self <- get ;;
      l <- lift (dict_get (ptype_param self) param) ;;
      set_ptype_param (dict_update (ptype_param self) param (l ++ [PyNone]))).

Definition remove_ptype (name : string) : M SingleCell3D unit :=
  self <- get ;;
  i <- lift (list_index (ptype_name self) name) ;;
  (if set_mem i (active_types self)
   then set_active_types (set_discard i (active_types self))
   else ret tt) ;;;
  for_each (map fst (ptype_param self)) (fun param =>
    self <- get ;;
    l <- lift (dict_get (ptype_param self) param) ;;
    l' <- lift (list_remove l i) ;;
    set_ptype_param (dict_update (ptype_param self) param l')) ;;;
  self <- get ;;
  l <- lift (list_remove (ptype_param_methods self) i) ;;
  set_ptype_param_methods l ;;;
  self <- get ;;
  l <- lift (list_remove (ptype_ff self) i) ;;
  set_ptype_ff l ;;;
  self <- get ;;
  l <- lift (list_remove (ptype_orientation self) i) ;;
  set_ptype_orientation l ;;;
  self <- get ;;
  l <- lift (list_remove (ptype_position self) i) ;;
  set_ptype_position l ;;;
  self <- get ;;
  l <- lift (list_remove (map PyStr (ptype_name self)) i) ;;
  set_ptype_name (flat_map (fun v => match v with PyStr n => [n] | _ => [] end)
                           l) ;;;
  self <- get ;;
  if set_mem i (active_types self) then set_FT_valid false else ret tt.

Definition set_active (name : string) : M SingleCell3D unit :=
  self <- get ;;
  i <- lift (list_index (ptype_name self) name) ;;
  if negb (set_mem i (active_types self))
  then set_active_types (set_add i (active_types self)) ;;;
       set_FT_valid false
  else ret tt.

(** *** What [remove_ptype] does *)

(** The lists the method has not reached yet. *)
Definition same_lists (c c' : SingleCell3D) : Prop :=
  ptype_name c' = ptype_name c
  /\ ptype_position c' = ptype_position c
  /\ ptype_orientation c' = ptype_orientation c
  /\ ptype_ff c' = ptype_ff c
  /\ ptype_param_methods c' = ptype_param_methods c.

Lemma same_lists_refl (c : SingleCell3D) : same_lists c c.
Proof. repeat split. Qed.

Lemma same_lists_trans (c1 c2 c3 : SingleCell3D) :
  same_lists c1 c2 -> same_lists c2 c3 -> same_lists c1 c3.
Proof.
  unfold same_lists. intros (?&?&?&?&?) (?&?&?&?&?).
  repeat split; congruence.
Qed.

(** The loop over the parameter lists touches [ptype_param] only. *)
Lemma param_loop_same_lists (i : Z) (keys : list string)
  (c : SingleCell3D) :
  same_lists c
    (snd (for_each keys (fun param =>
            self <- get ;;
            l <- lift (dict_get (ptype_param self) param) ;;
            l' <- lift (list_remove l i) ;;
            set_ptype_param (dict_update (ptype_param self) param l')) c)).
Proof.
  revert c. induction keys as [| k keys IH]; intros c;
    [apply same_lists_refl |].
  cbn [for_each]. unfold bind at 1.
  match goal with
  | |- context [match ?body c with _ => _ end] =>
      assert (Hb : same_lists c (snd (body c)));
      [| destruct (body c) as [[[] | e] c1] ]
  end.
  - unfold bind, get, lift, set_ptype_param.
    destruct (dict_get (ptype_param c) k) as [l | e];
      [| apply same_lists_refl].
    destruct (list_remove l i) as [l' | e]; repeat split.
  - cbn [snd] in Hb. eapply same_lists_trans; [exact Hb | apply IH].
  - exact Hb.
Qed.

(** No object of the class ever gets an entry in [ptype_param_methods];
    [remove_ptype] then raises on every call, whether or not the name is
    registered, and leaves the name, position, orientation and
    form-factor lists as they were. *)
Lemma remove_ptype_raises (name : string) (c : SingleCell3D) :
  ptype_param_methods c = [] ->
  exists e c', remove_ptype name c = (Raise e, c') /\ same_lists c c'.
Proof.
  intros Hm. unfold remove_ptype.
  unfold bind at 1, get at 1. unfold bind at 1, lift at 1.
  destruct (list_index (ptype_name c) name) as [i | e].
  2: { exists e, c. split; [reflexivity | apply same_lists_refl]. }
  unfold bind at 1.
  match goal with
  | |- context [match ?act c with _ => _ end] =>
      assert (Ha : fst (act c) = Return tt /\ same_lists c (snd (act c)))
  end.
  { destruct (set_mem i (active_types c)); repeat split. }
  match goal with
  | |- context [match ?act c with _ => _ end] =>
      destruct (act c) as [oa c1]
  end.
  cbn [fst snd] in Ha. destruct Ha as [-> Hc1].
  unfold bind at 1.
  pose proof (param_loop_same_lists i (map fst (ptype_param c)) c1) as Hl.
  match goal with
  | |- context [match ?loop c1 with _ => _ end] =>
      destruct (loop c1) as [[[] | e] c2]
  end; cbn [snd] in Hl.
  - unfold bind at 1, get at 1. unfold bind at 1, lift at 1.
    assert (Hm2 : ptype_param_methods c2 = []).
    { destruct Hc1 as (_&_&_&_&H1), Hl as (_&_&_&_&H2). congruence. }
    rewrite Hm2. cbn [list_remove].
    eexists _, c2. split; [reflexivity |].
    eapply same_lists_trans; eassumption.
  - exists e, c2. split; [reflexivity |].
    eapply same_lists_trans; eassumption.
Qed.

Lemma add_ptype_methods (name : string) (c : SingleCell3D) :
  ptype_param_methods c = [] ->
  ptype_param_methods (snd (add_ptype name c)) = [].
Proof.
  intros Hm. unfold add_ptype. unfold bind at 1, get at 1.
  destruct (existsb (String.eqb name) (ptype_name c)); [exact Hm |].
  unfold bind at 1, set_ptype_name at 1.
  unfold bind at 1, set_ptype_position at 1.
  unfold bind at 1, set_ptype_orientation at 1.
  unfold bind at 1, set_ptype_ff at 1.
  cbn [ptype_name ptype_position ptype_orientation ptype_ff ptype_param
       ptype_param_methods active_types FT_valid].
  match goal with
  | |- ptype_param_methods (snd (for_each ?keys ?body ?c0)) = [] =>
      assert (H0 : ptype_param_methods c0 = []) by exact Hm;
      generalize dependent c0; generalize keys
  end.
  intros keys. induction keys as [| k keys IH]; intros c0 H0; [exact H0 |].
  cbn [for_each]. unfold bind at 1.
  match goal with
  | |- context [match ?body c0 with _ => _ end] =>
      assert (Hb : ptype_param_methods (snd (body c0)) = []);
      [| destruct (body c0) as [[[] | e] c1] ]
  end.
  - unfold bind, get, lift, set_ptype_param.
    destruct (dict_get (ptype_param c0) k) as [l | e]; exact H0.
  - apply IH. exact Hb.
  - exact Hb.
Qed.

(** A cell with the one type "A", as [add_ptype] leaves it. *)
Definition cell_A : SingleCell3D := snd (add_ptype "A" init_registry).

(** Types "A" and "B", the second one active, with the parameter list
    [radius = [1, 0]]. *)
Definition cell_AB : SingleCell3D :=
  mkCell true ["A"%string; "B"%string]
         [PyArray 0; PyArray 0] [PyArray 0; PyArray 0]
         [PyObject 0; PyObject 1]
         [("radius"%string, [PyFloat 1; PyFloat 0])] [] [1].

(** C6, on the code.  Removing the registered type "A" raises
    [ValueError] from [ptype_param_methods.remove(i)] and the type keeps
    all its entries; where there is a parameter list, [remove(i)] has first
    dropped the entry whose value equals the index: here the radius 0 of
    "B" for the index 0 of "A". *)
Theorem remove_ptype_keeps_the_type :
  remove_ptype "A" cell_A
  = (Raise (ValueError "list.remove(x): x not in list"), cell_A)
  /\ ptype_name cell_A = ["A"%string]
  /\ (let '(r, c') := remove_ptype "A" cell_AB in
      r = Raise (ValueError "list.remove(x): x not in list")
      /\ ptype_name c' = ["A"%string; "B"%string]
      /\ ptype_ff c' = [PyObject 0; PyObject 1]
      /\ ptype_param c' = [("radius"%string, [PyFloat 1])]).
Proof. vm_compute. repeat split. Qed.

(** *** Adding types and switching them on and off *)

Definition set_inactive (name : string) : M SingleCell3D unit :=
  self <- get ;;
  i <- lift (list_index (ptype_name self) name) ;;
  if set_mem i (active_types self)
  then set_active_types (set_discard i (active_types self)) ;;;
       set_FT_valid false
  else ret tt.

(** The message of [list.index] quotes the name the way [repr] does. *)
Example py_repr_names :
  py_repr "A" = "'A'"%string
  /\ py_repr "it's"
     = String double_quote ("it's" ++ String double_quote "")
  /\ py_repr (String backslash "n") = "'\\n'"%string
  /\ py_repr (String (ascii_of_nat 10) "") = "'\n'"%string
  /\ py_repr (String (ascii_of_nat 1) "") = "'\x01'"%string.
Proof. repeat split. Qed.

(** [list_index] finds the names of the list, and only these. *)
Lemma list_index_not_in (names : list string) (name : string) :
  existsb (String.eqb name) names = false ->
  list_index names name = Raise (ValueError (py_repr name ++ " is not in list")).
Proof.
  induction names as [| n names IH]; [reflexivity |].
  cbn [existsb list_index]. rewrite orb_false_iff. intros [Hn Hr].
  rewrite String.eqb_sym, Hn, IH by exact Hr. reflexivity.
Qed.

Lemma list_index_app_new (names : list string) (name : string) :
  existsb (String.eqb name) names = false ->
  list_index (names ++ [name]) name = Return (Z.of_nat (List.length names)).
Proof.
  induction names as [| n names IH].
  - intros _. cbn. now rewrite String.eqb_refl.
  - cbn [existsb app list_index List.length]. rewrite orb_false_iff.
    intros [Hn Hr]. rewrite String.eqb_sym, Hn, IH by exact Hr.
    f_equal. lia.
Qed.

Lemma list_index_range (names : list string) (name : string) (i : Z) :
  list_index names name = Return i ->
  0 <= i < Z.of_nat (List.length names)
  /\ nth_error names (Z.to_nat i) = Some name.
Proof.
  revert i. induction names as [| n names IH]; intros i; [discriminate |].
  cbn [list_index List.length].
  destruct (String.eqb_spec n name) as [-> | Hne].
  - intros [= <-]. split; [lia | reflexivity].
  - destruct (list_index names name) as [k | e]; [| discriminate].
    intros [= <-]. destruct (IH k eq_refl) as [Hk Hn].
    split; [lia |].
    replace (Z.to_nat (k + 1)) with (S (Z.to_nat k)) by lia. exact Hn.
Qed.

(** The loop of [add_ptype] over the parameter lists: with the keys of a
    dict, which are distinct, every list gets one [None] more. *)
Lemma add_ptype_param_loop (done todo : list (string * list pyval))
  (c : SingleCell3D) :
  NoDup (map fst (done ++ todo)) ->
  ptype_param c = done ++ todo ->
  for_each (map fst todo) (fun param =>
    self <- get ;;
    l <- lift (dict_get (ptype_param self) param) ;;
    set_ptype_param (dict_update (ptype_param self) param (l ++ [PyNone]))) c
  = (Return tt,
     mkCell (FT_valid c) (ptype_name c) (ptype_position c)
            (ptype_orientation c) (ptype_ff c)
            (done ++ map (fun kv => (fst kv, snd kv ++ [PyNone])) todo)
            (ptype_param_methods c) (active_types c)).
Proof.
  revert done c. induction todo as [| [k v] todo IH]; intros done c Hnd Hp.
  - cbn [map for_each]. unfold ret. rewrite <- Hp. now destruct c.
  - cbn [map for_each fst snd].
    assert (Hget : forall d' : list (string * list pyval),
              ~ In k (map fst d') ->
              forall rest,
                dict_get (d' ++ (k, v) :: rest) k = Return v
                /\ forall l, dict_update (d' ++ (k, v) :: rest) k l
                             = d' ++ (k, l) :: rest).
    { induction d' as [| [k' v'] d' IHd]; intros Hk rest.
      - cbn. rewrite String.eqb_refl. auto.
      - cbn [app dict_get dict_update].
        destruct (String.eqb_spec k' k) as [-> | Hne];
          [elim Hk; now left |].
        destruct (IHd (fun H => Hk (or_intror H)) rest) as [G U].
        split; [exact G | intros l; now rewrite U]. }
    assert (Hk : ~ In k (map fst done)).
    { rewrite map_app in Hnd. cbn [map fst] in Hnd.
      apply NoDup_remove_2 in Hnd. intros H. apply Hnd.
      apply in_or_app. now left. }
    destruct (Hget done Hk todo) as [G U].
    unfold bind at 1. unfold bind at 1, get at 1. unfold bind at 1, lift at 1.
    rewrite Hp, G. unfold set_ptype_param at 1. rewrite U.
    rewrite (IH (done ++ [(k, v ++ [PyNone])])).
    + cbn [FT_valid ptype_name ptype_position ptype_orientation ptype_ff
           ptype_param_methods active_types].
      rewrite <- app_assoc. reflexivity.
    + rewrite <- app_assoc. cbn [app].
      rewrite map_app in Hnd |- *. exact Hnd.
    + cbn [ptype_param]. rewrite <- app_assoc. reflexivity.
Qed.

Lemma add_ptype_run (name : string) (c : SingleCell3D) :
  NoDup (map fst (ptype_param c)) ->
  add_ptype name c
  = if existsb (String.eqb name) (ptype_name c)
    then (Raise (ValueError (name ++ " already exists")), c)
    else (Return tt,
          mkCell (FT_valid c) (ptype_name c ++ [name])
                 (ptype_position c ++ [PyArray 0])
                 (ptype_orientation c ++ [PyArray 0])
                 (ptype_ff c ++ [PyNone])
                 (map (fun kv => (fst kv, snd kv ++ [PyNone])) (ptype_param c))
                 (ptype_param_methods c) (active_types c)).
Proof.
  intros Hnd. unfold add_ptype. unfold bind at 1, get at 1.
  destruct (existsb (String.eqb name) (ptype_name c)); [reflexivity |].
  unfold bind at 1, set_ptype_name at 1.
  unfold bind at 1, set_ptype_position at 1.
  unfold bind at 1, set_ptype_orientation at 1.
  unfold bind at 1, set_ptype_ff at 1.
  cbn [ptype_name ptype_position ptype_orientation ptype_ff ptype_param
       ptype_param_methods active_types FT_valid].
  rewrite (add_ptype_param_loop [] (ptype_param c)); [reflexivity | |];
    [exact Hnd | reflexivity].
Qed.

(** X10. [add_ptype] raises [ValueError] on a name the registry holds and
    changes nothing then.  A new name goes to the end of the list of names
    and gets an empty position array, an empty orientation array, no form
    factor and [None] in every parameter list; the type is found under the
    index that was the number of types before, and no type becomes active
    or inactive. *)
Theorem add_ptype_appends (name : string) (c : SingleCell3D) :
  NoDup (map fst (ptype_param c)) ->
  (existsb (String.eqb name) (ptype_name c) = true ->
   add_ptype name c = (Raise (ValueError (name ++ " already exists")), c))
  /\ (existsb (String.eqb name) (ptype_name c) = false ->
      add_ptype name c
      = (Return tt,
         mkCell (FT_valid c) (ptype_name c ++ [name])
                (ptype_position c ++ [PyArray 0])
                (ptype_orientation c ++ [PyArray 0])
                (ptype_ff c ++ [PyNone])
                (map (fun kv => (fst kv, snd kv ++ [PyNone])) (ptype_param c))
                (ptype_param_methods c) (active_types c))
      /\ list_index (ptype_name (snd (add_ptype name c))) name
         = Return (Z.of_nat (List.length (ptype_name c)))).
Proof.
  intros Hnd. rewrite (add_ptype_run name c Hnd).
  split; intros H; rewrite H; [reflexivity |].
  split; [reflexivity |]. cbn [snd ptype_name].
  now apply list_index_app_new.
Qed.

(** The registry as the methods keep it: the names are distinct, every
    per-type list has one entry for every name, the keys of the parameter
    dict are distinct, and the active set holds indices of names, each
    once. *)
Definition registry_ok (c : SingleCell3D) : Prop :=
  let n := List.length (ptype_name c) in
  NoDup (ptype_name c)
  /\ List.length (ptype_position c) = n
  /\ List.length (ptype_orientation c) = n
  /\ List.length (ptype_ff c) = n
  /\ NoDup (map fst (ptype_param c))
  /\ Forall (fun kv => List.length (snd kv) = n) (ptype_param c)
  /\ NoDup (active_types c)
  /\ Forall (fun i => 0 <= i < Z.of_nat n) (active_types c)
  /\ ptype_param_methods c = [].

Lemma existsb_eqb_In (name : string) (names : list string) :
  existsb (String.eqb name) names = true <-> In name names.
Proof.
  rewrite existsb_exists. split.
  - intros (n & Hin & E%String.eqb_eq). now subst.
  - intros H. exists name. split; [exact H | apply String.eqb_refl].
Qed.

Lemma set_mem_In (i : Z) (a : list Z) : set_mem i a = true <-> In i a.
Proof.
  unfold set_mem. rewrite existsb_exists. split.
  - intros (j & Hin & E%Z.eqb_eq). now subst.
  - intros H. exists i. split; [exact H | apply Z.eqb_refl].
Qed.

Lemma set_discard_In (i j : Z) (a : list Z) :
  In j (set_discard i a) <-> In j a /\ j <> i.
Proof.
  unfold set_discard. rewrite filter_In, negb_true_iff, Z.eqb_neq.
  reflexivity.
Qed.

Lemma set_discard_add (i : Z) (a : list Z) :
  set_mem i a = false -> set_discard i (set_add i a) = a.
Proof.
  intros H. unfold set_add. rewrite H. unfold set_discard.
  rewrite filter_app. cbn [filter]. rewrite Z.eqb_refl. cbn [negb].
  rewrite app_nil_r.
  induction a as [| j a IH]; [reflexivity |].
  cbn [set_mem existsb] in H. apply orb_false_iff in H as [Hj Ha].
  cbn [filter]. rewrite Z.eqb_sym, Hj. cbn [negb]. f_equal. now apply IH.
Qed.

Lemma add_ptype_ok (name : string) (c : SingleCell3D) :
  registry_ok c -> registry_ok (snd (add_ptype name c)).
Proof.
  intros Hok.
  destruct Hok as (Hn & Hp & Ho & Hf & Hk & Hl & Ha & Hi & Hm).
  rewrite (add_ptype_run name c Hk).
  destruct (existsb (String.eqb name) (ptype_name c)) eqn:E.
  - cbn [snd]. repeat split; assumption.
  - cbn [snd]. unfold registry_ok.
    cbn [ptype_name ptype_position ptype_orientation ptype_ff ptype_param
         ptype_param_methods active_types].
    rewrite !length_app. cbn [List.length].
    split.
    { apply NoDup_app; [exact Hn | repeat constructor; intros [] |].
      intros x Hx [<- | []].
      apply existsb_eqb_In in Hx. congruence. }
    split; [lia |]. split; [lia |]. split; [lia |].
    split; [now rewrite map_map |].
    split.
    { apply Forall_map. eapply Forall_impl; [| exact Hl].
      intros [k v] H. cbn [fst snd] in *. rewrite length_app. cbn. lia. }
    split; [exact Ha |]. split; [| exact Hm].
    eapply Forall_impl; [| exact Hi]. cbn beta. intros i H. lia.
Qed.

Lemma set_active_run (name : string) (c : SingleCell3D) :
  set_active name c
  = match list_index (ptype_name c) name with
    | Raise e => (Raise e, c)
    | Return i =>
        if set_mem i (active_types c) then (Return tt, c)
        else (Return tt,
              mkCell false (ptype_name c) (ptype_position c)
                     (ptype_orientation c) (ptype_ff c) (ptype_param c)
                     (ptype_param_methods c) (set_add i (active_types c)))
    end.
Proof.
  unfold set_active. unfold bind at 1, get at 1. unfold bind at 1, lift at 1.
  destruct (list_index (ptype_name c) name) as [i | e]; [| reflexivity].
  destruct (set_mem i (active_types c)); reflexivity.
Qed.

Lemma set_inactive_run (name : string) (c : SingleCell3D) :
  set_inactive name c
  = match list_index (ptype_name c) name with
    | Raise e => (Raise e, c)
    | Return i =>
        if set_mem i (active_types c)
        then (Return tt,
              mkCell false (ptype_name c) (ptype_position c)
                     (ptype_orientation c) (ptype_ff c) (ptype_param c)
                     (ptype_param_methods c)
                     (set_discard i (active_types c)))
        else (Return tt, c)
    end.
Proof.
  unfold set_inactive. unfold bind at 1, get at 1.
  unfold bind at 1, lift at 1.
  destruct (list_index (ptype_name c) name) as [i | e]; [| reflexivity].
  destruct (set_mem i (active_types c)); reflexivity.
Qed.

(** X11. [set_active] and [set_inactive] raise [ValueError] on a name that
    is not registered and change nothing.  On a registered type that is
    not active, [set_active] puts its index into the active set and
    invalidates the transform; a second call changes nothing;
    [set_inactive] then gives back the active set there was, the
    transform staying invalid, and the per-type lists are those of the
    start throughout. *)
Theorem set_active_set_inactive (name : string) (c : SingleCell3D) :
  (existsb (String.eqb name) (ptype_name c) = false ->
   set_active name c
   = (Raise (ValueError (py_repr name ++ " is not in list")), c)
   /\ set_inactive name c
      = (Raise (ValueError (py_repr name ++ " is not in list")), c))
  /\ (forall i,
        list_index (ptype_name c) name = Return i ->
        set_mem i (active_types c) = false ->
        let c1 := snd (set_active name c) in
        let c2 := snd (set_inactive name c1) in
        set_inactive name c = (Return tt, c)
        /\ fst (set_active name c) = Return tt
        /\ set_mem i (active_types c1) = true
        /\ FT_valid c1 = false
        /\ set_active name c1 = (Return tt, c1)
        /\ fst (set_inactive name c1) = Return tt
        /\ active_types c2 = active_types c
        /\ FT_valid c2 = false
        /\ same_lists c c2
        /\ ptype_param c2 = ptype_param c
        /\ set_inactive name c2 = (Return tt, c2)).
Proof.
  split.
  - intros H. rewrite set_active_run, set_inactive_run.
    now rewrite (list_index_not_in _ _ H).
  - intros i Hi Hm. cbv zeta.
    set (c1 := mkCell false (ptype_name c) (ptype_position c)
                      (ptype_orientation c) (ptype_ff c) (ptype_param c)
                      (ptype_param_methods c) (set_add i (active_types c))).
    set (c2 := mkCell false (ptype_name c) (ptype_position c)
                      (ptype_orientation c) (ptype_ff c) (ptype_param c)
                      (ptype_param_methods c) (active_types c)).
    assert (E0 : set_inactive name c = (Return tt, c)).
    { now rewrite set_inactive_run, Hi, Hm. }
    assert (E1 : set_active name c = (Return tt, c1)).
    { now rewrite set_active_run, Hi, Hm. }
    assert (Hin : set_mem i (active_types c1) = true).
    { cbn [c1 active_types]. unfold set_add. rewrite Hm. unfold set_mem.
      rewrite existsb_app. cbn. rewrite Z.eqb_refl. apply orb_true_r. }
    assert (E2 : set_active name c1 = (Return tt, c1)).
    { rewrite set_active_run. change (ptype_name c1) with (ptype_name c).
      now rewrite Hi, Hin. }
    assert (E3 : set_inactive name c1 = (Return tt, c2)).
    { rewrite set_inactive_run. change (ptype_name c1) with (ptype_name c).
      rewrite Hi, Hin. cbn [c1 active_types]. 
      rewrite set_discard_add by exact Hm. reflexivity. }
    assert (E4 : set_inactive name c2 = (Return tt, c2)).
    { rewrite set_inactive_run. change (ptype_name c2) with (ptype_name c).
      change (active_types c2) with (active_types c).
      now rewrite Hi, Hm. }
    rewrite E1. cbn [fst snd]. rewrite E3. cbn [fst snd].
    repeat split; try reflexivity; assumption.
Qed.

Lemma set_active_ok (name : string) (c : SingleCell3D) :
  registry_ok c -> registry_ok (snd (set_active name c)).
Proof.
  intros Hok. rewrite set_active_run.
  destruct (list_index (ptype_name c) name) as [i | e] eqn:Hi;
    [| exact Hok].
  destruct (set_mem i (active_types c)) eqn:Hm; [exact Hok |].
  destruct Hok as (Hn & Hp & Ho & Hf & Hk & Hl & Ha & Hr & Hms).
  cbn [snd]. unfold registry_ok.
  cbn [ptype_name ptype_position ptype_orientation ptype_ff ptype_param
       ptype_param_methods active_types].
  repeat (split; [assumption |]).
  unfold set_add. rewrite Hm.
  split; [| split; [| exact Hms]].
  - apply NoDup_app; [exact Ha | repeat constructor; intros [] |].
    intros x Hx [<- | []]. apply set_mem_In in Hx. congruence.
  - apply Forall_app. split; [exact Hr |]. constructor; [| constructor].
    now apply list_index_range in Hi as [Hi _].
Qed.

Lemma set_inactive_ok (name : string) (c : SingleCell3D) :
  registry_ok c -> registry_ok (snd (set_inactive name c)).
Proof.
  intros Hok. rewrite set_inactive_run.
  destruct (list_index (ptype_name c) name) as [i | e] eqn:Hi;
    [| exact Hok].
  destruct (set_mem i (active_types c)) eqn:Hm; [| exact Hok].
  destruct Hok as (Hn & Hp & Ho & Hf & Hk & Hl & Ha & Hr & Hms).
  cbn [snd]. unfold registry_ok.
  cbn [ptype_name ptype_position ptype_orientation ptype_ff ptype_param
       ptype_param_methods active_types].
  repeat (split; [assumption |]).
  split; [| split; [| exact Hms]].
  - unfold set_discard. now apply NoDup_filter.
  - apply Forall_forall. intros j Hj. apply set_discard_In in Hj as [Hj _].
    rewrite Forall_forall in Hr. now apply Hr.
Qed.

Lemma fold_left_invariant {A B : Type} (P : A -> Prop) (f : A -> B -> A)
  (l : list B) (a : A) :
  (forall a b, P a -> P (f a b)) -> P a -> P (fold_left f l a).
Proof.
  intros Hf. revert a. induction l as [| b l IH]; intros a Ha; [exact Ha |].
  cbn [fold_left]. apply IH, Hf, Ha.
Qed.

(** The calls that build up a registry. *)
Inductive registry_call : Type :=
| AddPtype (name : string)
| SetActive (name : string)
| SetInactive (name : string).

Definition run_call (c : SingleCell3D) (call : registry_call)
  : SingleCell3D :=
  match call with
  | AddPtype name => snd (add_ptype name c)
  | SetActive name => snd (set_active name c)
  | SetInactive name => snd (set_inactive name c)
  end.

(** The registry after a sequence of calls, those that raised
    included. *)
Definition run_calls (calls : list registry_call) : SingleCell3D :=
  fold_left run_call calls init_registry.

Lemma init_registry_ok : registry_ok init_registry.
Proof.
  unfold registry_ok, init_registry. cbn.
  repeat split; constructor.
Qed.

Lemma run_calls_ok (calls : list registry_call) :
  registry_ok (run_calls calls).
Proof.
  unfold run_calls. apply fold_left_invariant; [| apply init_registry_ok].
  intros c [name | name | name] Hc; cbn [run_call];
    [now apply add_ptype_ok | now apply set_active_ok
     | now apply set_inactive_ok].
Qed.

(** X12. Whatever sequence of [add_ptype], [set_active] and
    [set_inactive] calls a new object has seen, its registry is well
    formed: distinct names, one position array, one orientation array and
    one form factor entry for every name, parameter lists of that length,
    and an active set that holds indices of registered types only. *)
Theorem registry_calls_keep_lists_aligned (calls : list registry_call) :
  let c := run_calls calls in
  let n := List.length (ptype_name c) in
  NoDup (ptype_name c)
  /\ List.length (ptype_position c) = n
  /\ List.length (ptype_orientation c) = n
  /\ List.length (ptype_ff c) = n
  /\ (forall key l, In (key, l) (ptype_param c) -> List.length l = n)
  /\ (forall i, In i (active_types c) ->
        exists name, nth_error (ptype_name c) (Z.to_nat i) = Some name
                     /\ 0 <= i).
Proof.
  cbv zeta.
  destruct (run_calls_ok calls) as (Hn & Hp & Ho & Hf & Hk & Hl & Ha & Hr & _).
  repeat (split; [assumption |]). split.
  - intros key l Hin. rewrite Forall_forall in Hl. exact (Hl _ Hin).
  - intros i Hi. rewrite Forall_forall in Hr. specialize (Hr i Hi).
    destruct (nth_error (ptype_name (run_calls calls)) (Z.to_nat i))
      as [name |] eqn:E.
    + exists name. split; [reflexivity | lia].
    + apply nth_error_None in E. lia.
Qed.

(** X13. No call ever puts an entry into [ptype_param_methods], so on
    every registry that [add_ptype], [set_active] and [set_inactive] have
    built [remove_ptype] raises, for a registered name as for any other,
    and the names, positions, orientations and form factors stay as they
    were. *)
Theorem remove_ptype_never_removes (calls : list registry_call)
  (name : string) :
  exists e c',
    remove_ptype name (run_calls calls) = (Raise e, c')
    /\ same_lists (run_calls calls) c'.
Proof.
  apply remove_ptype_raises.
  now destruct (run_calls_ok calls) as (_ & _ & _ & _ & _ & _ & _ & _ & Hm).
Qed.

Lemma add_ptype_appends_witness :
  add_ptype "C" cell_AB
  = (Return tt,
     mkCell true ["A"%string; "B"%string; "C"%string]
            [PyArray 0; PyArray 0; PyArray 0]
            [PyArray 0; PyArray 0; PyArray 0]
            [PyObject 0; PyObject 1; PyNone]
            [("radius"%string, [PyFloat 1; PyFloat 0; PyNone])] [] [1])
  /\ list_index (ptype_name (snd (add_ptype "C" cell_AB))) "C" = Return 2.
Proof.
  destruct (add_ptype_appends "C" cell_AB) as [_ H].
  - cbn. repeat constructor. intros [].
  - exact (H eq_refl).
Defined.

End Registry.

(** *** DeltaSpot and GaussianSpot *)

Section Spots.
Local Open Scope Q_scope.

(** [int(q)]: truncation toward zero. *)
Definition py_int (q : Q) : Z := Z.quot (Qnum q) (Zpos (Qden q)).

(** [np.round(q)]: the nearest integer, the even one of two equally
    near. *)
Definition np_round (q : Q) : Z :=
  let f := Qfloor q in
  match Qcompare (q - inject_Z f) (1 # 2) with
  | Lt => f
  | Gt => (f + 1)%Z
  | Eq => if Z.even f then f else (f + 1)%Z
  end.

(** [range(n)]. *)
Definition range (n : Z) : list Z := map Z.of_nat (seq 0 (Z.to_nat n)).

(** [np.indices((n, m))], both index arrays flattened in row-major order
    and paired up. *)
Definition np_indices (n m : Z) : list (Z * Z) :=
  flat_map (fun a => map (fun b => (a, b)) (range m)) (range n).

Record Extent : Type := mkExtent {
  xmin : Q; xmax : Q; ymin : Q; ymax : Q
}.

Record GaussianSpot : Type := mkSpot {
  shape : Z * Z;
  extent : Extent;
  dx : Q;
  dy : Q;
  x : Q;
  y : Q;
  sigma : Q;
  ss2 : Q;
  gridPoints : list Z * list Z;
  xvals : list Q;
  yvals : list Q
}.

(** [DeltaSpot.__init__]. *)
Definition DeltaSpot_init (shape : Z * Z) (extent : Extent) : GaussianSpot :=
  mkSpot shape extent
         ((xmax extent - xmin extent) / inject_Z (fst shape - 1))
         ((ymax extent - ymin extent) / inject_Z (snd shape - 1))
         0 0 0 0 ([], []) [] [].

Definition set_sigma (self : GaussianSpot) (sigma : Q) : GaussianSpot :=
  mkSpot (shape self) (extent self) (dx self) (dy self) (x self) (y self)
         sigma (sigma * sigma * 2)
         (gridPoints self) (xvals self) (yvals self).

(** One pixel of the sub-grid: its two indices and its two coordinates. *)
Definition pixel (self : GaussianSpot) (g : Z * Z) : Z * Z * Q * Q :=
  (fst g, snd g,
   inject_Z (fst g) * dx self + xmin (extent self),
   inject_Z (snd g) * dy self + ymin (extent self)).

(** The mask of [set_xy]. *)
Definition inside (self : GaussianSpot) (px : Z * Z * Q * Q) : bool :=
  let '(_, _, xv, yv) := px in
  Qle_bool (xmin (extent self)) xv && Qle_bool xv (xmax (extent self))
  && Qle_bool (ymin (extent self)) yv && Qle_bool yv (ymax (extent self)).

(** [GaussianSpot.set_xy(x, y)] over exact arithmetic: the quotients are
    the rational ones, where the code rounds each to a floating-point
    number before [int] truncates it and [np.round] rounds it, and the
    spacings are not zero.  The two half-widths differ where a rounded
    quotient reaches an integer that the exact one stays below. *)
Definition set_xy (self : GaussianSpot) (x y : Q) : GaussianSpot :=
  let nx := py_int (3 * sigma self / dx self + 1) in
  let ny := py_int (3 * sigma self / dy self + 1) in
  let grid := np_indices (2 * nx + 1) (2 * ny + 1) in
  let i := np_round ((x - xmin (extent self)) / dx self) in
  let j := np_round ((y - ymin (extent self)) / dy self) in
  let grid' := map (fun g => (fst g + (i - nx), snd g + (j - ny))%Z) grid in
  let kept := filter (inside self) (map (pixel self) grid') in
  mkSpot (shape self) (extent self) (dx self) (dy self) x y
         (sigma self) (ss2 self)
         (map (fun px => fst (fst (fst px))) kept,
          map (fun px => snd (fst (fst px))) kept)
         (map (fun px => snd (fst px)) kept)
         (map (fun px => snd px) kept).

(** [GaussianSpot.__init__]; [sigma] is the keyword argument, if given. *)
Definition GaussianSpot_init (shape : Z * Z) (extent : Extent)
  (sigma : option Q) : GaussianSpot :=
  let self := DeltaSpot_init shape extent in
  let self := match sigma with
              | Some sg => set_sigma self sg
              | None => set_sigma self (dx self)
              end in
  set_xy self 0 0.

(** [makeSpot(cval)] for the amplitude [cval = re + im j], one value for
    every pixel kept; [None] stands for nan.  NumPy divides by [ss2 = 0]
    without raising: the quotient is nan where the numerator is zero, and
    minus infinity where it is negative, and the exponential of that
    is 0. *)
Definition makeSpot (self : GaussianSpot) (cval : R * R)
  : list (option R) :=
  let val := (fst cval * fst cval + snd cval * snd cval)%R in
  map (fun xy =>
         let x := (Q2R (fst xy) - Q2R (x self))%R in
         let y := (Q2R (snd xy) - Q2R (y self))%R in
         let num := (- x * x - y * y)%R in
         if Req_dec_T (Q2R (ss2 self)) 0
         then if Rlt_dec num 0 then Some (val * 0)%R else None
         else Some (val * exp (num / Q2R (ss2 self)))%R)
      (combine (xvals self) (yvals self)).

(** The pixels kept, as pairs of indices. *)
Definition kept_pixels (self : GaussianSpot) : list (Z * Z) :=
  combine (fst (gridPoints self)) (snd (gridPoints self)).

(** An 11 x 11 image over [0, 10] x [0, 10], of spacing 1, and a spot of
    width 1/2 at its centre. *)
Definition spot0 : GaussianSpot :=
  GaussianSpot_init (11, 11)%Z (mkExtent 0 10 0 10) (Some (1 # 2)).

Definition spot_half : GaussianSpot := set_xy spot0 5 5.

(** *** Facts on the spots *)

Lemma Qfloor_unique (q : Q) (n : Z) :
  inject_Z n <= q -> q < inject_Z (n + 1) -> Qfloor q = n.
Proof.
  intros Hle Hlt.
  pose proof (Qfloor_le q) as H1. pose proof (Qlt_floor q) as H2.
  assert (H3 : inject_Z (Qfloor q) < inject_Z (n + 1))
    by (eapply Qle_lt_trans; eassumption).
  assert (H4 : inject_Z n < inject_Z (Qfloor q + 1))
    by (eapply Qle_lt_trans; eassumption).
  rewrite <- Zlt_Qlt in H3, H4. lia.
Qed.

Lemma py_int_nonneg (q : Q) : 0 <= q -> py_int q = Qfloor q.
Proof.
  destruct q as [n d]. unfold Qle, py_int, Qfloor; cbn.
  intros H. apply Z.quot_div_nonneg; lia.
Qed.

(** For a width that is not negative and a positive spacing the
    half-width [int(3 sigma / spacing + 1)] is the floor of
    [3 sigma / spacing], plus one. *)
Lemma half_width_floor (sg d : Q) :
  0 <= sg -> 0 < d ->
  py_int (3 * sg / d + 1) = (Qfloor (3 * sg / d) + 1)%Z.
Proof.
  intros Hs Hd.
  assert (Ht : 0 <= 3 * sg / d).
  { apply Qle_shift_div_l; [exact Hd |]. Lqa.lra. }
  set (t := 3 * sg / d) in *.
  rewrite py_int_nonneg by Lqa.lra.
  pose proof (Qfloor_le t) as H1. pose proof (Qlt_floor t) as H2.
  rewrite inject_Z_plus in H2. change (inject_Z 1) with 1 in H2.
  apply Qfloor_unique; rewrite !inject_Z_plus;
    change (inject_Z 1) with 1; Lqa.lra.
Qed.

Lemma In_range (a n : Z) : In a (range n) <-> (0 <= a < n)%Z.
Proof.
  unfold range. rewrite in_map_iff. split.
  - intros (k & <- & Hk%in_seq). lia.
  - intros H. exists (Z.to_nat a). split; [lia |]. apply in_seq. lia.
Qed.

Lemma In_np_indices (a b n m : Z) :
  In (a, b) (np_indices n m) <-> (0 <= a < n)%Z /\ (0 <= b < m)%Z.
Proof.
  unfold np_indices. rewrite in_flat_map. split.
  - intros (a' & Ha & Hb). apply in_map_iff in Hb as (b' & [= <- <-] & Hb).
    now rewrite In_range in Ha, Hb.
  - intros [Ha Hb]. exists a. rewrite In_range. split; [exact Ha |].
    apply in_map_iff. exists b. now rewrite In_range.
Qed.

Lemma combine_map_same {A B C : Type} (f : A -> B) (g : A -> C)
  (l : list A) :
  combine (map f l) (map g l) = map (fun a => (f a, g a)) l.
Proof. induction l as [| a l IH]; cbn; congruence. Qed.

Lemma filter_map_comm {A B : Type} (f : A -> B) (p : B -> bool)
  (l : list A) :
  filter p (map f l) = map f (filter (fun a => p (f a)) l).
Proof.
  induction l as [| a l IH]; cbn; [reflexivity |].
  destruct (p (f a)); cbn; congruence.
Qed.

(** The sub-grid of [set_xy] before the mask: the index pairs around the
    rounded centre. *)
Definition sub_grid (self : GaussianSpot) (x y : Q) : list (Z * Z) :=
  let nx := py_int (3 * sigma self / dx self + 1) in
  let ny := py_int (3 * sigma self / dy self + 1) in
  let i := np_round ((x - xmin (extent self)) / dx self) in
  let j := np_round ((y - ymin (extent self)) / dy self) in
  map (fun g => (fst g + (i - nx), snd g + (j - ny))%Z)
      (np_indices (2 * nx + 1) (2 * ny + 1)).

Lemma kept_pixels_set_xy (self : GaussianSpot) (x y : Q) :
  kept_pixels (set_xy self x y)
  = filter (fun g => inside self (pixel self g)) (sub_grid self x y)
  /\ xvals (set_xy self x y)
     = map (fun g => inject_Z (fst g) * dx self + xmin (extent self))
           (kept_pixels (set_xy self x y))
  /\ yvals (set_xy self x y)
     = map (fun g => inject_Z (snd g) * dy self + ymin (extent self))
           (kept_pixels (set_xy self x y)).
Proof.
  assert (E : kept_pixels (set_xy self x y)
              = filter (fun g => inside self (pixel self g))
                       (sub_grid self x y)).
  { unfold kept_pixels, set_xy, sub_grid. cbn [gridPoints fst snd].
    rewrite filter_map_comm, combine_map_same, map_map.
    cbn [pixel fst snd].
    rewrite <- (map_id (filter _ _)) at 2.
    apply map_ext. now intros [a b]. }
  split; [exact E |]. rewrite E.
  unfold set_xy, sub_grid. cbn [xvals yvals].
  rewrite filter_map_comm, !map_map. split; reflexivity.
Qed.
Lemma np_round_nearest (q : Q) :
  inject_Z (np_round q) - (1 # 2) <= q <= inject_Z (np_round q) + (1 # 2).
Proof.
  unfold np_round.
  pose proof (Qfloor_le q) as H1. pose proof (Qlt_floor q) as H2.
  rewrite inject_Z_plus in H2. change (inject_Z 1) with 1 in H2.
  destruct (Qcompare (q - inject_Z (Qfloor q)) (1 # 2)) eqn:E.
  - apply Qeq_alt in E.
    destruct (Z.even (Qfloor q)); rewrite ?inject_Z_plus;
      change (inject_Z 1) with 1; Lqa.lra.
  - apply Qlt_alt in E. Lqa.lra.
  - apply Qgt_alt in E. rewrite inject_Z_plus.
    change (inject_Z 1) with 1. Lqa.lra.
Qed.

Lemma In_sub_grid (self : GaussianSpot) (x y : Q) (gx gy : Z) :
  0 <= sigma self -> 0 < dx self -> 0 < dy self ->
  let nx := (Qfloor (3 * sigma self / dx self) + 1)%Z in
  let ny := (Qfloor (3 * sigma self / dy self) + 1)%Z in
  let i := np_round ((x - xmin (extent self)) / dx self) in
  let j := np_round ((y - ymin (extent self)) / dy self) in
  In (gx, gy) (sub_grid self x y) <->
  (i - nx <= gx <= i + nx)%Z /\ (j - ny <= gy <= j + ny)%Z.
Proof.
  intros Hs Hx Hy nx ny i j. unfold sub_grid.
  rewrite !half_width_floor by assumption. fold nx ny i j.
  rewrite in_map_iff. split.
  - intros ([a b] & [= <- <-] & Hab). apply In_np_indices in Hab.
    cbn [fst snd]. lia.
  - intros [Ha Hb]. exists ((gx - (i - nx))%Z, (gy - (j - ny))%Z).
    cbn [fst snd]. split; [f_equal; lia |].
    apply In_np_indices. lia.
Qed.

Lemma inside_pixel (self : GaussianSpot) (g : Z * Z) :
  inside self (pixel self g) = true <->
  (xmin (extent self) <= inject_Z (fst g) * dx self + xmin (extent self)
   /\ inject_Z (fst g) * dx self + xmin (extent self) <= xmax (extent self))
  /\ (ymin (extent self) <= inject_Z (snd g) * dy self + ymin (extent self)
      /\ inject_Z (snd g) * dy self + ymin (extent self)
         <= ymax (extent self)).
Proof.
  unfold inside, pixel. rewrite !andb_true_iff, !Qle_bool_iff. tauto.
Qed.

(** [|cval|^2], the real part of [conj(cval) * cval]. *)
Definition abs2 (cval : R * R) : R :=
  (fst cval * fst cval + snd cval * snd cval)%R.

(** The value [makeSpot] gives a pixel at the offset [(ox, oy)] from the
    centre. *)
Definition gaussian_at (sg ox oy : R) : R :=
  exp (- (ox * ox + oy * oy) / (2 * (sg * sg)))%R.

(** The half-width the sub-grid would have with a ceiling in place of
    the truncation. *)
Definition ceiling_half_width (sg d : Q) : Z :=
  (Qceiling (3 * sg / d) + 1)%Z.



(** *** DeltaSpot on its own *)

(** An object of the base class; [gridPoints] is there once [set_xy] has
    been called. *)
Record DeltaSpot : Type := mkDelta {
  delta_shape : Z * Z;
  delta_extent : Extent;
  delta_dx : Q;
  delta_dy : Q;
  delta_x : Q;
  delta_y : Q;
  delta_gridPoints : option (Z * Z)
}.

Definition DeltaSpot_new (shape : Z * Z) (extent : Extent) : DeltaSpot :=
  mkDelta shape extent
          ((xmax extent - xmin extent) / inject_Z (fst shape - 1))
          ((ymax extent - ymin extent) / inject_Z (snd shape - 1))
          0 0 None.

Definition DeltaSpot_set_xy (self : DeltaSpot) (x y : Q) : DeltaSpot :=
  let i := np_round ((x - xmin (delta_extent self)) / delta_dx self) in
  let j := np_round ((y - ymin (delta_extent self)) / delta_dy self) in
  mkDelta (delta_shape self) (delta_extent self) (delta_dx self)
          (delta_dy self) x y (Some (i, j)).

(** [np.conj(cval)] and the product of two complex numbers. *)
Definition np_conj (z : R * R) : R * R := (fst z, (- snd z)%R).

Definition cmul (z w : R * R) : R * R :=
  (fst z * fst w - snd z * snd w, fst z * snd w + snd z * fst w)%R.

(** [DeltaSpot.makeSpot(cval)], the real part of [conj(cval) * cval],
    over exact arithmetic: the product as a real number, where the code
    rounds it to a [complex64] element, in which a product below the
    smallest subnormal number is flushed to zero and one above the largest
    number becomes infinite. *)
Definition DeltaSpot_makeSpot (cval : R * R) : R := fst (cmul (np_conj cval) cval).

Lemma np_round_nearest_integer (t : Q) (k : Z) :
  Qabs (t - inject_Z (np_round t)) <= Qabs (t - inject_Z k).
Proof.
  pose proof (np_round_nearest t) as [H1 H2].
  set (i := np_round t) in *.
  assert (Hi : Qabs (t - inject_Z i) <= 1 # 2).
  { apply Qabs_Qle_condition. split; Lqa.lra. }
  destruct (Z.lt_trichotomy k i) as [Hlt | [-> | Hgt]].
  - assert (Hk : inject_Z k <= inject_Z i - 1).
    { setoid_replace (inject_Z i - 1) with (inject_Z (i - 1)).
      - rewrite <- Zle_Qle. lia.
      - unfold Zminus. rewrite inject_Z_plus. reflexivity. }
    eapply Qle_trans; [exact Hi |].
    eapply Qle_trans; [| apply Qle_Qabs]. Lqa.lra.
  - apply Qle_refl.
  - assert (Hk : inject_Z i + 1 <= inject_Z k).
    { setoid_replace (inject_Z i + 1) with (inject_Z (i + 1)).
      - rewrite <- Zle_Qle. lia.
      - rewrite inject_Z_plus. reflexivity. }
    eapply Qle_trans; [exact Hi |].
    rewrite <- Qabs_opp.
    eapply Qle_trans; [| apply Qle_Qabs]. Lqa.lra.
Qed.


(** X15. Over exact arithmetic, the rounding of the product to a
    [complex64] element left aside, [DeltaSpot.makeSpot] gives the squared
    magnitude of the amplitude: a number that is not negative, and zero
    for the amplitude zero only. *)
Theorem DeltaSpot_makeSpot_abs2 (cval : R * R) :
  DeltaSpot_makeSpot cval = abs2 cval
  /\ (0 <= DeltaSpot_makeSpot cval)%R
  /\ (DeltaSpot_makeSpot cval = 0%R <-> cval = (0, 0)%R).
Proof.
  destruct cval as [re im].
  assert (E : DeltaSpot_makeSpot (re, im) = (re * re + im * im)%R).
  { unfold DeltaSpot_makeSpot, cmul, np_conj. cbn [fst snd]. ring. }
  split; [exact E |]. rewrite E. split; [nra |].
  split.
  - intros H. assert (re = 0 /\ im = 0)%R as [-> ->] by (split; nra).
    reflexivity.
  - intros [= -> ->]. ring.
Qed.

(** *** The pixels of a Gaussian spot *)

Lemma index_in_image (g n : Z) (lo hi d : Q) :
  (2 <= n)%Z -> lo < hi -> d == (hi - lo) / inject_Z (n - 1) ->
  lo <= inject_Z g * d + lo -> inject_Z g * d + lo <= hi ->
  (0 <= g <= n - 1)%Z.
Proof.
  intros Hn Hlh Hd H1 H2.
  assert (Hn1 : 0 < inject_Z (n - 1)).
  { change 0 with (inject_Z 0). rewrite <- Zlt_Qlt. lia. }
  assert (Hdpos : 0 < d).
  { rewrite Hd. apply Qlt_shift_div_l; [exact Hn1 |]. Lqa.lra. }
  assert (Hspan : inject_Z (n - 1) * d == hi - lo).
  { rewrite Hd. field. intros E. rewrite E in Hn1.
    now apply Qlt_irrefl in Hn1. }
  set (a := inject_Z g * d) in *. set (b := inject_Z (n - 1) * d) in *.
  split.
  - rewrite Zle_Qle. apply (Qmult_le_r _ _ d Hdpos). fold a.
    change (inject_Z 0) with 0. Lqa.lra.
  - rewrite Zle_Qle. apply (Qmult_le_r _ _ d Hdpos). fold a b. Lqa.lra.
Qed.

(** X16. On a spot built by the constructor for an image of at least two
    points along each axis and an extent that is not empty, every pixel
    [set_xy] keeps is a pixel of the image, over exact arithmetic: its
    indices lie between 0 and the number of grid points less one, wherever
    the centre is put and whatever the width. *)
Theorem kept_pixels_inside_image (shape0 : Z * Z) (extent0 : Extent)
  (sg : option Q) (x0 y0 : Q) (gx gy : Z) :
  (2 <= fst shape0)%Z -> (2 <= snd shape0)%Z ->
  xmin extent0 < xmax extent0 -> ymin extent0 < ymax extent0 ->
  In (gx, gy)
     (kept_pixels (set_xy (GaussianSpot_init shape0 extent0 sg) x0 y0)) ->
  (0 <= gx <= fst shape0 - 1)%Z /\ (0 <= gy <= snd shape0 - 1)%Z.
Proof.
  intros Hn Hm Hx Hy Hin.
  set (self := GaussianSpot_init shape0 extent0 sg) in *.
  assert (Hdx : dx self
                == (xmax extent0 - xmin extent0) / inject_Z (fst shape0 - 1))
    by (unfold self, GaussianSpot_init; destruct sg; reflexivity).
  assert (Hdy : dy self
                == (ymax extent0 - ymin extent0) / inject_Z (snd shape0 - 1))
    by (unfold self, GaussianSpot_init; destruct sg; reflexivity).
  assert (He : extent self = extent0)
    by (unfold self, GaussianSpot_init; destruct sg; reflexivity).
  destruct (kept_pixels_set_xy self x0 y0) as (Ek & _).
  rewrite Ek in Hin. apply filter_In in Hin as [_ Hin].
  apply inside_pixel in Hin. cbn [fst snd] in Hin. rewrite He in Hin.
  destruct Hin as [[X1 X2] [Y1 Y2]]. split.
  - exact (index_in_image gx (fst shape0) _ _ _ Hn Hx Hdx X1 X2).
  - exact (index_in_image gy (snd shape0) _ _ _ Hm Hy Hdy Y1 Y2).
Qed.

Lemma exp_nonpos_le_1 (a : R) : (a <= 0 -> 0 < exp a <= 1)%R.
Proof.
  intros Ha. split; [apply exp_pos |].
  destruct Ha as [Hlt | ->]; [| rewrite exp_0; lra].
  left. rewrite <- exp_0. now apply exp_increasing.
Qed.

(** X17. After [set_xy] on a spot of positive [ss2], over exact
    arithmetic, [makeSpot] gives one value for every pixel kept; each of
    them is a number, none is nan, at most the squared magnitude of the
    amplitude and not negative. *)
Theorem makeSpot_bounded (self : GaussianSpot) (x0 y0 : Q) (cval : R * R) :
  0 < ss2 self ->
  let s := set_xy self x0 y0 in
  List.length (makeSpot s cval) = List.length (kept_pixels s)
  /\ forall v, In v (makeSpot s cval) ->
               exists r, v = Some r /\ (0 <= r <= abs2 cval)%R.
Proof.
  intros Hss s.
  destruct (kept_pixels_set_xy self x0 y0) as (_ & Exv & Eyv).
  fold s in Exv, Eyv. split.
  - unfold makeSpot. rewrite Exv, Eyv, combine_map_same, !length_map.
    reflexivity.
  - intros v Hv. unfold makeSpot in Hv.
    apply in_map_iff in Hv as ([xv yv] & <- & _). cbn [fst snd].
    fold (abs2 cval).
    assert (Ha : (0 <= abs2 cval)%R) by (unfold abs2; nra).
    assert (Hq : (0 < Q2R (ss2 s))%R).
    { change (ss2 s) with (ss2 self). replace 0%R with (Q2R 0) by
        (unfold Q2R; cbn; lra). now apply Qlt_Rlt. }
    destruct (Req_dec_T (Q2R (ss2 s)) 0) as [E | _]; [lra |].
    eexists. split; [reflexivity |].
    set (ox := (Q2R xv - Q2R (x s))%R). set (oy := (Q2R yv - Q2R (y s))%R).
    assert (He : (0 < exp ((- ox * ox - oy * oy) / Q2R (ss2 s)) <= 1)%R).
    { apply exp_nonpos_le_1.
      apply Rmult_le_reg_r with (Q2R (ss2 s)); [exact Hq |].
      unfold Rdiv. rewrite Rmult_assoc, Rinv_l by lra. nra. }
    nra.
Qed.

Lemma kept_pixels_inside_image_witness :
  In (3, 7)%Z (kept_pixels (set_xy spot0 5 5))
  /\ ((0 <= 3 <= 11 - 1)%Z /\ (0 <= 7 <= 11 - 1)%Z).
Proof.
  assert (Hin : In (3, 7)%Z
                  (kept_pixels
                     (set_xy (GaussianSpot_init (11, 11)%Z
                                (mkExtent 0 10 0 10) (Some (1 # 2))) 5 5))).
  { vm_compute. intuition discriminate. }
  split; [exact Hin |].
  apply (kept_pixels_inside_image (11, 11)%Z (mkExtent 0 10 0 10)
           (Some (1 # 2)) 5 5 3 7); [cbn; lia | cbn; lia | reflexivity
                                      | reflexivity | exact Hin].
Defined.

Lemma makeSpot_bounded_witness :
  List.length (makeSpot (set_xy spot0 5 5) (3, 4)%R) = 25%nat
  /\ forall v, In v (makeSpot (set_xy spot0 5 5) (3, 4)%R) ->
               exists r, v = Some r /\ (0 <= r <= abs2 (3, 4))%R.
Proof.
  assert (Hss : 0 < ss2 spot0) by reflexivity.
  pose proof (makeSpot_bounded spot0 5 5 (3, 4)%R Hss) as H.
  cbv zeta in H. destruct H as [Hl Hv].
  split; [rewrite Hl; reflexivity | exact Hv].
Defined.

End Spots.

(** *** SFactor3DPoints *)

Section SFactor.
Import Py.
Local Open Scope R_scope.

(** A complex number, as real and imaginary part. *)
Definition complex : Type := (R * R)%type.

Definition cadd (z w : complex) : complex := (fst z + fst w, snd z + snd w).

(** [np.exp(1j * t)]. *)
Definition cexp_i (t : R) : complex := (cos t, sin t).

(** [np.absolute(z)]. *)
Definition cabs (z : complex) : R := sqrt (fst z * fst z + snd z * snd z).

(** An element of a complex array: a number, or [None] for a value with
    a nan or inf part. *)
Definition cell : Type := option complex.

Definition cell_add (u v : cell) : cell :=
  match u, v with
  | Some z, Some w => Some (cadd z w)
  | _, _ => None
  end.

Definition cell_abs (u : cell) : option R := option_map cabs u.

(** [u / c]: NumPy divides by zero without raising, and the quotient is
    not finite. *)
Definition cell_div (u : cell) (c : option R) : cell :=
  match u, c with
  | Some z, Some r =>
      if Req_dec_T r 0 then None else Some (fst z / r, snd z / r)
  | _, _ => None
  end.

(** Arrays of three dimensions. *)
Definition arr3 (T : Type) : Type := list (list (list T)).

Definition map3 {A B : Type} (f : A -> B) (a : arr3 A) : arr3 B :=
  map (map (map f)) a.

Definition zipWith {A B C : Type} (f : A -> B -> C) (l : list A)
  (l' : list B) : list C :=
  map (fun ab => f (fst ab) (snd ab)) (combine l l').

(** An elementwise operation on two arrays of one shape. *)
Definition zip3 {A B C : Type} (f : A -> B -> C) (a : arr3 A) (b : arr3 B)
  : arr3 C :=
  zipWith (zipWith (zipWith f)) a b.

(** [a[c, b, i]]. *)
Definition get3 {T : Type} (a : arr3 T) (c b i : nat) : option T :=
  match nth_error a c with
  | Some plane =>
      match nth_error plane b with
      | Some row => nth_error row i
      | None => None
      end
  | None => None
  end.

(** [np.linspace(start, stop, num)]. *)
Definition linspace (start stop : R) (num : nat) : list R :=
  map (fun k => INR k * ((stop - start) / INR (num - 1)) + start)
      (seq 0 num).

(** [meshgrid2(qx, qy, qz)]: the three arrays it returns, read together;
    the element [c, b, a] is [(qx[a], qy[b], qz[c])]. *)
Definition meshgrid2 (qx qy qz : list R) : arr3 (R * R * R) :=
  map (fun c => map (fun b => map (fun a => (a, b, c)) qx) qy) qz.

Record SFactor3DPoints : Type := mkSFactor {
  grid : nat;
  qx : list R;
  qy : list R;
  qz : list R;
  q_grid : arr3 (R * R * R);
  s_complex : arr3 cell
}.

(** [__init__] for a box of the given side lengths and [g >= 0]. *)
Definition SFactor3DPoints_init (is2D : bool) (Lx Ly Lz : R) (g : nat)
  : outcome SFactor3DPoints :=
  if is2D then Raise (ValueError "SFactor3DPoints does not support 2D boxes")
  else
    let grid := (2 * g + 1)%nat in
    let qx := linspace (- INR g * 2 * PI / Lx) (INR g * 2 * PI / Lx) grid in
    let qy := linspace (- INR g * 2 * PI / Ly) (INR g * 2 * PI / Ly) grid in
    let qz := linspace (- INR g * 2 * PI / Lz) (INR g * 2 * PI / Lz) grid in
    let q_grid := meshgrid2 qx qy qz in
    Return (mkSFactor grid qx qy qz q_grid
                      (map3 (fun _ => Some (0, 0)) q_grid)).

(** The contribution of the point [p] at the grid vector [q]. *)
Definition phase (p q : R * R * R) : cell :=
  let '(qx, qy, qz) := q in
  let '(p0, p1, p2) := p in
  Some (cexp_i (qx * p0 + qy * p1 + qz * p2)).

(** [compute], up to the normalization: the array cleared, then every
    point added. *)
Definition accumulate_points (self : SFactor3DPoints)
  (points : list (R * R * R)) : arr3 cell :=
  fold_left (fun s p => zip3 cell_add s (map3 (phase p) (q_grid self)))
            points
            (map3 (fun _ => Some (0, 0)) (s_complex self)).

Definition compute (self : SFactor3DPoints) (points : list (R * R * R))
  : outcome SFactor3DPoints :=
  let s := accumulate_points self points in
  let mid := (grid self / 2)%nat in
  match get3 s mid mid mid with
  | None => Raise (IndexError "index out of bounds")
  | Some centre =>
      let cinv := cell_abs centre in
      Return (mkSFactor (grid self) (qx self) (qy self) (qz self)
                        (q_grid self)
                        (map3 (fun u => cell_div u cinv) s))
  end.

(** *** Facts on the arrays *)

Lemma zipWith_map_same {A B C D : Type} (f : B -> C -> D) (g : A -> B)
  (h : A -> C) (l : list A) :
  zipWith f (map g l) (map h l) = map (fun a => f (g a) (h a)) l.
Proof.
  unfold zipWith. rewrite combine_map_same, map_map. reflexivity.
Qed.

Lemma zip3_map3_same {A B C D : Type} (f : B -> C -> D) (g : A -> B)
  (h : A -> C) (a : arr3 A) :
  zip3 f (map3 g a) (map3 h a) = map3 (fun x => f (g x) (h x)) a.
Proof.
  unfold zip3, map3. rewrite zipWith_map_same.
  apply map_ext. intros plane. rewrite zipWith_map_same.
  apply map_ext. intros row. apply zipWith_map_same.
Qed.

Lemma map3_map3 {A B C : Type} (f : B -> C) (g : A -> B) (a : arr3 A) :
  map3 f (map3 g a) = map3 (fun x => f (g x)) a.
Proof.
  unfold map3. rewrite map_map. apply map_ext. intros plane.
  rewrite map_map. apply map_ext. intros row. apply map_map.
Qed.

Lemma get3_map3 {A B : Type} (f : A -> B) (a : arr3 A) (c b i : nat) :
  get3 (map3 f a) c b i = option_map f (get3 a c b i).
Proof.
  unfold get3, map3. rewrite nth_error_map.
  destruct (nth_error a c) as [plane |]; [| reflexivity]. cbn.
  rewrite nth_error_map.
  destruct (nth_error plane b) as [row |]; [| reflexivity]. cbn.
  apply nth_error_map.
Qed.

Lemma get3_meshgrid2 (qx qy qz : list R) (c b a : nat) (x y z : R) :
  nth_error qx a = Some x -> nth_error qy b = Some y ->
  nth_error qz c = Some z ->
  get3 (meshgrid2 qx qy qz) c b a = Some (x, y, z).
Proof.
  intros Hx Hy Hz. unfold get3, meshgrid2.
  rewrite nth_error_map, Hz. cbn.
  rewrite nth_error_map, Hy. cbn.
  rewrite nth_error_map, Hx. reflexivity.
Qed.

Lemma nth_error_linspace (start stop : R) (num k : nat) :
  (k < num)%nat ->
  nth_error (linspace start stop num) k
  = Some (INR k * ((stop - start) / INR (num - 1)) + start).
Proof.
  intros Hk. unfold linspace. rewrite nth_error_map.
  rewrite (nth_error_nth' _ 0%nat) by (rewrite length_seq; exact Hk).
  rewrite seq_nth by exact Hk. reflexivity.
Qed.

Lemma linspace_centre (g : nat) (L : R) :
  nth_error (linspace (- INR g * 2 * PI / L) (INR g * 2 * PI / L)
                      (2 * g + 1)) g
  = Some 0.
Proof.
  rewrite nth_error_linspace by lia. f_equal.
  replace (2 * g + 1 - 1)%nat with (2 * g)%nat by lia.
  rewrite mult_INR. change (INR 2) with 2.
  destruct g as [| g'].
  - cbn [INR]. unfold Rdiv. ring.
  - assert (Hg : INR (S g') <> 0) by (apply not_0_INR; discriminate).
    set (n := INR (S g')) in *. unfold Rdiv.
    replace (/ (2 * n)) with (/ 2 * / n) by (field; exact Hg).
    replace (n * ((n * 2 * PI * / L - - n * 2 * PI * / L) * (/ 2 * / n)))
      with ((n * / n) * (2 * / 2) * (n * 2 * PI * / L)) by ring.
    rewrite Rinv_r by exact Hg. rewrite Rinv_r by lra. ring.
Qed.

(** The array before the normalization, element by element. *)
Definition point_sum (points : list (R * R * R)) (start : cell)
  (q : R * R * R) : cell :=
  fold_left (fun u p => cell_add u (phase p q)) points start.

Lemma fold_zip3_phase (qg : arr3 (R * R * R)) (points : list (R * R * R))
  (F : R * R * R -> cell) :
  fold_left (fun s p => zip3 cell_add s (map3 (phase p) qg)) points
            (map3 F qg)
  = map3 (fun q => point_sum points (F q) q) qg.
Proof.
  revert F. induction points as [| p points IH]; intros F; [reflexivity |].
  cbn [fold_left]. rewrite zip3_map3_same, IH. reflexivity.
Qed.

Lemma phase_origin (p : R * R * R) : phase p (0, 0, 0) = Some (1, 0).
Proof.
  destruct p as [[p0 p1] p2]. unfold phase, cexp_i.
  replace (0 * p0 + 0 * p1 + 0 * p2) with 0 by ring.
  now rewrite cos_0, sin_0.
Qed.

Lemma point_sum_origin (points : list (R * R * R)) (x : R) :
  point_sum points (Some (x, 0)) (0, 0, 0)
  = Some (x + INR (List.length points), 0).
Proof.
  unfold point_sum. revert x.
  induction points as [| p points IH]; intros x.
  - cbn. do 2 f_equal. ring.
  - cbn [fold_left List.length]. rewrite phase_origin.
    unfold cell_add at 2, cadd. cbn [fst snd].
    replace (0 + 0) with 0 by ring.
    rewrite IH, S_INR. do 2 f_equal. ring.
Qed.

Lemma cabs_real (x : R) : 0 <= x -> cabs (x, 0) = x.
Proof.
  intros Hx. unfold cabs. cbn [fst snd].
  replace (x * x + 0 * 0) with (x * x) by ring. now apply sqrt_square.
Qed.

Lemma cell_div_zero (u : cell) : cell_div u (Some 0) = None.
Proof.
  destruct u as [z |]; [| reflexivity]. unfold cell_div.
  destruct (Req_dec_T 0 0) as [_ | H]; [reflexivity | now elim H].
Qed.

(** The object [__init__] builds, and its array before the
    normalization. *)
Lemma init_accumulate (Lx Ly Lz : R) (g : nat) :
  exists self,
    SFactor3DPoints_init false Lx Ly Lz g = Return self
    /\ grid self = (2 * g + 1)%nat
    /\ get3 (q_grid self) g g g = Some (0, 0, 0)
    /\ forall points,
         accumulate_points self points
         = map3 (point_sum points (Some (0, 0))) (q_grid self).
Proof.
  eexists. split; [reflexivity |]. cbn [grid q_grid s_complex].
  split; [reflexivity |]. split.
  - apply get3_meshgrid2; apply linspace_centre.
  - intros points. unfold accumulate_points. cbn [q_grid s_complex].
    rewrite map3_map3. apply fold_zip3_phase.
Qed.

(** C10. [compute] on an empty sequence of points leaves the array at
    zero, takes the magnitude 0 of its centre element, and divides by it
    all the same: no element of the result is a finite number, the centre
    included.  On a sequence that is not empty the centre element of the
    result has magnitude 1. *)
Theorem compute_centre_normalization (Lx Ly Lz : R) (g : nat)
  (points : list (R * R * R)) :
  exists self,
    SFactor3DPoints_init false Lx Ly Lz g = Return self
    /\ (accumulate_points self []
        = map3 (fun _ => Some (0, 0)) (q_grid self)
        /\ get3 (accumulate_points self []) (grid self / 2) (grid self / 2)
                (grid self / 2)
           = Some (Some (0, 0))
        /\ cell_abs (Some (0, 0)) = Some 0
        /\ exists s',
             compute self [] = Return s'
             /\ s_complex s' = map3 (fun _ => None) (q_grid self)
             /\ get3 (s_complex s') (grid self / 2) (grid self / 2)
                     (grid self / 2)
                = Some None)
    /\ (points <> [] ->
        exists s' z,
          compute self points = Return s'
          /\ get3 (s_complex s') (grid self / 2) (grid self / 2)
                  (grid self / 2)
             = Some (Some z)
          /\ cabs z = 1).
Proof.
  destruct (init_accumulate Lx Ly Lz g) as (self & Hinit & Hgrid & Hq & Hacc).
  exists self. split; [exact Hinit |].
  assert (Hmid : (grid self / 2)%nat = g).
  { rewrite Hgrid. symmetry. apply (Nat.div_unique _ 2 g 1); lia. }
  rewrite Hmid.
  assert (Hc : forall pts,
             get3 (accumulate_points self pts) g g g
             = Some (Some (INR (List.length pts), 0))).
  { intros pts. rewrite Hacc, get3_map3, Hq. cbn [option_map].
    rewrite point_sum_origin. do 3 f_equal. ring. }
  assert (Habs0 : cell_abs (Some (0, 0)) = Some 0).
  { unfold cell_abs; cbn [option_map]. rewrite cabs_real by lra.
    reflexivity. }
  split.
  - split; [rewrite Hacc; reflexivity |].
    split; [exact (Hc []) |]. split; [exact Habs0 |].
    unfold compute. rewrite Hmid, (Hc []). cbn [List.length INR].
    rewrite Habs0.
    assert (Es : map3 (fun u => cell_div u (Some 0))
                      (accumulate_points self [])
                 = map3 (fun _ => None) (q_grid self)).
    { rewrite Hacc, map3_map3. unfold map3.
      apply map_ext; intros plane. apply map_ext; intros row.
      apply map_ext; intros q. apply cell_div_zero. }
    eexists. split; [reflexivity |]. cbn [s_complex].
    split; [exact Es |]. rewrite Es, get3_map3, Hq. reflexivity.
  - intros Hne.
    assert (Hn : 0 < INR (List.length points)).
    { apply lt_0_INR. destruct points; [congruence | cbn; lia]. }
    set (n := INR (List.length points)) in *.
    unfold compute. rewrite Hmid, (Hc points). fold n.
    unfold cell_abs; cbn [option_map]. rewrite cabs_real by lra.
    eexists. exists (n / n, 0 / n). split; [reflexivity |].
    cbn [s_complex]. split.
    + rewrite Hacc, map3_map3, get3_map3, Hq. cbn [option_map].
      rewrite point_sum_origin. fold n. unfold cell_div.
      destruct (Req_dec_T n 0) as [E | _]; [lra |].
      replace (0 + n) with n by ring. reflexivity.
    + replace (n / n) with 1 by (field; lra).
      replace (0 / n) with 0 by (field; lra).
      rewrite cabs_real by lra. reflexivity.
Qed.

(** *** The grid of q values *)

Lemma linspace_value (g k : nat) (L : R) :
  (k <= 2 * g)%nat ->
  nth_error (linspace (- INR g * 2 * PI / L) (INR g * 2 * PI / L)
                      (2 * g + 1)) k
  = Some ((INR k - INR g) * (2 * PI / L)).
Proof.
  intros Hk. rewrite nth_error_linspace by lia. f_equal.
  replace (2 * g + 1 - 1)%nat with (2 * g)%nat by lia.
  rewrite mult_INR. change (INR 2) with 2.
  destruct g as [| g'].
  - assert (k = 0%nat) as -> by lia. cbn [INR]. unfold Rdiv. ring.
  - assert (Hg : INR (S g') <> 0) by (apply not_0_INR; discriminate).
    set (n := INR (S g')) in *. unfold Rdiv.
    replace (/ (2 * n)) with (/ 2 * / n) by (field; exact Hg).
    replace (INR k * ((n * 2 * PI * / L - - n * 2 * PI * / L) * (/ 2 * / n))
             + - n * 2 * PI * / L)
      with ((n * / n) * (2 * / 2) * (INR k * (2 * PI * / L))
            - n * (2 * PI * / L)) by ring.
    rewrite Rinv_r by exact Hg. rewrite Rinv_r by lra. ring.
Qed.

Lemma init_q_values (Lx Ly Lz : R) (g : nat) :
  exists self,
    SFactor3DPoints_init false Lx Ly Lz g = Return self
    /\ (forall k, (k <= 2 * g)%nat ->
          nth_error (qx self) k = Some ((INR k - INR g) * (2 * PI / Lx))
          /\ nth_error (qy self) k = Some ((INR k - INR g) * (2 * PI / Ly))
          /\ nth_error (qz self) k = Some ((INR k - INR g) * (2 * PI / Lz)))
    /\ (forall c b a, (c <= 2 * g)%nat -> (b <= 2 * g)%nat ->
          (a <= 2 * g)%nat ->
          get3 (q_grid self) c b a
          = Some ((INR a - INR g) * (2 * PI / Lx),
                  (INR b - INR g) * (2 * PI / Ly),
                  (INR c - INR g) * (2 * PI / Lz))).
Proof.
  eexists. split; [reflexivity |]. cbn [qx qy qz q_grid]. split.
  - intros k Hk. repeat split; now apply linspace_value.
  - intros c b a Hc Hb Ha. apply get3_meshgrid2; now apply linspace_value.
Qed.

(** X18. For a box of nonzero sides the object [__init__] builds has
    [2 g + 1] values of q along each axis, the value of index [k] being
    [(k - g) 2 pi / L] for the side [L] of that axis, over exact
    arithmetic, and the element [c, b, a] of the meshgrid is the vector
    [(qx[a], qy[b], qz[c])]. *)
Theorem init_q_grid (Lx Ly Lz : R) (g : nat) :
  Lx <> 0 -> Ly <> 0 -> Lz <> 0 ->
  exists self,
    SFactor3DPoints_init false Lx Ly Lz g = Return self
    /\ grid self = (2 * g + 1)%nat
    /\ List.length (qx self) = grid self
    /\ List.length (qy self) = grid self
    /\ List.length (qz self) = grid self
    /\ (forall k, (k <= 2 * g)%nat ->
          nth_error (qx self) k = Some ((INR k - INR g) * (2 * PI / Lx))
          /\ nth_error (qy self) k = Some ((INR k - INR g) * (2 * PI / Ly))
          /\ nth_error (qz self) k = Some ((INR k - INR g) * (2 * PI / Lz)))
    /\ (forall c b a, (c <= 2 * g)%nat -> (b <= 2 * g)%nat ->
          (a <= 2 * g)%nat ->
          get3 (q_grid self) c b a
          = Some ((INR a - INR g) * (2 * PI / Lx),
                  (INR b - INR g) * (2 * PI / Ly),
                  (INR c - INR g) * (2 * PI / Lz))).
Proof.
  intros _ _ _.
  destruct (init_q_values Lx Ly Lz g) as (self & Hinit & Hk & Hq).
  exists self. split; [exact Hinit |].
  injection Hinit as <-. cbn [grid qx qy qz q_grid] in *.
  split; [reflexivity |].
  unfold linspace. rewrite !length_map, !length_seq.
  repeat (split; [reflexivity |]). split; [exact Hk | exact Hq].
Qed.

(** *** getS *)

Definition cell_conj (u : cell) : cell := option_map np_conj u.

Definition cell_mul (u v : cell) : cell :=
  match u, v with
  | Some z, Some w => Some (cmul z w)
  | _, _ => None
  end.

(** [astype(np.float32)] on a complex element keeps the real part. *)
Definition cell_real (u : cell) : option R := option_map fst u.

(** [getS()]. *)
Definition getS (self : SFactor3DPoints) : arr3 (option R) :=
  map3 cell_real
       (zip3 cell_mul (s_complex self) (map3 cell_conj (s_complex self))).

(** The squared magnitude of an element. *)
Definition intensity (u : cell) : option R :=
  cell_real (cell_mul u (cell_conj u)).

Lemma map3_id {A : Type} (a : arr3 A) : map3 (fun x => x) a = a.
Proof.
  unfold map3. rewrite <- (map_id a) at 2. apply map_ext. intros plane.
  rewrite <- (map_id plane) at 2. apply map_ext. intros row. apply map_id.
Qed.

Lemma getS_intensity (self : SFactor3DPoints) :
  getS self = map3 intensity (s_complex self).
Proof.
  unfold getS.
  rewrite <- (map3_id (s_complex self)) at 1.
  rewrite zip3_map3_same, map3_map3. reflexivity.
Qed.

(** Every contribution is a number of magnitude 1, so the sum over [n]
    points has magnitude [n] at most. *)
Lemma point_sum_bound (points : list (R * R * R)) (q : R * R * R)
  (x y m : R) :
  0 <= m -> x * x + y * y <= m * m ->
  exists X Y,
    point_sum points (Some (x, y)) q = Some (X, Y)
    /\ X * X + Y * Y
       <= (m + INR (List.length points)) * (m + INR (List.length points)).
Proof.
  unfold point_sum. revert x y m.
  induction points as [| p points IH]; intros x y m Hm Hxy.
  - exists x, y. split; [reflexivity |]. cbn [List.length INR].
    replace (m + 0) with m by ring. exact Hxy.
  - cbn [fold_left]. destruct q as [[q0 q1] q2], p as [[p0 p1] p2].
    unfold phase at 2, cexp_i, cell_add at 2, cadd. cbn [fst snd].
    set (t := q0 * p0 + q1 * p1 + q2 * p2).
    pose proof (sin2_cos2 t) as Hsc. unfold Rsqr in Hsc.
    set (s := sin t) in *. set (c := cos t) in *.
    assert (Hcs : x * c + y * s <= m).
    { assert (Hsq : (x * c + y * s) * (x * c + y * s) <= m * m).
      { replace ((x * c + y * s) * (x * c + y * s))
          with ((x * x + y * y) * (s * s + c * c)
                - (x * s - y * c) * (x * s - y * c)) by ring.
        rewrite Hsc. pose proof (Rle_0_sqr (x * s - y * c)) as H0.
        unfold Rsqr in H0. lra. }
      destruct (Rle_dec (x * c + y * s) m) as [H | H]; [exact H |].
      exfalso. apply Rnot_le_lt in H. nra. }
    destruct (IH (x + c) (y + s) (m + 1)) as (X & Y & E & Hb).
    + lra.
    + replace ((x + c) * (x + c) + (y + s) * (y + s))
        with (x * x + y * y + 2 * (x * c + y * s) + (s * s + c * c)) by ring.
      rewrite Hsc. nra.
    + exists X, Y. split; [exact E |].
      cbn [List.length]. rewrite S_INR.
      replace (m + (INR (List.length points) + 1))
        with (m + 1 + INR (List.length points)) by ring.
      exact Hb.
Qed.

(** The array [compute] leaves for points that are there: every sum
    divided by the number of points. *)
Lemma compute_normalized (Lx Ly Lz : R) (g : nat)
  (points : list (R * R * R)) :
  points <> [] ->
  exists self s',
    SFactor3DPoints_init false Lx Ly Lz g = Return self
    /\ compute self points = Return s'
    /\ q_grid s' = q_grid self
    /\ s_complex s'
       = map3 (fun q => cell_div (point_sum points (Some (0, 0)) q)
                                 (Some (INR (List.length points))))
              (q_grid self).
Proof.
  intros Hne.
  destruct (init_accumulate Lx Ly Lz g) as (self & Hinit & Hgrid & Hq & Hacc).
  assert (Hmid : (grid self / 2)%nat = g).
  { rewrite Hgrid. symmetry. apply (Nat.div_unique _ 2 g 1); lia. }
  assert (Hn : 0 < INR (List.length points)).
  { apply lt_0_INR. destruct points; [congruence | cbn; lia]. }
  exists self. eexists. split; [exact Hinit |].
  unfold compute. rewrite Hmid, Hacc, get3_map3, Hq. cbn [option_map].
  rewrite point_sum_origin. unfold cell_abs; cbn [option_map].
  replace (0 + INR (List.length points)) with (INR (List.length points))
    by ring.
  rewrite cabs_real by lra.
  split; [reflexivity |]. cbn [q_grid s_complex].
  split; [reflexivity |]. apply map3_map3.
Qed.

Lemma intensity_div (X Y n : R) :
  n <> 0 ->
  intensity (cell_div (Some (X, Y)) (Some n))
  = Some ((X * X + Y * Y) / (n * n)).
Proof.
  intros Hn. unfold cell_div.
  destruct (Req_dec_T n 0) as [E | _]; [now elim Hn |].
  unfold intensity, cell_conj, cell_mul, cell_real, cmul, np_conj.
  cbn [option_map fst snd]. f_equal. field. exact Hn.
Qed.

(** X19. For a box of nonzero sides and at least one point, every
    element of the array [getS()] returns after [compute] is a number
    between 0 and 1, over exact arithmetic, and the element of the centre,
    where q is zero, is 1. *)
Theorem getS_between_0_and_1 (Lx Ly Lz : R) (g : nat)
  (points : list (R * R * R)) :
  Lx <> 0 -> Ly <> 0 -> Lz <> 0 -> points <> [] ->
  exists self s',
    SFactor3DPoints_init false Lx Ly Lz g = Return self
    /\ compute self points = Return s'
    /\ (forall c b a, (c <= 2 * g)%nat -> (b <= 2 * g)%nat ->
          (a <= 2 * g)%nat ->
          exists v, get3 (getS s') c b a = Some (Some v) /\ 0 <= v <= 1)
    /\ get3 (getS s') g g g = Some (Some 1).
Proof.
  intros HLx HLy HLz Hne.
  destruct (compute_normalized Lx Ly Lz g points Hne)
    as (self & s' & Hinit & Hcomp & _ & Hs).
  exists self, s'. split; [exact Hinit |]. split; [exact Hcomp |].
  destruct (init_q_values Lx Ly Lz g) as (self0 & Hinit0 & _ & Hq).
  rewrite Hinit in Hinit0. injection Hinit0 as <-.
  assert (Hn : 0 < INR (List.length points)).
  { apply lt_0_INR. destruct points; [congruence | cbn; lia]. }
  set (n := INR (List.length points)) in *.
  rewrite getS_intensity, Hs, map3_map3.
  split.
  - intros c b a Hc Hb Ha. rewrite get3_map3, (Hq c b a Hc Hb Ha).
    cbn [option_map].
    destruct (point_sum_bound points
                ((INR a - INR g) * (2 * PI / Lx),
                 (INR b - INR g) * (2 * PI / Ly),
                 (INR c - INR g) * (2 * PI / Lz)) 0 0 0)
      as (X & Y & E & Hb'); [lra | lra |].
    fold n in Hb'. rewrite E, intensity_div by lra.
    eexists. split; [reflexivity |].
    assert (Hnn : 0 < n * n) by nra.
    split.
    + apply Rmult_le_reg_r with (n * n); [exact Hnn |].
      unfold Rdiv. rewrite Rmult_assoc, Rinv_l by lra. nra.
    + apply Rmult_le_reg_r with (n * n); [exact Hnn |].
      unfold Rdiv. rewrite Rmult_assoc, Rinv_l by lra. nra.
  - rewrite get3_map3, (Hq g g g) by lia. cbn [option_map].
    replace ((INR g - INR g) * (2 * PI / Lx)) with 0 by ring.
    replace ((INR g - INR g) * (2 * PI / Ly)) with 0 by ring.
    replace ((INR g - INR g) * (2 * PI / Lz)) with 0 by ring.
    rewrite point_sum_origin. fold n. rewrite intensity_div by lra.
    do 2 f_equal. field. lra.
Qed.

(** *** Inversion symmetry *)

Lemma phase_opp (p : R * R * R) (q0 q1 q2 : R) :
  phase p (- q0, - q1, - q2) = cell_conj (phase p (q0, q1, q2)).
Proof.
  destruct p as [[p0 p1] p2]. unfold phase, cexp_i, cell_conj, np_conj.
  cbn [option_map fst snd].
  replace (- q0 * p0 + - q1 * p1 + - q2 * p2)
    with (- (q0 * p0 + q1 * p1 + q2 * p2)) by ring.
  now rewrite cos_neg, sin_neg.
Qed.

Lemma point_sum_opp (points : list (R * R * R)) (start : cell)
  (q0 q1 q2 : R) :
  point_sum points (cell_conj start) (- q0, - q1, - q2)
  = cell_conj (point_sum points start (q0, q1, q2)).
Proof.
  unfold point_sum. revert start.
  induction points as [| p points IH]; intros start; [reflexivity |].
  cbn [fold_left]. rewrite <- IH. f_equal. rewrite phase_opp.
  destruct start as [[x y] |], (phase p (q0, q1, q2)) as [[x' y'] |];
    try reflexivity.
  unfold cell_add, cell_conj, cadd, np_conj. cbn [option_map fst snd].
  do 2 f_equal. ring.
Qed.

Lemma intensity_conj_div (u : cell) (c : option R) :
  intensity (cell_div (cell_conj u) c) = intensity (cell_div u c).
Proof.
  destruct u as [[x y] |], c as [r |]; try reflexivity.
  unfold cell_conj, np_conj, cell_div. cbn [option_map fst snd].
  destruct (Req_dec_T r 0); [reflexivity |].
  unfold intensity, cell_conj, cell_mul, cell_real, cmul, np_conj.
  cbn [option_map fst snd]. f_equal. unfold Rdiv. ring.
Qed.

(** X20. The structure factor of real points is symmetric under
    inversion of q: after [compute], for a box of nonzero sides and at
    least one point, [getS()] holds the same value at [c, b, a] and at the
    mirrored index [2 g - c, 2 g - b, 2 g - a]. *)
Theorem getS_inversion_symmetric (Lx Ly Lz : R) (g : nat)
  (points : list (R * R * R)) (c b a : nat) :
  Lx <> 0 -> Ly <> 0 -> Lz <> 0 -> points <> [] ->
  (c <= 2 * g)%nat -> (b <= 2 * g)%nat -> (a <= 2 * g)%nat ->
  exists self s',
    SFactor3DPoints_init false Lx Ly Lz g = Return self
    /\ compute self points = Return s'
    /\ get3 (getS s') (2 * g - c) (2 * g - b) (2 * g - a)
       = get3 (getS s') c b a.
Proof.
  intros HLx HLy HLz Hne Hc Hb Ha.
  destruct (compute_normalized Lx Ly Lz g points Hne)
    as (self & s' & Hinit & Hcomp & _ & Hs).
  exists self, s'. split; [exact Hinit |]. split; [exact Hcomp |].
  destruct (init_q_values Lx Ly Lz g) as (self0 & Hinit0 & _ & Hq).
  rewrite Hinit in Hinit0. injection Hinit0 as <-.
  rewrite getS_intensity, Hs, map3_map3, !get3_map3.
  rewrite (Hq c b a Hc Hb Ha), (Hq (2 * g - c) (2 * g - b) (2 * g - a))%nat
    by lia.
  cbn [option_map]. f_equal.
  assert (Hm : forall k, (k <= 2 * g)%nat ->
                 forall L, (INR (2 * g - k) - INR g) * (2 * PI / L)
                           = - ((INR k - INR g) * (2 * PI / L))).
  { intros k Hk L. rewrite minus_INR by exact Hk.
    rewrite mult_INR. change (INR 2) with 2. ring. }
  rewrite !Hm by assumption.
  assert (E0 : cell_conj (Some (0, 0)) = Some (0, 0)).
  { unfold cell_conj, np_conj. cbn [option_map fst snd]. do 2 f_equal. ring. }
  rewrite <- E0 at 1.
  rewrite point_sum_opp. apply intensity_conj_div.
Qed.

(** A box of sides 1, 2 and 3, and two points in it. *)
Lemma init_q_grid_witness :
  exists self,
    SFactor3DPoints_init false 1 2 3 1 = Return self
    /\ nth_error (qy self) 2 = Some ((INR 2 - INR 1) * (2 * PI / 2)).
Proof.
  destruct (init_q_grid 1 2 3 1) as (self & Hinit & _ & _ & _ & _ & Hk & _);
    [lra | lra | lra |].
  exists self. split; [exact Hinit |].
  destruct (Hk 2%nat) as (_ & Hy & _); [lia | exact Hy].
Defined.

Lemma getS_between_0_and_1_witness :
  exists self s',
    SFactor3DPoints_init false 1 2 3 1 = Return self
    /\ compute self [(0, 0, 0); (1 / 2, 1, 1)] = Return s'
    /\ get3 (getS s') 1 1 1 = Some (Some 1).
Proof.
  destruct (getS_between_0_and_1 1 2 3 1 [(0, 0, 0); (1 / 2, 1, 1)])
    as (self & s' & Hinit & Hcomp & _ & Hc); [lra | lra | lra | discriminate |].
  exists self, s'. auto.
Defined.

Lemma getS_inversion_symmetric_witness :
  exists self s',
    SFactor3DPoints_init false 1 2 3 1 = Return self
    /\ compute self [(0, 0, 0); (1 / 2, 1, 1)] = Return s'
    /\ get3 (getS s') (2 * 1 - 0) (2 * 1 - 1) (2 * 1 - 2)
       = get3 (getS s') 0 1 2.
Proof.
  apply (getS_inversion_symmetric 1 2 3 1 [(0, 0, 0); (1 / 2, 1, 1)]
           0%nat 1%nat 2%nat); try lra; try lia. discriminate.
Defined.

End SFactor.

(** *** rotate and quatrot *)

Section Rotations.
Local Open Scope R_scope.

Definition np_add (a b : vec) : vec :=
  let '(a0, a1, a2) := a in
  let '(b0, b1, b2) := b in
  (a0 + b0, a1 + b1, a2 + b2).

(** [rotate(v, u, theta)] for arrays [v] and [u] of three numbers. *)
Definition rotate (v u : vec) (theta : R) : vec :=
  let '(vx, vy, vz) := v in
  let '(ux, uy, uz) := u in
  let st := sin theta in
  let ct := cos theta in
  (vx * (ct + ux * ux * (1 - ct))
   + vy * (ux * uy * (1 - ct) - uz * st)
   + vz * (ux * uz * (1 - ct) + uy * st),
   vx * (uy * ux * (1 - ct) + uz * st)
   + vy * (ct + uy * uy * (1 - ct))
   + vz * (uy * uz * (1 - ct) - ux * st),
   vx * (uz * ux * (1 - ct) - uy * st)
   + vy * (uz * uy * (1 - ct) + ux * st)
   + vz * (ct + uz * uz * (1 - ct))).

(** A quaternion [a]: its scalar [a[0]] and its vector [a[1:4]]. *)
Definition quat : Type := (R * vec)%type.

(** [quatrot(a, b)]. *)
Definition quatrot (a : quat) (b : vec) : vec :=
  let s := fst a in
  let v := snd a in
  np_add (np_add (np_scale (s * s - np_dot v v) b)
                 (np_scale (2 * s) (np_cross v b)))
         (np_scale (2 * np_dot v b) v).

(** [q * np.array([1, -1, -1, -1])], the conjugate as [compute_py]
    forms it. *)
Definition quat_conj (q : quat) : quat :=
  let '(s, (v0, v1, v2)) := q in (s * 1, (v0 * -1, v1 * -1, v2 * -1)).

(** The squared norm of a quaternion. *)
Definition quat_norm2 (a : quat) : R := fst a * fst a + np_dot (snd a) (snd a).

(** X21. [quatrot(a, b)] multiplies the dot product of two vectors by
    the square of the squared norm of the quaternion, over exact
    arithmetic: for a unit quaternion the lengths of vectors and the
    angles between them are kept, and the quaternion (1, 0, 0, 0) leaves
    every vector as it is. *)
Theorem quatrot_preserves_dot (a : quat) (b c : vec) :
  np_dot (quatrot a b) (quatrot a c)
  = quat_norm2 a * quat_norm2 a * np_dot b c
  /\ (quat_norm2 a = 1 ->
      np_dot (quatrot a b) (quatrot a c) = np_dot b c)
  /\ quatrot (1, (0, 0, 0)) b = b.
Proof.
  assert (E : np_dot (quatrot a b) (quatrot a c)
              = quat_norm2 a * quat_norm2 a * np_dot b c).
  { destruct a as [s [[v0 v1] v2]], b as [[b0 b1] b2], c as [[c0 c1] c2].
    unfold quatrot, quat_norm2. cbn. ring. }
  split; [exact E |]. split.
  - intros Hn. rewrite E, Hn. ring.
  - destruct b as [[b0 b1] b2]. unfold quatrot. cbn.
    f_equal; [f_equal |]; ring.
Qed.

(** X22. Rotating by the conjugate quaternion, formed as [compute_py]
    forms it, undoes [quatrot]: the vector comes back scaled by the square
    of the squared norm, that is unchanged for a unit quaternion. *)
Theorem quatrot_conjugate_undoes (a : quat) (b : vec) :
  quatrot (quat_conj a) (quatrot a b)
  = np_scale (quat_norm2 a * quat_norm2 a) b
  /\ quatrot a (quatrot (quat_conj a) b)
     = np_scale (quat_norm2 a * quat_norm2 a) b.
Proof.
  destruct a as [s [[v0 v1] v2]], b as [[b0 b1] b2].
  unfold quatrot, quat_conj, quat_norm2. cbn.
  split; (f_equal; [f_equal |]); ring.
Qed.

(** X23. For an axis of unit length [rotate] keeps the dot product of
    any two vectors, and so the length of every vector, whatever the
    angle. *)
Theorem rotate_preserves_dot (v w u : vec) (theta : R) :
  np_dot u u = 1 ->
  np_dot (rotate v u theta) (rotate w u theta) = np_dot v w.
Proof.
  destruct v as [[vx vy] vz], w as [[wx wy] wz], u as [[ux uy] uz].
  unfold rotate. cbn. intros Hu.
  pose proof (sin2_cos2 theta) as Hsc. unfold Rsqr in Hsc.
  set (s := sin theta) in *. set (c := cos theta) in *.
  nsatz.
Qed.

(** X24. For an axis of unit length, rotating by one angle and then by
    another about the same axis is rotating by their sum; the angle 0
    leaves every vector as it is, and the axis itself is fixed by every
    angle. *)
Theorem rotate_composes (v u : vec) (a b : R) :
  np_dot u u = 1 ->
  rotate (rotate v u a) u b = rotate v u (a + b)
  /\ rotate v u 0 = v
  /\ rotate u u a = u.
Proof.
  destruct v as [[vx vy] vz], u as [[ux uy] uz].
  unfold rotate. cbn. intros Hu.
  rewrite cos_plus, sin_plus, cos_0, sin_0.
  pose proof (sin2_cos2 a) as Hsc. unfold Rsqr in Hsc.
  set (sa := sin a) in *. set (ca := cos a) in *.
  set (sb := sin b). set (cb := cos b).
  split; [| split]; (f_equal; [f_equal |]); nsatz.
Qed.

Lemma rotate_preserves_dot_witness :
  np_dot (rotate (1, 2, 3) (0, 0, 1) 1) (rotate (4, 5, 6) (0, 0, 1) 1)
  = np_dot (1, 2, 3) (4, 5, 6).
Proof.
  apply (rotate_preserves_dot (1, 2, 3) (4, 5, 6) (0, 0, 1) 1).
  cbn. ring.
Defined.

Lemma rotate_composes_witness :
  rotate (rotate (1, 2, 3) (0, 0, 1) 1) (0, 0, 1) 2
  = rotate (1, 2, 3) (0, 0, 1) (1 + 2).
Proof.
  apply (rotate_composes (1, 2, 3) (0, 0, 1) 1 2).
  cbn. ring.
Defined.

End Rotations.

(** *** AnalyzeSFactor3D *)

Section Analyze.
Import Py Py.Notations.
Local Open Scope Z_scope.

Record AnalyzeSFactor3D : Type := mkAnalyze {
  an_S : arr3 Q;
  an_grid : Z;
  an_g : Z
}.

(** [__init__]; [S.shape[0]] is the number of planes. *)
Definition AnalyzeSFactor3D_init (S : arr3 Q) : AnalyzeSFactor3D :=
  let grid := Z.of_nat (List.length S) in
  mkAnalyze S grid (grid / 2).

(** [enumerate(l)]. *)
Definition enumerate {T : Type} (l : list T) : list (Z * T) :=
  combine (map Z.of_nat (seq 0 (List.length l))) l.

(** The elements of an array with their indices, in row-major order. *)
Definition entries (S : arr3 Q) : list (Z * Z * Z * Q) :=
  flat_map (fun cp =>
    flat_map (fun br =>
      map (fun av => (fst cp, fst br, fst av, snd av)) (enumerate (snd br)))
      (enumerate (snd cp)))
    (enumerate S).

(** [(S > cut).nonzero()], the three index arrays read together. *)
Definition nonzero_above (S : arr3 Q) (cut : Q) : list (Z * Z * Z) :=
  map (fun e => fst e)
      (filter (fun e => negb (Qle_bool (snd e) cut)) (entries S)).

(** The position an index stands for along an axis of [n] elements;
    negative indices count from the end. *)
Definition np_index (axis : Z) (n : nat) (i : Z) : outcome nat :=
  if (0 <=? i) && (i <? Z.of_nat n) then Return (Z.to_nat i)
  else if (i <? 0) && (- Z.of_nat n <=? i)
       then Return (Z.to_nat (i + Z.of_nat n))
       else Raise (IndexError
                     ("index " ++ Common.str_int i
                      ++ " is out of bounds for axis " ++ Common.str_int axis
                      ++ " with size " ++ Common.str_int (Z.of_nat n))).

Definition nth_item {T : Type} (axis : Z) (l : list T) (i : Z) : outcome T :=
  match np_index axis (List.length l) i with
  | Raise e => Raise e
  | Return n =>
      match nth_error l n with
      | Some x => Return x
      | None => Raise (IndexError "index out of bounds")
      end
  end.

(** [S[(i, j, k)]]. *)
Definition np_item (S : arr3 Q) (i j k : Z) : outcome Q :=
  match nth_item 0 S i with
  | Raise e => Raise e
  | Return plane =>
      match nth_item 1 plane j with
      | Raise e => Raise e
      | Return row => nth_item 2 row k
      end
  end.

(** A list comprehension whose element expression may raise. *)
Fixpoint traverse {A B : Type} (f : A -> outcome B) (l : list A)
  : outcome (list B) :=
  match l with
  | [] => Return []
  | a :: l' =>
      match f a with
      | Raise e => Raise e
      | Return b =>
          match traverse f l' with
          | Raise e => Raise e
          | Return bs => Return (b :: bs)
          end
      end
  end.

Definition getPeakList (self : AnalyzeSFactor3D) (cut : Q)
  : outcome (list (Z * Z * Z) * list Q) :=
  let g := an_g self in
  let q_list :=
    map (fun cba => (fst (fst cba) - g, snd (fst cba) - g, snd cba - g))
        (nonzero_above (an_S self) cut) in
  match traverse (fun q => np_item (an_S self) (fst (fst q) + g)
                                   (snd (fst q) + g) (snd q + g)) q_list with
  | Raise e => Raise e
  | Return peak_list => Return (q_list, peak_list)
  end.

(** A dict with [int] keys, in the order the keys came in. *)
Definition zdict : Type := list (Z * list Q).

Definition zdict_mem (d : zdict) (k : Z) : bool :=
  existsb (fun kv => fst kv =? k) d.

Fixpoint zdict_get (d : zdict) (k : Z) : outcome (list Q) :=
  match d with
  | [] => Raise (KeyError (Common.str_int k))
  | (k', l) :: d' => if k' =? k then Return l else zdict_get d' k
  end.

Fixpoint zdict_set (d : zdict) (k : Z) (l : list Q) : zdict :=
  match d with
  | [] => [(k, l)]
  | (k', l') :: d' =>
      if k' =? k then (k', l) :: d' else (k', l') :: zdict_set d' k l
  end.

Definition qsq_of (q : Z * Z * Z) : Z :=
  fst (fst q) * fst (fst q) + snd (fst q) * snd (fst q) + snd q * snd q.

(** The body of the loop of [getPeakDegeneracy]. *)
Definition degeneracy_step (retval : zdict) (qp : Z * Z * Z * Q)
  : outcome zdict :=
  let qsq := qsq_of (fst qp) in
  let retval :=
    if negb (zdict_mem retval qsq) then zdict_set retval qsq [] else retval in
  match zdict_get retval qsq with
  | Raise e => Raise e
  | Return l => Return (zdict_set retval qsq (l ++ [snd qp]))
  end.

Fixpoint fold_outcome {A B : Type} (f : A -> B -> outcome A) (l : list B)
  (a : A) : outcome A :=
  match l with
  | [] => Return a
  | b :: l' =>
      match f a b with
      | Raise e => Raise e
      | Return a' => fold_outcome f l' a'
      end
  end.

Definition getPeakDegeneracy (self : AnalyzeSFactor3D) (cut : Q)
  : outcome zdict :=
  match getPeakList self cut with
  | Raise e => Raise e
  | Return (q_list, peak_list) =>
      fold_outcome degeneracy_step (combine q_list peak_list) []
  end.

(** [range(lo, hi)[i]]. *)
Definition range_item (lo hi i : Z) : outcome Z :=
  let n := Z.max 0 (hi - lo) in
  if (0 <=? i) && (i <? n) then Return (lo + i)
  else if (i <? 0) && (- n <=? i) then Return (lo + (i + n))
  else Raise (IndexError "range object index out of range").

Definition lift_outcome {St A : Type} (o : outcome A) : M St A :=
  fun st => (o, st).

(** [S.flatten()]. *)
Definition flatten (S : arr3 Q) : list Q := List.concat (List.concat S).

(** [getSvsQ]; the state of the loops is [qsq_list]. *)
Definition getSvsQ (self : AnalyzeSFactor3D) : outcome (list Q * list Z) :=
  let hx := range_item (- an_g self) (an_g self + 1) in
  let loops : M (list Z) unit :=
    for_each (range (an_grid self)) (fun i =>
      for_each (range (an_grid self)) (fun j =>
        for_each (range (an_grid self)) (fun k =>
          hi <- lift_outcome (hx i) ;;
          hj <- lift_outcome (hx j) ;;
          hk <- lift_outcome (hx k) ;;
          qsq_list <- get ;;
          put (qsq_list ++ [hi * hi + hj * hj + hk * hk])))) in
  match loops [] with
  | (Raise e, _) => Raise e
  | (Return _, qsq_list) => Return (flatten (an_S self), qsq_list)
  end.

(** *** Facts on the peaks *)

Lemma In_enumerate {T : Type} (l : list T) (i : Z) (x : T) :
  In (i, x) (enumerate l) <->
  exists n, i = Z.of_nat n /\ nth_error l n = Some x.
Proof.
  unfold enumerate.
  assert (H : forall (start : nat),
            In (i, x) (combine (map Z.of_nat (seq start (List.length l))) l)
            <-> exists n, i = Z.of_nat (start + n)
                          /\ nth_error l n = Some x).
  { induction l as [| y l IH]; intros start.
    - cbn. split; [intros [] | intros (n & _ & H); now destruct n].
    - cbn [List.length seq map combine In]. rewrite IH. split.
      + intros [[= <- <-] | (n & -> & Hn)].
        * exists 0%nat. split; [f_equal; lia | reflexivity].
        * exists (S n). split; [f_equal; lia | exact Hn].
      + intros ([| n] & -> & Hn).
        * left. cbn in Hn. injection Hn as <-. f_equal. f_equal. lia.
        * right. exists n. split; [f_equal; lia | exact Hn]. }
  rewrite (H 0%nat). reflexivity.
Qed.

Lemma In_entries (S : arr3 Q) (c b a : Z) (v : Q) :
  In (c, b, a, v) (entries S) <->
  exists c' b' a',
    c = Z.of_nat c' /\ b = Z.of_nat b' /\ a = Z.of_nat a'
    /\ get3 S c' b' a' = Some v.
Proof.
  unfold entries, get3. rewrite in_flat_map. split.
  - intros ([ci plane] & Hc & H). rewrite in_flat_map in H.
    destruct H as ([bi row] & Hb & H). rewrite in_map_iff in H.
    destruct H as ([ai x] & [= <- <- <- <-] & Ha).
    apply In_enumerate in Hc as (c' & -> & Hc).
    cbn [snd] in Hb. apply In_enumerate in Hb as (b' & -> & Hb).
    cbn [snd] in Ha. apply In_enumerate in Ha as (a' & -> & Ha).
    exists c', b', a'. cbn [fst]. rewrite Hc, Hb. auto.
  - intros (c' & b' & a' & -> & -> & -> & H).
    destruct (nth_error S c') as [plane |] eqn:Hc; [| discriminate].
    destruct (nth_error plane b') as [row |] eqn:Hb; [| discriminate].
    exists (Z.of_nat c', plane). split; [apply In_enumerate; eauto |].
    rewrite in_flat_map. exists (Z.of_nat b', row).
    split; [apply In_enumerate; eauto |].
    rewrite in_map_iff. exists (Z.of_nat a', v).
    split; [reflexivity | apply In_enumerate; eauto].
Qed.

Lemma nth_item_nat {T : Type} (axis : Z) (l : list T) (n : nat) (x : T) :
  nth_error l n = Some x -> nth_item axis l (Z.of_nat n) = Return x.
Proof.
  intros H. unfold nth_item, np_index.
  assert (Hlt : (n < List.length l)%nat) by (apply nth_error_Some; congruence).
  destruct (Z.leb_spec 0 (Z.of_nat n)); [| lia].
  destruct (Z.ltb_spec (Z.of_nat n) (Z.of_nat (List.length l))); [| lia].
  cbn [andb]. now rewrite Nat2Z.id, H.
Qed.

Lemma np_item_get3 (S : arr3 Q) (c b a : nat) (v : Q) :
  get3 S c b a = Some v ->
  np_item S (Z.of_nat c) (Z.of_nat b) (Z.of_nat a) = Return v.
Proof.
  unfold get3, np_item. intros H.
  destruct (nth_error S c) as [plane |] eqn:Hc; [| discriminate].
  destruct (nth_error plane b) as [row |] eqn:Hb; [| discriminate].
  rewrite (nth_item_nat 0 S c plane Hc), (nth_item_nat 1 plane b row Hb).
  now apply nth_item_nat.
Qed.

Lemma traverse_map {A B C : Type} (f : B -> outcome C) (h : A -> B)
  (k : A -> C) (l : list A) :
  (forall a, In a l -> f (h a) = Return (k a)) ->
  traverse f (map h l) = Return (map k l).
Proof.
  induction l as [| a l IH]; intros H; [reflexivity |].
  cbn [map traverse]. rewrite (H a) by now left.
  rewrite IH; [reflexivity |]. intros a' Ha'. apply H. now right.
Qed.

(** The peaks: the entries of [S] above the cut, with their indices
    shifted by [g]. *)
Definition peaks (self : AnalyzeSFactor3D) (cut : Q)
  : list (Z * Z * Z * Q) :=
  map (fun e => (fst (fst (fst e)) - an_g self, snd (fst (fst e)) - an_g self,
                 snd (fst e) - an_g self, snd e))
      (filter (fun e => negb (Qle_bool (snd e) cut)) (entries (an_S self))).

Lemma getPeakList_peaks (self : AnalyzeSFactor3D) (cut : Q) :
  getPeakList self cut
  = Return (map fst (peaks self cut), map snd (peaks self cut)).
Proof.
  unfold getPeakList, nonzero_above, peaks. rewrite !map_map.
  erewrite traverse_map with (k := fun e => snd e).
  - cbn [fst snd]. reflexivity.
  - intros [[[c b] a] v] Hin. cbn [fst snd].
    apply filter_In in Hin as [Hin _].
    apply In_entries in Hin as (c' & b' & a' & -> & -> & -> & H).
    replace (Z.of_nat c' - an_g self + an_g self) with (Z.of_nat c') by lia.
    replace (Z.of_nat b' - an_g self + an_g self) with (Z.of_nat b') by lia.
    replace (Z.of_nat a' - an_g self + an_g self) with (Z.of_nat a') by lia.
    now apply np_item_get3.
Qed.


(** The peak values whose position has the squared length [k], in the
    order of the peak list. *)
Definition peaks_at (ps : list (Z * Z * Z * Q)) (k : Z) : list Q :=
  map snd (filter (fun qp => qsq_of (fst qp) =? k) ps).

Lemma zdict_get_set (d : zdict) (k k' : Z) (l : list Q) :
  zdict_get (zdict_set d k l) k'
  = if k =? k' then Return l else zdict_get d k'.
Proof.
  induction d as [| [k0 l0] d IH].
  - cbn. destruct (k =? k'); reflexivity.
  - cbn [zdict_set]. destruct (Z.eqb_spec k0 k) as [-> | Hne].
    + cbn [zdict_get]. destruct (k =? k'); reflexivity.
    + cbn [zdict_get]. rewrite IH.
      destruct (Z.eqb_spec k0 k') as [-> | Hne'].
      * destruct (Z.eqb_spec k k'); [congruence | reflexivity].
      * reflexivity.
Qed.

Lemma zdict_mem_get (d : zdict) (k : Z) :
  zdict_mem d k = false <-> zdict_get d k = Raise (KeyError (Common.str_int k)).
Proof.
  induction d as [| [k0 l0] d IH]; [cbn; tauto |].
  cbn [zdict_mem existsb zdict_get fst].
  destruct (k0 =? k); cbn [orb]; [split; discriminate | exact IH].
Qed.

Lemma zdict_set_keys (d : zdict) (k : Z) (l : list Q) :
  map fst (zdict_set d k l)
  = if zdict_mem d k then map fst d else map fst d ++ [k].
Proof.
  induction d as [| [k0 l0] d IH]; [reflexivity |].
  cbn [zdict_set zdict_mem existsb fst].
  destruct (Z.eqb_spec k0 k) as [-> | Hne]; cbn [orb map fst].
  - reflexivity.
  - rewrite IH. fold (zdict_mem d k). now destruct (zdict_mem d k).
Qed.

(** What the dict holds after the peaks [ps]: under every squared length
    that occurs, the peak values of that length. *)
Definition groups (d : zdict) (ps : list (Z * Z * Z * Q)) : Prop :=
  NoDup (map fst d)
  /\ forall k,
       zdict_get d k
       = match peaks_at ps k with
         | [] => Raise (KeyError (Common.str_int k))
         | l => Return l
         end.

Lemma degeneracy_step_groups (d : zdict) (ps : list (Z * Z * Z * Q))
  (qp : Z * Z * Z * Q) :
  groups d ps ->
  exists d', degeneracy_step d qp = Return d' /\ groups d' (ps ++ [qp]).
Proof.
  intros [Hnd Hget]. unfold degeneracy_step.
  set (k0 := qsq_of (fst qp)).
  set (d1 := if negb (zdict_mem d k0) then zdict_set d k0 [] else d).
  assert (H1 : zdict_get d1 k0 = Return (peaks_at ps k0)
               /\ NoDup (map fst d1)
               /\ zdict_mem d1 k0 = true
               /\ forall k, k <> k0 -> zdict_get d1 k = zdict_get d k).
  { unfold d1. destruct (zdict_mem d k0) eqn:Hm; cbn [negb].
    - split; [| split; [exact Hnd | split; [exact Hm | reflexivity]]].
      rewrite Hget. destruct (peaks_at ps k0) eqn:E; [| reflexivity].
      assert (zdict_mem d k0 = false); [| congruence].
      apply zdict_mem_get. now rewrite Hget, E.
    - split; [| split; [| split]].
      + rewrite zdict_get_set, Z.eqb_refl.
        apply zdict_mem_get in Hm. rewrite Hget in Hm.
        destruct (peaks_at ps k0); [reflexivity | discriminate].
      + rewrite zdict_set_keys, Hm. apply NoDup_app; [exact Hnd | |].
        * repeat constructor. intros [].
        * intros k1 Hx [<- | []].
          apply in_map_iff in Hx as (kv & Ek & Hin).
          assert (zdict_mem d k0 = true); [| congruence].
          apply existsb_exists. exists kv.
          split; [exact Hin | now apply Z.eqb_eq].
      + destruct (zdict_mem (zdict_set d k0 []) k0) eqn:E; [reflexivity |].
        apply zdict_mem_get in E. rewrite zdict_get_set, Z.eqb_refl in E.
        discriminate.
      + intros k Hk. rewrite zdict_get_set.
        destruct (Z.eqb_spec k0 k); [congruence | reflexivity]. }
  destruct H1 as (Hg1 & Hnd1 & Hm1 & Hother). rewrite Hg1.
  eexists. split; [reflexivity |]. split.
  - now rewrite zdict_set_keys, Hm1.
  - intros k. rewrite zdict_get_set. unfold peaks_at.
    rewrite filter_app, map_app. cbn [filter]. fold k0.
    destruct (Z.eqb_spec k0 k) as [<- | Hne].
    + cbn [map]. fold (peaks_at ps k0).
      destruct (peaks_at ps k0); reflexivity.
    + cbn [map]. rewrite app_nil_r. fold (peaks_at ps k).
      rewrite Hother by congruence. apply Hget.
Qed.

Lemma fold_degeneracy_groups (todo ps : list (Z * Z * Z * Q)) (d : zdict) :
  groups d ps ->
  exists d', fold_outcome degeneracy_step todo d = Return d'
             /\ groups d' (ps ++ todo).
Proof.
  revert ps d. induction todo as [| qp todo IH]; intros ps d Hg.
  - exists d. rewrite app_nil_r. now split.
  - cbn [fold_outcome].
    destruct (degeneracy_step_groups d ps qp Hg) as (d1 & E & Hg1).
    rewrite E. destruct (IH _ _ Hg1) as (d' & E' & Hg').
    exists d'. split; [exact E' |]. now rewrite <- app_assoc in Hg'.
Qed.

(** X26. [getPeakDegeneracy] never raises.  The dict it returns has one
    key for every squared length [q . q] that occurs among the peak
    positions and no other, and under each key the values of the peaks of
    that squared length, in the order of the peak list: every peak is in
    exactly one group. *)
Theorem getPeakDegeneracy_groups_by_qsq (self : AnalyzeSFactor3D)
  (cut : Q) :
  exists q_list peak_list retval,
    getPeakList self cut = Return (q_list, peak_list)
    /\ getPeakDegeneracy self cut = Return retval
    /\ NoDup (map fst retval)
    /\ (forall k,
          zdict_get retval k
          = match peaks_at (combine q_list peak_list) k with
            | [] => Raise (KeyError (Common.str_int k))
            | l => Return l
            end)
    /\ (forall k,
          zdict_mem retval k = true <->
          exists q p, In (q, p) (combine q_list peak_list) /\ qsq_of q = k).
Proof.
  eexists _, _.
  destruct (fold_degeneracy_groups
              (combine (map fst (peaks self cut)) (map snd (peaks self cut)))
              [] []) as (d & E & Hnd & Hget).
  { split; [constructor | reflexivity]. }
  exists d. split; [apply getPeakList_peaks |].
  unfold getPeakDegeneracy. rewrite getPeakList_peaks.
  split; [exact E |]. split; [exact Hnd |]. cbn [app] in Hget.
  split; [exact Hget |].
  intros k. split.
  - intros Hm.
    destruct (peaks_at (combine (map fst (peaks self cut))
                                (map snd (peaks self cut))) k) eqn:Ep.
    + assert (zdict_mem d k = false); [| congruence].
      apply zdict_mem_get. now rewrite Hget, Ep.
    + assert (Hin : In q (peaks_at (combine (map fst (peaks self cut))
                                    (map snd (peaks self cut))) k))
        by (rewrite Ep; now left).
      unfold peaks_at in Hin. apply in_map_iff in Hin as ([q' p] & _ & Hin).
      apply filter_In in Hin as [Hin Hk]. exists q', p.
      split; [exact Hin |]. now apply Z.eqb_eq in Hk.
  - intros (q & p & Hin & Hk).
    destruct (zdict_mem d k) eqn:Hm; [reflexivity |].
    apply zdict_mem_get in Hm. rewrite Hget in Hm.
    assert (Hp : In p (peaks_at (combine (map fst (peaks self cut))
                                  (map snd (peaks self cut))) k)).
    { unfold peaks_at. apply in_map_iff. exists (q, p).
      split; [reflexivity |]. apply filter_In. split; [exact Hin |].
      cbn [fst]. now apply Z.eqb_eq. }
    destruct (peaks_at _ k); [destruct Hp | discriminate].
Qed.

(** *** The list of squared lengths *)

Lemma for_each_append {A : Type} (xs : list A) (body : A -> M (list Z) unit)
  (f : A -> list Z) :
  (forall x st, In x xs -> body x st = (Return tt, st ++ f x)) ->
  forall st, for_each xs body st = (Return tt, st ++ flat_map f xs).
Proof.
  induction xs as [| x xs IH]; intros H st.
  - cbn. unfold ret. now rewrite app_nil_r.
  - cbn [for_each flat_map]. unfold bind. rewrite (H x st) by now left.
    rewrite IH by (intros x' st' Hx'; apply H; now right).
    now rewrite app_assoc.
Qed.

Lemma flat_map_singleton {A B : Type} (f : A -> B) (l : list A) :
  flat_map (fun x => [f x]) l = map f l.
Proof. induction l as [| a l IH]; cbn; congruence. Qed.

Lemma nth_error_concat_uniform {T : Type} (m : nat) (ls : list (list T))
  (i j : nat) :
  Forall (fun l => List.length l = m) ls -> (j < m)%nat ->
  nth_error (List.concat ls) (i * m + j)
  = match nth_error ls i with
    | Some l => nth_error l j
    | None => None
    end.
Proof.
  intros Hall Hj. revert i. induction Hall as [| l ls Hl Hall IH]; intros i.
  - cbn. destruct i; now rewrite nth_error_nil.
  - cbn [List.concat]. destruct i as [| i].
    + cbn [Nat.mul Nat.add nth_error]. apply nth_error_app1. lia.
    + cbn [nth_error]. rewrite nth_error_app2 by lia.
      rewrite <- IH. f_equal. lia.
Qed.

Lemma concat_uniform_length {T : Type} (m : nat) (ls : list (list T)) :
  Forall (fun l => List.length l = m) ls ->
  List.length (List.concat ls) = (List.length ls * m)%nat.
Proof.
  induction 1 as [| l ls Hl Hall IH]; [reflexivity |].
  cbn [List.concat List.length Nat.mul]. rewrite length_app. lia.
Qed.

Lemma nth_error_range (n : Z) (i : nat) :
  (Z.of_nat i < n) -> nth_error (range n) i = Some (Z.of_nat i).
Proof.
  intros Hi. unfold range. rewrite nth_error_map.
  rewrite (nth_error_nth' _ 0%nat) by (rewrite length_seq; lia).
  rewrite seq_nth by lia. reflexivity.
Qed.

Lemma range_length (n : Z) : List.length (range n) = Z.to_nat n.
Proof. unfold range. now rewrite length_map, length_seq. Qed.

(** An array of [n] planes of [n] rows of [n] elements. *)
Definition cubic (S : arr3 Q) : Prop :=
  Forall (fun plane =>
            List.length plane = List.length S
            /\ Forall (fun row => List.length row = List.length S) plane) S.

(** X27. On the analyzer of an array of [n] planes [getSvsQ] never
    raises.  It returns the flattened array and a list of [n^3] squared
    lengths; the entry at the position [(i n + j) n + k] is
    [(i - g)^2 + (j - g)^2 + (k - g)^2] for [g = n // 2], and for an array
    that is cubic the flattened array holds the element [S[i, j, k]] at
    that same position. *)
Theorem getSvsQ_lines_up (S : arr3 Q) :
  let self := AnalyzeSFactor3D_init S in
  let n := List.length S in
  let g := Z.of_nat n / 2 in
  exists qsq_list,
    getSvsQ self = Return (flatten S, qsq_list)
    /\ List.length qsq_list = (n * n * n)%nat
    /\ (forall i j k, (i < n)%nat -> (j < n)%nat -> (k < n)%nat ->
          nth_error qsq_list ((i * n + j) * n + k)
          = Some ((Z.of_nat i - g) * (Z.of_nat i - g)
                  + (Z.of_nat j - g) * (Z.of_nat j - g)
                  + (Z.of_nat k - g) * (Z.of_nat k - g)))
    /\ (cubic S ->
        List.length (flatten S) = (n * n * n)%nat
        /\ forall i j k, (i < n)%nat -> (j < n)%nat -> (k < n)%nat ->
             nth_error (flatten S) ((i * n + j) * n + k) = get3 S i j k).
Proof.
  cbv zeta. unfold getSvsQ, AnalyzeSFactor3D_init. cbn [an_g an_grid an_S].
  set (n := List.length S). set (g := Z.of_nat n / 2).
  set (sq := fun h : Z => (h - g) * (h - g)).
  assert (Hg : 0 <= g /\ Z.of_nat n <= 2 * g + 1).
  { unfold g. pose proof (Z.div_mod (Z.of_nat n) 2 ltac:(lia)) as Hd.
    pose proof (Z.mod_pos_bound (Z.of_nat n) 2 ltac:(lia)) as Hm.
    split; [apply Z.div_pos; lia | lia]. }
  assert (Hhx : forall h, In h (range (Z.of_nat n)) ->
                  range_item (- g) (g + 1) h = Return (h - g)).
  { intros h Hh%In_range. unfold range_item.
    replace (Z.max 0 (g + 1 - - g)) with (2 * g + 1) by lia.
    destruct (Z.leb_spec 0 h); [| lia].
    destruct (Z.ltb_spec h (2 * g + 1)); [| lia].
    cbn [andb]. f_equal. lia. }
  rewrite (for_each_append _ _
             (fun i => flat_map (fun j =>
                map (fun k => sq i + sq j + sq k) (range (Z.of_nat n)))
                (range (Z.of_nat n)))).
  2: { intros i st Hi.
       rewrite (for_each_append _ _
                  (fun j => map (fun k => sq i + sq j + sq k)
                                (range (Z.of_nat n)))); [reflexivity |].
       intros j st1 Hj.
       rewrite (for_each_append _ _ (fun k => [sq i + sq j + sq k])).
       - now rewrite flat_map_singleton.
       - intros k st2 Hk. unfold bind, lift_outcome, get, put.
         now rewrite (Hhx i Hi), (Hhx j Hj), (Hhx k Hk). }
  cbn [app]. eexists. split; [reflexivity |].
  assert (Hrow : forall i j,
            List.length (map (fun k => sq i + sq j + sq k)
                             (range (Z.of_nat n))) = n).
  { intros i j. rewrite length_map, range_length. lia. }
  assert (Hplane : forall i,
            Forall (fun l => List.length l = n)
                   (map (fun j => map (fun k => sq i + sq j + sq k)
                                      (range (Z.of_nat n)))
                        (range (Z.of_nat n)))).
  { intros i. apply Forall_map, Forall_forall. intros j _. apply Hrow. }
  assert (Hplane_len : forall i,
            List.length (flat_map (fun j =>
                           map (fun k => sq i + sq j + sq k)
                               (range (Z.of_nat n)))
                           (range (Z.of_nat n))) = (n * n)%nat).
  { intros i. rewrite flat_map_concat_map.
    rewrite (concat_uniform_length n) by apply Hplane.
    rewrite length_map, range_length. lia. }
  assert (Hall : Forall (fun l => List.length l = (n * n)%nat)
                   (map (fun i => flat_map (fun j =>
                           map (fun k => sq i + sq j + sq k)
                               (range (Z.of_nat n)))
                           (range (Z.of_nat n)))
                        (range (Z.of_nat n)))).
  { apply Forall_map, Forall_forall. intros i _. apply Hplane_len. }
  split; [| split].
  - rewrite flat_map_concat_map.
    rewrite (concat_uniform_length (n * n)) by exact Hall.
    rewrite length_map, range_length. lia.
  - intros i j k Hi Hj Hk.
    replace ((i * n + j) * n + k)%nat with (i * (n * n) + (j * n + k))%nat
      by lia.
    rewrite flat_map_concat_map.
    rewrite (nth_error_concat_uniform (n * n)) by (exact Hall || nia).
    rewrite nth_error_map, nth_error_range by lia. cbn [option_map].
    rewrite flat_map_concat_map.
    rewrite (nth_error_concat_uniform n) by (apply Hplane || lia).
    rewrite nth_error_map, nth_error_range by lia. cbn [option_map].
    rewrite nth_error_map, nth_error_range by lia. cbn [option_map].
    reflexivity.
  - intros Hc. unfold flatten.
    assert (Hrows : Forall (fun row => List.length row = n) (List.concat S)).
    { apply Forall_concat. eapply Forall_impl; [| exact Hc].
      cbn beta. intros plane [_ H]. exact H. }
    assert (Hplanes : Forall (fun plane => List.length plane = n) S).
    { eapply Forall_impl; [| exact Hc]. cbn beta. now intros plane [H _]. }
    split.
    + rewrite (concat_uniform_length n) by exact Hrows.
      rewrite (concat_uniform_length n) by exact Hplanes. reflexivity.
    + intros i j k Hi Hj Hk.
      rewrite (nth_error_concat_uniform n) by (exact Hrows || lia).
      rewrite (nth_error_concat_uniform n) by (exact Hplanes || lia).
      unfold get3. destruct (nth_error S i); [| reflexivity].
      destruct (nth_error l j); reflexivity.
Qed.

End Analyze.

(** *** FTfactory *)

Section Factory.
Import Py.
Local Open Scope Z_scope.

(** The FT objects and the argument objects their constructors take;
    [FTdelta] is the class of that name, called as a constructor. *)
Variable FTobject : Type.
Variable Arg : Type.
Variable FTdelta : option Arg -> FTobject.

Record FTfactory : Type := mkFactory {
  name_list : list string;
  constructor_list : list (option Arg -> FTobject);
  args_list : list (option Arg)
}.

Definition FTfactory_init : FTfactory :=
  mkFactory ["Delta"%string] [FTdelta] [None].

Definition getFTlist (self : FTfactory) : list string := name_list self.

(** [l[i]] on a list; negative indices count from the end. *)
Definition list_item {T : Type} (l : list T) (i : Z) : outcome T :=
  let n := Z.of_nat (List.length l) in
  let j := if i <? 0 then i + n else i in
  if (0 <=? j) && (j <? n)
  then match nth_error l (Z.to_nat j) with
       | Some x => Return x
       | None => Raise (IndexError "list index out of range")
       end
  else Raise (IndexError "list index out of range").

Definition getFTobject (self : FTfactory) (i : Z) (args : option Arg)
  : outcome FTobject :=
  match list_item (constructor_list self) i with
  | Raise e => Raise e
  | Return constructor =>
      match args with
      | Some a => Return (constructor (Some a))
      | None =>
          match list_item (args_list self) i with
          | Raise e => Raise e
          | Return a => Return (constructor a)
          end
      end
  end.

Definition addFT (name : string) (constructor : option Arg -> FTobject)
  (args : option Arg) : M FTfactory unit :=
  fun self =>
    if existsb (String.eqb name) (name_list self)
    then (Raise (ValueError (name ++ " already in factory")), self)
    else (Return tt,
          mkFactory (name_list self ++ [name])
                    (constructor_list self ++ [constructor])
                    (args_list self ++ [args])).

(** The three lists of a factory go together entry by entry. *)
Definition aligned (self : FTfactory) : Prop :=
  List.length (constructor_list self) = List.length (name_list self)
  /\ List.length (args_list self) = List.length (name_list self).

Lemma list_item_app_old {T : Type} (l : list T) (x : T) (i : Z) :
  0 <= i < Z.of_nat (List.length l) ->
  list_item (l ++ [x]) i = list_item l i.
Proof.
  intros Hi. unfold list_item. rewrite length_app. cbn [List.length].
  destruct (Z.ltb_spec i 0); [lia |].
  destruct (Z.leb_spec 0 i); [| lia].
  destruct (Z.ltb_spec i (Z.of_nat (List.length l + 1))); [| lia].
  destruct (Z.ltb_spec i (Z.of_nat (List.length l))); [| lia].
  cbn [andb]. rewrite nth_error_app1 by lia. reflexivity.
Qed.

Lemma list_item_app_new {T : Type} (l : list T) (x : T) (n : nat) :
  List.length l = n -> list_item (l ++ [x]) (Z.of_nat n) = Return x.
Proof.
  intros <-. unfold list_item. rewrite length_app. cbn [List.length].
  destruct (Z.ltb_spec (Z.of_nat (List.length l)) 0); [lia |].
  destruct (Z.leb_spec 0 (Z.of_nat (List.length l))); [| lia].
  destruct (Z.ltb_spec (Z.of_nat (List.length l))
                       (Z.of_nat (List.length l + 1))); [| lia].
  cbn [andb]. rewrite Nat2Z.id, nth_error_app2 by lia.
  now rewrite Nat.sub_diag.
Qed.

(** X28. [addFT] raises [ValueError] on a name the factory has and
    changes nothing.  A new name goes to the end of the list
    [getFTlist()] returns; [getFTobject] at the index of the name in that
    list then calls the constructor registered with it, on the default
    arguments registered with it or on the arguments passed, and gives
    what it gave before at every earlier index. *)
Theorem addFT_then_getFTobject (self : FTfactory) (name : string)
  (constructor : option Arg -> FTobject) (args : option Arg) :
  aligned self ->
  (existsb (String.eqb name) (name_list self) = true ->
   addFT name constructor args self
   = (Raise (ValueError (name ++ " already in factory")), self))
  /\ (existsb (String.eqb name) (name_list self) = false ->
      let self' := snd (addFT name constructor args self) in
      let n := Z.of_nat (List.length (name_list self)) in
      fst (addFT name constructor args self) = Return tt
      /\ getFTlist self' = getFTlist self ++ [name]
      /\ list_index (getFTlist self') name = Return n
      /\ getFTobject self' n None = Return (constructor args)
      /\ (forall a, getFTobject self' n (Some a)
                    = Return (constructor (Some a)))
      /\ (forall i a, 0 <= i < n ->
            getFTobject self' i a = getFTobject self i a)
      /\ aligned self').
Proof.
  intros [Hc Ha]. split; intros Hin; unfold addFT; rewrite Hin;
    [reflexivity |].
  cbv zeta. cbn [fst snd]. unfold getFTlist, getFTobject, aligned.
  cbn [name_list constructor_list args_list].
  split; [reflexivity |]. split; [reflexivity |].
  split; [now apply list_index_app_new |].
  rewrite !(list_item_app_new (constructor_list self)) by exact Hc.
  rewrite (list_item_app_new (args_list self)) by exact Ha.
  split; [reflexivity |]. split; [reflexivity |].
  split.
  - intros i a Hi. rewrite !list_item_app_old by lia. reflexivity.
  - rewrite !length_app. cbn [List.length]. lia.
Qed.

End Factory.

Lemma addFT_then_getFTobject_witness :
  let delta := fun a : option Z => ("delta"%string, a) in
  let sphere := fun a : option Z => ("sphere"%string, a) in
  let f := snd (addFT (string * option Z) Z "Sphere" sphere (Some 2%Z)
                      (FTfactory_init (string * option Z) Z delta)) in
  getFTlist (string * option Z) Z f = ["Delta"; "Sphere"]%string
  /\ getFTobject (string * option Z) Z f 1 None
     = Py.Return ("sphere"%string, Some 2%Z)
  /\ getFTobject (string * option Z) Z f 0 None
     = Py.Return ("delta"%string, None).
Proof.
  cbv zeta.
  destruct (addFT_then_getFTobject (string * option Z) Z
              (FTfactory_init (string * option Z) Z
                              (fun a => ("delta"%string, a)))
              "Sphere" (fun a => ("sphere"%string, a)) (Some 2%Z))
    as [_ H].
  - split; reflexivity.
  - destruct (H eq_refl) as (_ & Hl & _ & Hn & _ & Ho & _).
    split; [exact Hl |]. split; [exact Hn |].
    rewrite (Ho 0%Z None) by (cbn; lia). reflexivity.
Defined.

(** *** SingleCell3D.set_param *)

Section Params.
Import Py Py.Notations.
Local Open Scope Z_scope.

(** The form-factor objects live outside the registry, which holds
    references to them.  Of their state the method uses the parameter
    names [get_params()] lists and the effect of [set_parambyname]. *)
Variable FTstate : Type.
Variable ft_get_params : FTstate -> nat -> list string.
Variable ft_set_parambyname :
  nat -> string -> pyval -> FTstate -> outcome unit * FTstate.

(** A step on the registry, and a step on the form-factor objects. *)
Definition on_cell {A : Type} (c : M SingleCell3D A)
  : M (SingleCell3D * FTstate) A :=
  fun st => (fst (c (fst st)), (snd (c (fst st)), snd st)).

Definition on_ft {A : Type} (c : FTstate -> outcome A * FTstate)
  : M (SingleCell3D * FTstate) A :=
  fun st => (fst (c (snd st)), (fst st, snd (c (snd st)))).

(** [l[n] = v]. *)
Fixpoint list_set (l : list pyval) (n : nat) (v : pyval)
  : outcome (list pyval) :=
  match l, n with
  | [], _ => Raise (IndexError "list assignment index out of range")
  | _ :: l', O => Return (v :: l')
  | x :: l', S n' =>
      match list_set l' n' v with
      | Return r => Return (x :: r)
      | Raise e => Raise e
      end
  end.

Definition type_name (v : pyval) : string :=
  match v with
  | PyNone => "NoneType"
  | PyInt _ => "int"
  | PyFloat _ => "float"
  | PyStr _ => "str"
  | PyObject _ => "FTbase"
  | PyArray _ => "numpy.ndarray"
  end.

(** [FTobj.get_params()]. *)
Definition get_params (FTobj : pyval) : M (SingleCell3D * FTstate) (list string) :=
  match FTobj with
  | PyObject id => fun st => (Return (ft_get_params (snd st) id), st)
  | v => raise (AttributeError ("'" ++ type_name v
                                ++ "' object has no attribute 'get_params'"))
  end.

Definition set_param (particle param : string) (value : pyval)
  : M (SingleCell3D * FTstate) unit :=
  self <- on_cell get ;;
  i <- on_cell (lift (list_index (ptype_name self) particle)) ;;
  FTobj <- on_cell (lift (list_item (ptype_ff self) i)) ;;
  (if negb (existsb (String.eqb param) (map fst (ptype_param self)))
   then on_cell (set_ptype_param
                   (ptype_param self
                    ++ [(param,
                         repeat PyNone (List.length (ptype_name self)))]))
   else ret tt) ;;;
  self <- on_cell get ;;
  l <- on_cell (lift (dict_get (ptype_param self) param)) ;;
  l' <- on_cell (lift (list_set l (Z.to_nat i) value)) ;;
  on_cell (set_ptype_param (dict_update (ptype_param self) param l')) ;;;
  params <- get_params FTobj ;;
  if negb (existsb (String.eqb param) params)
  then raise (KeyError ("No set_ method for parameter " ++ param))
  else
    (match FTobj with
     | PyObject id => on_ft (ft_set_parambyname id param value)
     | _ => ret tt
     end) ;;;
    self <- on_cell get ;;
    if set_mem i (active_types self) then on_cell (set_FT_valid false)
    else ret tt.

Lemma list_set_nth (l : list pyval) (n : nat) (v : pyval) :
  (n < List.length l)%nat ->
  exists l', list_set l n v = Return l'
             /\ nth_error l' n = Some v
             /\ List.length l' = List.length l.
Proof.
  revert n. induction l as [| x l IH]; intros n Hn; [cbn in Hn; lia |].
  destruct n as [| n]; cbn [list_set].
  - eexists. repeat split.
  - destruct (IH n) as (l' & E & Hv & Hl); [cbn in Hn; lia |].
    rewrite E. eexists. split; [reflexivity |]. cbn. auto.
Qed.

Lemma dict_get_update_same (d : list (string * list pyval)) (key : string)
  (l0 l : list pyval) :
  dict_get d key = Return l0 -> dict_get (dict_update d key l) key = Return l.
Proof.
  induction d as [| [k v] d IH]; [discriminate |].
  cbn [dict_get dict_update].
  destruct (String.eqb k key) eqn:E; cbn [dict_get]; rewrite E; auto.
Qed.

Lemma dict_get_present (d : list (string * list pyval)) (key : string) :
  existsb (String.eqb key) (map fst d) = true ->
  exists l, dict_get d key = Return l /\ In (key, l) d.
Proof.
  induction d as [| [k v] d IH]; [discriminate |].
  cbn [map fst existsb dict_get]. rewrite String.eqb_sym.
  destruct (String.eqb_spec k key) as [-> | Hne]; cbn [orb].
  - intros _. exists v. split; [reflexivity | now left].
  - intros H. destruct (IH H) as (l & E & Hin). exists l.
    split; [exact E | now right].
Qed.

Lemma dict_get_new (d : list (string * list pyval)) (key : string)
  (l : list pyval) :
  existsb (String.eqb key) (map fst d) = false ->
  dict_get (d ++ [(key, l)]) key = Return l.
Proof.
  induction d as [| [k v] d IH].
  - intros _. cbn. now rewrite String.eqb_refl.
  - cbn [map fst existsb app dict_get]. rewrite String.eqb_sym.
    destruct (String.eqb k key); cbn [orb]; [discriminate | exact IH].
Qed.

(** X29. [set_param] writes the value into the parameter list of the
    type before it looks whether the form factor of the type takes the
    parameter.  On a registered type whose form factor is not set yet
    ([None], as [add_ptype] leaves it) the call raises [AttributeError],
    and on one whose form factor does not list the parameter it raises
    [KeyError]; in both cases the value is in the parameter list
    afterwards, under the index of the type, while the form-factor
    objects, the names, the other per-type lists and the active set are
    as before. *)
Theorem set_param_records_before_check (particle param : string)
  (value : pyval) (c : SingleCell3D) (ft : FTstate) (i : Z)
  (FTobj : pyval) :
  registry_ok c ->
  list_index (ptype_name c) particle = Return i ->
  nth_error (ptype_ff c) (Z.to_nat i) = Some FTobj ->
  FTobj = PyNone
  \/ (exists id, FTobj = PyObject id
                 /\ existsb (String.eqb param) (ft_get_params ft id) = false) ->
  exists e c' l,
    set_param particle param value (c, ft) = (Raise e, (c', ft))
    /\ (FTobj = PyNone ->
        e = AttributeError
              "'NoneType' object has no attribute 'get_params'")
    /\ (FTobj <> PyNone ->
        e = KeyError ("No set_ method for parameter " ++ param))
    /\ dict_get (ptype_param c') param = Return l
    /\ nth_error l (Z.to_nat i) = Some value
    /\ same_lists c c'
    /\ FT_valid c' = FT_valid c
    /\ active_types c' = active_types c.
Proof.
  intros Hok Hi Hff Hobj.
  destruct Hok as (Hn & Hp & Ho & Hf & Hk & Hl & Ha & Hr & Hms).
  destruct (list_index_range _ _ _ Hi) as [Hirange _].
  assert (Hitem : list_item (ptype_ff c) i = Return FTobj).
  { unfold list_item. destruct (Z.ltb_spec i 0); [lia |].
    destruct (Z.leb_spec 0 i); [| lia].
    destruct (Z.ltb_spec i (Z.of_nat (List.length (ptype_ff c)))); [| lia].
    cbn [andb]. now rewrite Hff. }
  (* the parameter dict once the key is there *)
  set (d1 := if negb (existsb (String.eqb param) (map fst (ptype_param c)))
             then ptype_param c
                  ++ [(param, repeat PyNone (List.length (ptype_name c)))]
             else ptype_param c).
  assert (Hd1 : exists l0, dict_get d1 param = Return l0
                           /\ List.length l0 = List.length (ptype_name c)).
  { unfold d1.
    destruct (existsb (String.eqb param) (map fst (ptype_param c))) eqn:E;
      cbn [negb].
    - destruct (dict_get_present _ _ E) as (l0 & G & Hin).
      exists l0. split; [exact G |].
      rewrite Forall_forall in Hl. exact (Hl _ Hin).
    - eexists. split; [now apply dict_get_new |]. apply repeat_length. }
  destruct Hd1 as (l0 & G0 & Hlen0).
  destruct (list_set_nth l0 (Z.to_nat i) value) as (l' & Es & Hv & _);
    [lia |].
  exists (match FTobj with
          | PyNone => AttributeError
                        "'NoneType' object has no attribute 'get_params'"
          | _ => KeyError ("No set_ method for parameter " ++ param)
          end),
    (mkCell (FT_valid c) (ptype_name c) (ptype_position c)
            (ptype_orientation c) (ptype_ff c) (dict_update d1 param l')
            (ptype_param_methods c) (active_types c)),
    l'.
  split.
  - unfold set_param. unfold lift, get.
    unfold bind at 1, on_cell at 1. cbn [fst snd].
    unfold bind at 1, on_cell at 1. cbn [fst snd]. rewrite Hi.
    unfold bind at 1, on_cell at 1. cbn [fst snd]. rewrite Hitem.
    unfold bind at 1.
    assert (E1 : (if negb (existsb (String.eqb param)
                             (map fst (ptype_param c)))
                  then on_cell (set_ptype_param
                         (ptype_param c
                          ++ [(param,
                               repeat PyNone
                                      (List.length (ptype_name c)))]))
                  else ret tt) (c, ft)
                 = (Return tt,
                    (mkCell (FT_valid c) (ptype_name c) (ptype_position c)
                            (ptype_orientation c) (ptype_ff c) d1
                            (ptype_param_methods c) (active_types c), ft))).
    { unfold d1.
      destruct (negb (existsb (String.eqb param) (map fst (ptype_param c)))).
      - reflexivity.
      - unfold ret. now destruct c. }
    rewrite E1.
    unfold bind at 1, on_cell at 1. cbn [fst snd].
    unfold bind at 1, on_cell at 1. cbn [fst snd ptype_param].
    rewrite G0.
    unfold bind at 1, on_cell at 1. cbn [fst snd]. rewrite Es.
    unfold bind at 1, on_cell at 1, set_ptype_param at 1.
    cbn [fst snd FT_valid ptype_name ptype_position ptype_orientation
         ptype_ff ptype_param ptype_param_methods active_types].
    unfold bind at 1.
    destruct Hobj as [-> | (id & -> & Hno)].
    + reflexivity.
    + unfold get_params. cbn [snd]. rewrite Hno. reflexivity.
  - split; [intros ->; reflexivity |].
    split; [destruct Hobj as [-> | (id & -> & _)];
            [intros H; now elim H | reflexivity] |].
    cbn [ptype_param FT_valid active_types].
    split; [now apply dict_get_update_same with l0 |].
    split; [exact Hv |]. repeat split.
Qed.

End Params.

Lemma set_param_records_before_check_witness :
  exists e c' l,
    set_param unit (fun _ _ => []) (fun _ _ _ ft => (Py.Return tt, ft))
              "A" "radius" (PyFloat 1) (cell_A, tt)
    = (Py.Raise e, (c', tt))
    /\ e = Py.AttributeError "'NoneType' object has no attribute 'get_params'"
    /\ dict_get (ptype_param c') "radius" = Py.Return l
    /\ nth_error l 0 = Some (PyFloat 1).
Proof.
  destruct (set_param_records_before_check unit (fun _ _ => [])
              (fun _ _ _ ft => (Py.Return tt, ft))
              "A" "radius" (PyFloat 1) cell_A tt 0%Z PyNone)
    as (e & c' & l & E & He & _ & Hg & Hv & _).
  - apply (add_ptype_ok "A" init_registry). apply init_registry_ok.
  - reflexivity.
  - reflexivity.
  - now left.
  - exists e, c', l. split; [exact E |]. split; [now apply He |].
    split; [exact Hg | exact Hv].
Defined.

End KSpace.
